(** * ShakeNBreak input generation: [shakenbreak/input.py] in Rocq

    The development follows the Python module function by function.  Python
    integers are [Z], Python floats are IEEE binary64 numbers ([PrimFloat]),
    exceptions are an explicit [result] type, printed lines and warnings are
    collected in an event log, and dictionaries mutated in place are threaded
    through the functions that mutate them.

    The definitions come first: the electron-count model, the rattle and
    bond distortion of one defect, the metadata file, the class
    [Distortions], and a chain of atoms to run them on.  The properties
    follow in the same order. *)

From Stdlib Require Import ZArith List String Ascii Bool Floats Lia Sorted
  Permutation.
From stdpp Require Import base option list gmap strings pretty.
Import ListNotations.

#[global] Set Warnings "-inexact-float,-clear-no-such-hyp".

Local Open Scope string_scope.
Local Open Scope list_scope.
Local Open Scope Z_scope.

(** ** Python exceptions and results *)

Inductive exn : Type :=
| ValueError (msg : string)
| KeyError (key : string)
| TypeError (msg : string)
| IndexError
| ZeroDivisionError (msg : string)
| OverflowError (msg : string)
| Exception (str_e : string).

Inductive result (A : Type) : Type :=
| Ok (a : A)
| Raise (e : exn).
Arguments Ok {A} a.
Arguments Raise {A} e.

Definition is_ok {A} (r : result A) : bool :=
  match r with Ok _ => true | Raise _ => false end.

(** The value of a result, or [otherwise] for a raised exception. *)
Definition value {A} (r : result A) (otherwise : A) : A :=
  match r with Ok a => a | Raise _ => otherwise end.

Definition bind {A B} (r : result A) (k : A -> result B) : result B :=
  match r with
  | Ok a => k a
  | Raise e => Raise e
  end.

(** [str(e)] for an exception object. *)
Definition str_exn (e : exn) : string :=
  match e with
  | ValueError m => m
  | KeyError k => k
  | TypeError m => m
  | IndexError => "index out of bounds"
  | ZeroDivisionError m => m
  | OverflowError m => m
  | Exception m => m
  end.

(** ** Dictionary keys

    A charge state is an [int] key in a dictionary built by [Distortions] and
    a [str] key in a dictionary read back from JSON; the two never compare
    equal. *)

Inductive pykey : Type :=
| KInt (z : Z)
| KStr (s : string).

(** ** Printed lines, warnings and calls

    Every [print] and [warnings.warn] of the module is one constructor that
    carries the values interpolated into the message; [Call_rattle] records a
    call of [shakenbreak.distortions.rattle] with the [d_min] and the
    [active_atoms] it was given ([None] when the argument is left out). *)

Inductive event : Type :=
| Msg_number_electrons (name : string) (num_electrons delta_q : Z)
| Msg_defect (defect_name : string)
| Msg_extra_electrons (number_electrons : Z)
| Msg_missing_electrons (number_electrons : Z)
| Msg_charge_state (defect_name : string) (charge num_nearest_neighbours : Z)
| Msg_distortion_info (bond_distortions : list float) (stdev : float)
| Msg_distortion (distortion : float)
| Msg_previous_version (filename current_datetime : string)
| Msg_combining (filename : string)
| Warn_bond_length (d_min : float)
| Warn_d_min_reduced (d_min reduced_d_min : float)
| Warn_metadata_conflict (defect : string) (charge : pykey) (filepath : string)
| Warn_metadata_problem (filepath : string)
| Call_rattle (d_min : float) (active_atoms : option (list Z)).

(** The lines that report the neighbours of a charge state. *)
Definition is_charge_state (e : event) : bool :=
  match e with
  | Msg_charge_state _ _ _ => true
  | _ => false
  end.

(** The events that are warnings. *)
Definition is_warning (e : event) : bool :=
  match e with
  | Warn_bond_length _ | Warn_d_min_reduced _ _
  | Warn_metadata_conflict _ _ _ | Warn_metadata_problem _ => true
  | _ => false
  end.

(** ** Electron-count model *)

Module ElectronCount.

(** The keys of a [doped] defect dictionary that [calc_number_electrons]
    reads.  [substituting_specie] exists for antisites and
    [substitution_specie] for substitutions only. *)
Record DefectSpecies : Type := {
  name : string;
  defect_type : string;
  site_specie : string;
  substituting_specie : option string;
  substitution_specie : option string
}.

Definition getitem (d : gmap string Z) (key : string) : result Z :=
  match d !! key with
  | Some v => Ok v
  | None => Raise (KeyError key)
  end.

Definition getkey (field : option string) (key : string) : result string :=
  match field with
  | Some v => Ok v
  | None => Raise (KeyError key)
  end.

(** The [if]/[elif] chain on [defect_type]: the pair
    [(site_specie, substituting_specie)]. *)
Definition species_of (defect_dict : DefectSpecies) : result (string * string) :=
  if (defect_type defect_dict =? "vacancy")%string then
    Ok (site_specie defect_dict, "Vac")
  else if (defect_type defect_dict =? "interstitial")%string then
    Ok ("Vac", site_specie defect_dict)
  else if (defect_type defect_dict =? "antisite")%string then
    bind (getkey (substituting_specie defect_dict) "substituting_specie")
         (fun s => Ok (site_specie defect_dict, s))
  else if (defect_type defect_dict =? "substitution")%string then
    bind (getkey (substitution_specie defect_dict) "substitution_specie")
         (fun s => Ok (site_specie defect_dict, s))
  else
    Raise (ValueError ("`defect_dict` has an invalid `defect_type`: "
                         +:+ defect_type defect_dict)).

(** What a call leaves behind: the caller's [oxidation_states] dictionary
    after the call, the lines printed, and the value returned or the
    exception raised. *)
Record outcome : Type := {
  oxidation_states_after : gmap string Z;
  stdout : list event;
  returned : result Z
}.

Definition calc_number_electrons (defect_dict : DefectSpecies)
    (oxidation_states : gmap string Z) (verbose : bool) : outcome :=
  let oxidation_states := <["Vac" := 0]> oxidation_states in
  match species_of defect_dict with
  | Raise e => Build_outcome oxidation_states [] (Raise e)
  | Ok (site_specie, substituting_specie) =>
    match getitem oxidation_states substituting_specie with
    | Raise e => Build_outcome oxidation_states [] (Raise e)
    | Ok ox_subst =>
      match getitem oxidation_states site_specie with
      | Raise e => Build_outcome oxidation_states [] (Raise e)
      | Ok ox_site =>
        let num_electrons := ox_subst - ox_site in
        Build_outcome oxidation_states
          (if verbose
           then [Msg_number_electrons (name defect_dict) num_electrons (- num_electrons)]
           else [])
          (Ok (- num_electrons))
      end
    end
  end.

Definition calc_number_neighbours (num_electrons : Z) : Z :=
  let num_neighbours :=
    if Z.abs num_electrons >? 4
    then Z.abs (8 - Z.abs num_electrons)
    else Z.abs num_electrons in
  Z.abs num_neighbours.

(** [Distortions._get_number_distorted_neighbours]: the local
    [num_electrons_charged_defect] and the value returned with the line
    printed. *)
Definition num_electrons_charged_defect (number_electrons charge : Z) : Z :=
  number_electrons + charge.

Definition _get_number_distorted_neighbours (defect_name : string)
    (number_electrons charge : Z) : list event * Z :=
  let num_nearest_neighbours :=
    calc_number_neighbours (num_electrons_charged_defect number_electrons charge) in
  ([Msg_charge_state defect_name charge num_nearest_neighbours],
   num_nearest_neighbours).

End ElectronCount.

(** ** Floats and numpy arrays *)

Module Numpy.

Definition is_nan (x : float) : bool := negb (PrimFloat.eqb x x).

(** The order [np.sort] sorts by: ascending, with NaN last. *)
Definition np_le (x y : float) : bool := PrimFloat.leb x y || is_nan y.

Fixpoint np_insert (x : float) (l : list float) : list float :=
  match l with
  | [] => [x]
  | y :: l' => if np_le x y then x :: l else y :: np_insert x l'
  end.

Definition np_sort (l : list float) : list float := fold_right np_insert [] l.

(** A key whose lexicographic order is the order of the floats that are not
    NaN; NaN has no key and sorts last. *)
Definition key (f : spec_float) : option (Z * Z * Z) :=
  match f with
  | S754_zero _ => Some (0, 0, 0)
  | S754_infinity s => Some (if s then -2 else 2, 0, 0)
  | S754_nan => None
  | S754_finite s m e =>
    Some (if s then (-1, - e, - Z.pos m) else (1, e, Z.pos m))
  end.

Definition lex_le (a b : Z * Z * Z) : Prop :=
  a.1.1 < b.1.1 \/
  (a.1.1 = b.1.1 /\ (a.1.2 < b.1.2 \/ (a.1.2 = b.1.2 /\ a.2 <= b.2))).

Definition key_le (a b : option (Z * Z * Z)) : Prop :=
  match a, b with
  | _, None => True
  | None, Some _ => False
  | Some k1, Some k2 => lex_le k1 k2
  end.

Definition ascending (x y : float) : Prop := np_le x y = true.

(** [x <= 0]: true of the zeros of a distance matrix, false of NaN. *)
Definition at_most_zero (x : float) : Prop := np_le x 0 = true.

#[export] Instance at_most_zero_dec (x : float) : Decision (at_most_zero x).
Proof. unfold at_most_zero. apply _. Defined.

(** [matrix.flatten()] in row-major order. *)
Definition flatten (matrix : list (list float)) : list float := concat matrix.

(** [a[i]] for a one-dimensional array and [0 <= i]. *)
Definition item (a : list float) (i : nat) : result float :=
  match a !! i with
  | Some x => Ok x
  | None => Raise IndexError
  end.

(** [not d_min] for an [Optional[float]]: [None] and zero are falsy. *)
Definition falsy (d_min : option float) : bool :=
  match d_min with
  | None => true
  | Some x => PrimFloat.eqb x 0
  end.

(** Truthiness of an optional integer, as in [if defect_site_index:]. *)
Definition truthy_index (i : option Z) : option Z :=
  match i with
  | Some z => if z =? 0 then None else Some z
  | None => None
  end.

(** ["attempts" in str(e)]. *)
Definition contains (needle hay : string) : bool :=
  match String.index 0 needle hay with
  | Some _ => true
  | None => false
  end.

End Numpy.

(** ** The collaborators

    [pymatgen]'s [Structure], the functions [distort] and [rattle] of
    [shakenbreak.distortions], [_get_distortion_filename] of
    [shakenbreak.analysis], and the rounding and range functions of Python
    and numpy are used by [input.py] and defined elsewhere.  They are the
    fields of a class; the functions of [input.py] are written over any
    instance.  What [distort] and [rattle] print is not recorded. *)

Inductive site_ref : Type :=
| Frac_coords (frac_coords : list float)
| Site_index (site_index : nat).

(** An element of [distorted_atoms]: an [(index, species)] tuple as [distort]
    returns it, or the two-element list JSON reads back. *)
Inductive atom : Type :=
| Atom_tuple (index : Z) (species : string)
| Atom_list (index : Z) (species : string).

Definition atom_index (a : atom) : Z :=
  match a with
  | Atom_tuple i _ => i
  | Atom_list i _ => i
  end.

Class Geometry : Type := {
  Structure : Type;
  (** [len(structure)], the number of sites *)
  len : Structure -> nat;
  (** [structure.distance_matrix] *)
  distance_matrix : Structure -> list (list float);
  (** the element symbol of every site *)
  symbols : Structure -> list string;
  (** the keyword arguments handed on to [hiphive]'s [mc_rattle] *)
  Kwargs : Type
}.

(** The dictionary [distort] returns; [defect_site_index] is present when the
    defect was given by its site index. *)
Record bond_distorted `{Geometry} : Type := {
  distorted_structure : Structure;
  undistorted_structure : Structure;
  distorted_atoms : list atom;
  defect_site_index : option Z
}.

Class Collaborators `{Geometry} : Type := {
  (** [distort(structure, num_nearest_neighbours, distortion_factor,
      site_index or frac_coords, distorted_element, verbose)] *)
  distort : Structure -> Z -> float -> site_ref -> option string -> bool ->
            result bond_distorted;
  (** [rattle(structure, stdev, d_min, active_atoms, kwargs)] *)
  rattle : Structure -> float -> float -> option (list Z) -> Kwargs ->
           result Structure;
  _get_distortion_filename : float -> string;
  (** [round(x, ndigits=3)] *)
  round3 : float -> float;
  (** [np.around(x, 3)] *)
  np_around3 : float -> float;
  (** [np.arange(start, stop, step)], which raises for a step of zero and
      for a length it cannot compute *)
  np_arange : float -> float -> float -> result (list float)
}.

(** The keyword arguments [**kwargs] carries from [Distortions(...)] down to
    [rattle]: [d_min] and [active_atoms] are parameters of the functions on
    the way and are bound there when the caller passes them; the others
    reach [mc_rattle]. *)
Record rattle_kwargs `{Geometry} : Type := {
  kw_d_min : option float;
  kw_active_atoms : option (list Z);
  kw_others : Kwargs
}.

(** ** Rattle and bond distortions of one defect *)

Module Rattle.
Import Numpy.

Section WithCollaborators.
Context `{Collaborators}.

(** A defect dictionary in the [doped] format: the keys the module reads.
    [supercell_structure] is [defect_dict["supercell"]["structure"]],
    [supercell_size] is [defect_dict["supercell"]["size"]] and
    [bulk_supercell_site] holds the [frac_coords] of that site. *)
Record DefectDict : Type := {
  species_keys : ElectronCount.DefectSpecies;
  charges : list Z;
  supercell_structure : Structure;
  supercell_size : list Z;
  bulk_supercell_site : list float;
  unique_site : list float;
  site_multiplicity : Z
}.

Definition defect_type (defect_dict : DefectDict) : string :=
  ElectronCount.defect_type (species_keys defect_dict).

Definition name (defect_dict : DefectDict) : string :=
  ElectronCount.name (species_keys defect_dict).

(** The block both [apply_rattle_bond_distortions] and
    [apply_snb_distortions] run under [if not d_min:]. *)
Definition automatic_d_min (defect_supercell : Structure)
  : list event * result float :=
  let sorted_distances := np_sort (flatten (distance_matrix defect_supercell)) in
  match item sorted_distances (len defect_supercell + 20) with
  | Raise e => ([], Raise e)
  | Ok x =>
    let d_min := (0.8 * x)%float in
    if (d_min <? 1)%float
    then ([Warn_bond_length ((1 / 0.8) * d_min)%float], Ok 2.25%float)
    else ([], Ok d_min)
  end.

Definition choose_d_min (d_min : option float) (defect_supercell : Structure)
  : list event * result float :=
  match d_min with
  | Some x => if falsy d_min then automatic_d_min defect_supercell else ([], Ok x)
  | None => automatic_d_min defect_supercell
  end.

(** The default [active_atoms]: every index of the supercell except the
    bond-distorted atoms and the defect site, shifted from VASP to Python
    indexing. *)
Definition default_active_atoms (bond_distorted_defect : bond_distorted)
    (defect_supercell : Structure) : list Z :=
  let distorted_atom_indices :=
    map (fun i => Some (atom_index i)) (distorted_atoms bond_distorted_defect)
    ++ [defect_site_index bond_distorted_defect] in
  let distorted_atom_indices :=
    omap (fun i => (fun z => z - 1) <$> i) distorted_atom_indices in
  let rattling_atom_indices := map Z.of_nat (seq 0 (len defect_supercell)) in
  filter (fun i => negb (existsb (Z.eqb i) distorted_atom_indices) = true)
         rattling_atom_indices.

Definition with_structure (b : bond_distorted) (s : Structure) : bond_distorted :=
  {| distorted_structure := s;
     undistorted_structure := undistorted_structure b;
     distorted_atoms := distorted_atoms b;
     defect_site_index := defect_site_index b |}.

(** The [try]/[except] around the call of [rattle]. *)
Definition rattle_with_retry (bond_distorted_defect : bond_distorted)
    (stdev d_min : float) (active_atoms : list Z) (kwargs : Kwargs)
  : list event * result bond_distorted :=
  let first_call := Call_rattle d_min (Some active_atoms) in
  match rattle (distorted_structure bond_distorted_defect) stdev d_min
               (Some active_atoms) kwargs with
  | Ok rattled =>
    ([first_call], Ok (with_structure bond_distorted_defect rattled))
  | Raise e =>
    if contains "attempts" (str_exn e) then
      let distorted_defect_struc := distorted_structure bond_distorted_defect in
      let sorted_distances :=
        np_sort (flatten (distance_matrix distorted_defect_struc)) in
      match item sorted_distances (len distorted_defect_struc) with
      | Raise e' => ([first_call], Raise e')
      | Ok x =>
        let reduced_d_min := (x + 2 * stdev)%float in
        let second_call := Call_rattle reduced_d_min (Some active_atoms) in
        match rattle distorted_defect_struc stdev reduced_d_min
                     (Some active_atoms) kwargs with
        | Ok rattled =>
          ([first_call; second_call; Warn_d_min_reduced d_min reduced_d_min],
           Ok (with_structure bond_distorted_defect rattled))
        | Raise e' => ([first_call; second_call], Raise e')
        end
      end
    else ([first_call], Raise e)
  end.

(** The call of [distort]: by fractional coordinates for a vacancy, by the
    index of the last site otherwise. *)
Definition distort_neighbours (defect_dict : DefectDict)
    (num_nearest_neighbours : Z) (distortion_factor : float)
    (distorted_element : option string) (verbose : bool)
  : result bond_distorted :=
  let structure := supercell_structure defect_dict in
  if (defect_type defect_dict =? "vacancy")%string
  then distort structure num_nearest_neighbours distortion_factor
               (Frac_coords (bulk_supercell_site defect_dict))
               distorted_element verbose
  else distort structure num_nearest_neighbours distortion_factor
               (Site_index (len structure)) distorted_element verbose.

Definition apply_rattle_bond_distortions (defect_dict : DefectDict)
    (num_nearest_neighbours : Z) (distortion_factor stdev : float)
    (d_min : option float) (active_atoms : option (list Z))
    (distorted_element : option string) (verbose : bool) (kwargs : Kwargs)
  : list event * result bond_distorted :=
  let structure := supercell_structure defect_dict in
  match distort_neighbours defect_dict num_nearest_neighbours
          distortion_factor distorted_element verbose with
  | Raise e => ([], Raise e)
  | Ok bond_distorted_defect =>
    match choose_d_min d_min structure with
    | (warned, Raise e) => (warned, Raise e)
    | (warned, Ok d_min) =>
      let active_atoms :=
        match active_atoms with
        | Some a => a
        | None => default_active_atoms bond_distorted_defect structure
        end in
      let '(log, r) :=
        rattle_with_retry bond_distorted_defect stdev d_min active_atoms kwargs in
      (warned ++ log, r)
    end
  end.

(** The value of the key ["distortion_parameters"]; [None] below stands for
    the empty dictionary the function starts from. *)
Record distortion_parameters : Type := {
  dp_unique_site : list float;
  num_distorted_neighbours : Z;
  dp_distorted_atoms : option (list atom);
  dp_defect_site_index : option Z
}.

Record distorted_defect : Type := {
  Unperturbed : DefectDict;
  distortions : gmap string Structure;
  parameters : option distortion_parameters
}.

(** One pass of the loop over [bond_distortions].  [active_atoms] is the
    keyword argument of that name when the caller passed one in
    [**kwargs]. *)
Definition distortion_step (defect_dict : DefectDict)
    (num_nearest_neighbours : Z) (stdev : float) (d_min : option float)
    (active_atoms : option (list Z))
    (distorted_element : option string) (verbose : bool) (kwargs : Kwargs)
    (acc : distorted_defect) (distortion : float)
  : list event * result distorted_defect :=
  let distortion := (round3 distortion + 0)%float in
  let printed := if verbose then [Msg_distortion distortion] else [] in
  let distortion_factor := (1 + distortion)%float in
  match apply_rattle_bond_distortions defect_dict num_nearest_neighbours
          distortion_factor stdev d_min active_atoms distorted_element verbose
          kwargs with
  | (log, Raise e) => (printed ++ log, Raise e)
  | (log, Ok bond_distorted_defect) =>
    (printed ++ log,
     Ok {| Unperturbed := Unperturbed acc;
           distortions :=
             <[_get_distortion_filename distortion :=
                 distorted_structure bond_distorted_defect]> (distortions acc);
           parameters :=
             Some {| dp_unique_site := bulk_supercell_site defect_dict;
                     num_distorted_neighbours := num_nearest_neighbours;
                     dp_distorted_atoms :=
                       Some (distorted_atoms bond_distorted_defect);
                     dp_defect_site_index :=
                       truthy_index (defect_site_index bond_distorted_defect) |} |})
  end.

(** The key under which the loop files the structure of a fraction. *)
Definition label (distortion : float) : string :=
  _get_distortion_filename (round3 distortion + 0)%float.

Fixpoint distortion_loop (step : distorted_defect -> float ->
                                  list event * result distorted_defect)
    (bond_distortions : list float) (acc : distorted_defect)
  : list event * result distorted_defect :=
  match bond_distortions with
  | [] => ([], Ok acc)
  | distortion :: rest =>
    match step acc distortion with
    | (log, Raise e) => (log, Raise e)
    | (log, Ok acc') =>
      let '(log', r) := distortion_loop step rest acc' in (log ++ log', r)
    end
  end.

Definition apply_snb_distortions (defect_dict : DefectDict)
    (num_nearest_neighbours : Z) (bond_distortions : list float)
    (stdev : float) (d_min : option float) (active_atoms : option (list Z))
    (distorted_element : option string) (verbose : bool) (kwargs : Kwargs)
  : list event * result distorted_defect :=
  let distorted_defect_dict :=
    {| Unperturbed := defect_dict; distortions := ∅; parameters := None |} in
  if negb (num_nearest_neighbours =? 0) then
    distortion_loop
      (distortion_step defect_dict num_nearest_neighbours stdev d_min
                       active_atoms distorted_element verbose kwargs)
      bond_distortions distorted_defect_dict
  else
    let structure := supercell_structure defect_dict in
    let defect_site_index :=
      if (defect_type defect_dict =? "vacancy")%string
      then None
      else Some (Z.of_nat (len structure)) in
    match choose_d_min d_min structure with
    | (warned, Raise e) => (warned, Raise e)
    | (warned, Ok d_min) =>
      match rattle structure stdev d_min active_atoms kwargs with
      | Raise e => (warned ++ [Call_rattle d_min active_atoms], Raise e)
      | Ok perturbed_structure =>
        (warned ++ [Call_rattle d_min active_atoms],
         Ok {| Unperturbed := defect_dict;
               distortions := <["Rattled" := perturbed_structure]> ∅;
               parameters :=
                 Some {| dp_unique_site := bulk_supercell_site defect_dict;
                         num_distorted_neighbours := num_nearest_neighbours;
                         dp_distorted_atoms := None;
                         dp_defect_site_index := truthy_index defect_site_index |} |})
      end
    end.

End WithCollaborators.
End Rattle.

(** ** Insertion-ordered dictionaries

    A Python [dict] whose iteration order matters: an association list with
    one entry per key, in insertion order. *)

Module PyDict.
Section Dict.
Context {K V : Type} `{EqDecision K}.

Fixpoint get (d : list (K * V)) (k : K) : option V :=
  match d with
  | [] => None
  | (k', v) :: d' => if decide (k = k') then Some v else get d' k
  end.

(** [k in d] *)
Definition mem (d : list (K * V)) (k : K) : bool :=
  match get d k with
  | Some _ => true
  | None => false
  end.

(** [d[k] = v]: an existing key keeps its place, a new key goes last. *)
Fixpoint set (d : list (K * V)) (k : K) (v : V) : list (K * V) :=
  match d with
  | [] => [(k, v)]
  | (k', v') :: d' =>
    if decide (k = k') then (k, v) :: d' else (k', v') :: set d' k v
  end.

Definition keys (d : list (K * V)) : list K := map fst d.

End Dict.
End PyDict.

#[global] Instance pykey_eq_dec : EqDecision pykey.
Proof. solve_decision. Defined.

(** ** The distortion metadata and its file

    The documents are those of the shape [Distortions] builds and writes:
    every key the merge reads is there, so the one [KeyError] left is the
    lookup of a charge the old metadata does not have. *)

Module Metadata.

(** [..."charges"][charge]["distortion_parameters"]]; the key
    ["rattle_stdev"] is absent from an entry the merge has rewritten. *)
Record charge_parameters : Type := {
  bond_distortions : list float;
  rattle_stdev : option float
}.

Record charge_entry : Type := {
  num_nearest_neighbours : Z;
  distorted_atoms : option (list atom);
  distortion_parameters : charge_parameters
}.

Record defect_entry : Type := {
  unique_site : list float;
  defect_site_index : option Z;
  charges : list (pykey * charge_entry)
}.

Record run_parameters : Type := {
  distortion_increment : option float;
  run_bond_distortions : list float;
  run_rattle_stdev : float
}.

Record metadata : Type := {
  parameters : run_parameters;
  defects : list (string * defect_entry)
}.

(** *** Python's [==] on the values of a charge entry *)

Fixpoint list_eq {A} (eq : A -> A -> bool) (l1 l2 : list A) : bool :=
  match l1, l2 with
  | [], [] => true
  | x :: l1', y :: l2' => eq x y && list_eq eq l1' l2'
  | _, _ => false
  end.

Definition option_eq {A} (eq : A -> A -> bool) (o1 o2 : option A) : bool :=
  match o1, o2 with
  | None, None => true
  | Some x, Some y => eq x y
  | _, _ => false
  end.

Definition atom_eq (a b : atom) : bool :=
  match a, b with
  | Atom_tuple i s, Atom_tuple j t => (i =? j) && (s =? t)%string
  | Atom_list i s, Atom_list j t => (i =? j) && (s =? t)%string
  | _, _ => false
  end.

Definition parameters_eq (a b : charge_parameters) : bool :=
  list_eq PrimFloat.eqb (bond_distortions a) (bond_distortions b)
  && option_eq PrimFloat.eqb (rattle_stdev a) (rattle_stdev b).

Definition entry_eq (a b : charge_entry) : bool :=
  (num_nearest_neighbours a =? num_nearest_neighbours b)
  && option_eq (list_eq atom_eq) (distorted_atoms a) (distorted_atoms b)
  && parameters_eq (distortion_parameters a) (distortion_parameters b).

(** [str(charge)], the text of the [KeyError]. *)
Definition str_key (k : pykey) : string :=
  match k with
  | KInt z => pretty z
  | KStr s => s
  end.

(** *** Combining the old and the new metadata

    The new metadata is mutated in place: each loop returns the dictionary
    as the loop left it, with the [KeyError] that ended it if one did. *)

Definition combined_parameters (new_entry old_entry : charge_entry)
  : charge_entry :=
  {| num_nearest_neighbours := num_nearest_neighbours new_entry;
     distorted_atoms := distorted_atoms new_entry;
     distortion_parameters :=
       {| bond_distortions :=
            bond_distortions (distortion_parameters new_entry)
            ++ bond_distortions (distortion_parameters old_entry);
          rattle_stdev := None |} |}.

(** [for charge in new_metadata["defects"][defect]["charges"]:] *)
Fixpoint combine_charges (filepath defect : string)
    (old_charges : list (pykey * charge_entry)) (todo : list pykey)
    (new_charges : list (pykey * charge_entry))
  : list event * list (pykey * charge_entry) * option exn :=
  match todo with
  | [] => ([], new_charges, None)
  | charge :: rest =>
    if PyDict.mem old_charges charge then
      match PyDict.get new_charges charge, PyDict.get old_charges charge with
      | Some new_entry, Some old_entry =>
        if entry_eq new_entry old_entry then
          combine_charges filepath defect old_charges rest
            (PyDict.set new_charges charge
               (combined_parameters new_entry old_entry))
        else
          let '(log, d, e) :=
            combine_charges filepath defect old_charges rest new_charges in
          (Warn_metadata_conflict defect charge filepath :: log, d, e)
      | _, _ => ([], new_charges, Some (KeyError (str_key charge)))
      end
    else
      (* new_metadata[...][charge] = old_metadata[...][charge]: the charge
         is not in the old metadata, the right-hand side raises *)
      match PyDict.get old_charges charge with
      | Some old_entry =>
        combine_charges filepath defect old_charges rest
          (PyDict.set new_charges charge old_entry)
      | None => ([], new_charges, Some (KeyError (str_key charge)))
      end
  end.

Definition with_charges (d : defect_entry)
    (c : list (pykey * charge_entry)) : defect_entry :=
  {| unique_site := unique_site d;
     defect_site_index := defect_site_index d;
     charges := c |}.

(** [for defect in old_metadata["defects"]:] *)
Fixpoint combine_defects (filepath : string)
    (old_defects : list (string * defect_entry)) (todo : list string)
    (new_defects : list (string * defect_entry))
  : list event * list (string * defect_entry) * option exn :=
  match todo with
  | [] => ([], new_defects, None)
  | defect :: rest =>
    match PyDict.get old_defects defect with
    | None => ([], new_defects, Some (KeyError defect))
    | Some old_entry =>
      match PyDict.get new_defects defect with
      | Some new_entry =>
        let '(log, new_charges, e) :=
          combine_charges filepath defect (charges old_entry)
            (PyDict.keys (charges new_entry)) (charges new_entry) in
        let new_defects :=
          PyDict.set new_defects defect (with_charges new_entry new_charges) in
        match e with
        | Some e => (log, new_defects, Some e)
        | None =>
          let '(log', d, e') :=
            combine_defects filepath old_defects rest new_defects in
          (log ++ log', d, e')
        end
      | None =>
        combine_defects filepath old_defects rest
          (PyDict.set new_defects defect old_entry)
      end
    end
  end.

Definition with_defects (m : metadata) (d : list (string * defect_entry))
  : metadata :=
  {| parameters := parameters m; defects := d |}.

(** The body of the [try]: the new metadata after it, and the warning of the
    [except KeyError] clause if the body raised. *)
Definition combine (filepath : string) (old_metadata new_metadata : metadata)
  : list event * metadata :=
  let '(log, new_defects, e) :=
    combine_defects filepath (defects old_metadata)
      (PyDict.keys (defects old_metadata)) (defects new_metadata) in
  (log ++ match e with
          | Some _ => [Warn_metadata_problem filepath]
          | None => []
          end,
   with_defects new_metadata new_defects).

(** *** The file

    A JSON file holds a metadata document as [json.load] reads it back:
    every charge is a [str] key and every tuple is a list. *)

Definition json_atom (a : atom) : atom :=
  match a with
  | Atom_tuple i s => Atom_list i s
  | Atom_list i s => Atom_list i s
  end.

Definition json_entry (e : charge_entry) : charge_entry :=
  {| num_nearest_neighbours := num_nearest_neighbours e;
     distorted_atoms := map json_atom <$> distorted_atoms e;
     distortion_parameters := distortion_parameters e |}.

Definition json_charges (c : list (pykey * charge_entry))
  : list (pykey * charge_entry) :=
  fold_left (fun d kv => PyDict.set d (KStr (str_key kv.1)) (json_entry kv.2))
            c [].

(** [json.load] of what [json.dumps] wrote. *)
Definition json (m : metadata) : metadata :=
  with_defects m
    (map (fun kv => (kv.1, with_charges kv.2 (json_charges (charges kv.2))))
         (defects m)).

(** [os.path.join(output_path, filename)] for a relative [filename]. *)
Definition path_join (output_path filename : string) : string :=
  output_path +:+ "/" +:+ filename.

Record written : Type := {
  files : gmap string metadata;
  new_metadata_after : metadata;
  emitted : list event
}.

(** [current_datetime] is [datetime.datetime.now()] formatted. *)
Definition _write_distortion_metadata (files : gmap string metadata)
    (current_datetime : string) (new_metadata : metadata)
    (filename output_path : string) : written :=
  let filepath := path_join output_path filename in
  match files !! filepath with
  | Some old_metadata =>
    let renamed :=
      path_join output_path
        ("distortion_metadata" +:+ "_" +:+ current_datetime +:+ ".json") in
    let files := <[renamed := old_metadata]> (delete filepath files) in
    let '(log, new_metadata) := combine filepath old_metadata new_metadata in
    {| files := <[filepath := json new_metadata]> files;
       new_metadata_after := new_metadata;
       emitted := Msg_previous_version filename current_datetime
                  :: Msg_combining filename :: log |}
  | None =>
    {| files := <[filepath := json new_metadata]> files;
       new_metadata_after := new_metadata;
       emitted := [] |}
  end.

End Metadata.

(** ** The class [Distortions] *)

Module Distortions.
Import Numpy.

Section WithCollaborators.
Context `{Collaborators}.

(** The attributes of an instance.  [oxidation_states] and
    [distortion_metadata] are the objects the methods mutate. *)
Record Distortions : Type := {
  defects_dict : list (string * list Rattle.DefectDict);
  oxidation_states : gmap string Z;
  distorted_elements : option (gmap string string);
  dict_number_electrons_user : option (gmap string Z);
  stdev : float;
  distortion_increment : option float;
  bond_distortions : list float;
  _mc_rattle_kwargs : rattle_kwargs;
  distortion_metadata : Metadata.metadata
}.

(** The arguments of a call [Distortions(...)]; an argument the caller
    leaves out is [None].  [defects_dict] and [oxidation_states] have no
    default value in the signature. *)
Record arguments : Type := {
  arg_defects_dict : option (list (string * list Rattle.DefectDict));
  arg_oxidation_states : option (gmap string Z);
  arg_dict_number_electrons_user : option (gmap string Z);
  arg_distortion_increment : option float;
  arg_bond_distortions : option (list float);
  arg_stdev : option float;
  arg_distorted_elements : option (gmap string string);
  arg_kwargs : rattle_kwargs
}.

(** The default set of bond distortions of [__init__]; [np.arange] is
    called for each of the two halves, and an exception it raises ends
    [__init__]. *)
Definition default_bond_distortions (distortion_increment : float)
  : result (list float) :=
  bind (np_arange 0 0.601 distortion_increment) (fun flipped =>
  bind (np_arange 0 0.601 distortion_increment) (fun mesh =>
  Ok (removelast (map (fun x => (x * -1)%float) (rev (map np_around3 flipped)))
      ++ map np_around3 mesh))).

Definition __init__ (args : arguments) : list event * result Distortions :=
  match arg_defects_dict args, arg_oxidation_states args with
  | Some defects_dict, Some oxidation_states =>
    let stdev := default 0.25%float (arg_stdev args) in
    let user_distortions := default [] (arg_bond_distortions args) in
    let '(increment, chosen) :=
      match user_distortions with
      | _ :: _ => (None, Ok (map np_around3 user_distortions))
      | [] =>
        let distortion_increment :=
          default 0.1%float (arg_distortion_increment args) in
        (Some distortion_increment,
         default_bond_distortions distortion_increment)
      end in
    match chosen with
    | Raise e => ([], Raise e)
    | Ok bond_distortions =>
      ([],
       Ok {| defects_dict := defects_dict;
             oxidation_states := oxidation_states;
             distorted_elements := arg_distorted_elements args;
             dict_number_electrons_user := arg_dict_number_electrons_user args;
             stdev := stdev;
             distortion_increment := increment;
             bond_distortions := bond_distortions;
             _mc_rattle_kwargs := arg_kwargs args;
             distortion_metadata :=
               {| Metadata.parameters :=
                    {| Metadata.distortion_increment := increment;
                       Metadata.run_bond_distortions := bond_distortions;
                       Metadata.run_rattle_stdev := stdev |};
                  Metadata.defects := [] |} |})
    end
  | _, _ =>
    ([], Raise (TypeError "__init__() missing a required positional argument"))
  end.

(** [if d:] for an optional dictionary: [None] and [{}] are falsy. *)
Definition truthy_dict {V} (d : option (gmap string V)) : option (gmap string V) :=
  match d with
  | Some m => if (size m =? 0)%nat then None else Some m
  | None => None
  end.

(** In the [except KeyError] clause [warnings.warn] is given a second
    string where it takes a warning category, and raises [TypeError]. *)
Definition _parse_distorted_element (defect_name : string)
    (distorted_elements : option (gmap string string)) : result (option string) :=
  match truthy_dict distorted_elements with
  | Some d =>
    match d !! defect_name with
    | Some distorted_element => Ok (Some distorted_element)
    | None => Raise (TypeError "category must be a Warning subclass, not 'str'")
    end
  | None => Ok None
  end.

Definition _parse_number_electrons (defect_name : string)
    (oxidation_states : gmap string Z)
    (dict_number_electrons_user : option (gmap string Z))
    (defect : Rattle.DefectDict)
  : gmap string Z * list event * result Z :=
  let '(oxidation_states, number_electrons) :=
    match truthy_dict dict_number_electrons_user with
    | Some user => (oxidation_states, ElectronCount.getitem user defect_name)
    | None =>
      let o := ElectronCount.calc_number_electrons
                 (Rattle.species_keys defect) oxidation_states false in
      (ElectronCount.oxidation_states_after o, ElectronCount.returned o)
    end in
  match number_electrons with
  | Raise e => (oxidation_states, [], Raise e)
  | Ok number_electrons =>
    (oxidation_states,
     [Msg_defect defect_name;
      if number_electrons <? 0
      then Msg_extra_electrons number_electrons
      else Msg_missing_electrons number_electrons],
     Ok number_electrons)
  end.

(** [distortion_metadata["defects"][defect_name]] is updated in place; the
    entry is there since [apply_distortions] has just written it. *)
Definition _update_distortion_metadata (self : Distortions)
    (distortion_metadata : Metadata.metadata) (defect_name : string)
    (charge : Z) (defect_site_index : option Z) (num_nearest_neighbours : Z)
    (distorted_atoms : option (list atom)) : result Metadata.metadata :=
  match PyDict.get (Metadata.defects distortion_metadata) defect_name with
  | None => Raise (KeyError defect_name)
  | Some entry =>
    let site_index :=
      match truthy_index defect_site_index with
      | Some i => Some i
      | None => Metadata.defect_site_index entry
      end in
    let charges :=
      PyDict.set (Metadata.charges entry) (KInt charge)
        {| Metadata.num_nearest_neighbours := num_nearest_neighbours;
           Metadata.distorted_atoms := distorted_atoms;
           Metadata.distortion_parameters :=
             {| Metadata.bond_distortions := bond_distortions self;
                Metadata.rattle_stdev := Some (stdev self) |} |} in
    Ok (Metadata.with_defects distortion_metadata
          (PyDict.set (Metadata.defects distortion_metadata) defect_name
             {| Metadata.unique_site := Metadata.unique_site entry;
                Metadata.defect_site_index := site_index;
                Metadata.charges := charges |}))
  end.

(** The value of [...["charges"][charge]["structures"]]. *)
Record structures : Type := {
  Unperturbed : Structure;
  distortions : gmap string Structure
}.

(** An entry of [distorted_defects_dict]; a charge maps to [None] while its
    dictionary is still empty. *)
Record distorted_defect_entry : Type := {
  entry_defect_type : string;
  defect_site : list float;
  defect_supercell_site : list float;
  defect_multiplicity : Z;
  supercell : list Z;
  charges : gmap Z (option structures);
  entry_substitution_specie : option string
}.

Definition _setup_distorted_defect_dict (defect_name : string)
    (defect : Rattle.DefectDict)
    (distorted_defects_dict : gmap string distorted_defect_entry)
  : gmap string distorted_defect_entry :=
  <[defect_name :=
      {| entry_defect_type := Rattle.name defect;
         defect_site := Rattle.unique_site defect;
         defect_supercell_site := Rattle.bulk_supercell_site defect;
         defect_multiplicity := Rattle.site_multiplicity defect;
         supercell := Rattle.supercell_size defect;
         charges :=
           list_to_map (map (fun charge => (charge, None)) (Rattle.charges defect));
         entry_substitution_specie :=
           ElectronCount.substitution_specie (Rattle.species_keys defect) |}]>
    distorted_defects_dict.

(** What [apply_distortions] has built so far: the instance, the dictionary
    of structures and the lines printed. *)
Record sweep : Type := {
  self : Distortions;
  distorted_defects_dict : gmap string distorted_defect_entry;
  printed : list event
}.

Definition with_oxidation_states (d : Distortions) (o : gmap string Z)
  : Distortions :=
  {| defects_dict := defects_dict d;
     oxidation_states := o;
     distorted_elements := distorted_elements d;
     dict_number_electrons_user := dict_number_electrons_user d;
     stdev := stdev d;
     distortion_increment := distortion_increment d;
     bond_distortions := bond_distortions d;
     _mc_rattle_kwargs := _mc_rattle_kwargs d;
     distortion_metadata := distortion_metadata d |}.

Definition with_metadata (d : Distortions) (m : Metadata.metadata)
  : Distortions :=
  {| defects_dict := defects_dict d;
     oxidation_states := oxidation_states d;
     distorted_elements := distorted_elements d;
     dict_number_electrons_user := dict_number_electrons_user d;
     stdev := stdev d;
     distortion_increment := distortion_increment d;
     bond_distortions := bond_distortions d;
     _mc_rattle_kwargs := _mc_rattle_kwargs d;
     distortion_metadata := m |}.

Definition say (s : sweep) (log : list event) : sweep :=
  {| self := self s;
     distorted_defects_dict := distorted_defects_dict s;
     printed := printed s ++ log |}.

(** [d[defect_name]["charges"][charge]["structures"] = structures] *)
Definition set_structures (defect_name : string) (charge : Z) (st : structures)
    (d : gmap string distorted_defect_entry)
  : result (gmap string distorted_defect_entry) :=
  match d !! defect_name with
  | None => Raise (KeyError defect_name)
  | Some entry =>
    match charges entry !! charge with
    | None => Raise (KeyError (pretty charge))
    | Some _ =>
      Ok (<[defect_name :=
              {| entry_defect_type := entry_defect_type entry;
                 defect_site := defect_site entry;
                 defect_supercell_site := defect_supercell_site entry;
                 defect_multiplicity := defect_multiplicity entry;
                 supercell := supercell entry;
                 charges := <[charge := Some st]> (charges entry);
                 entry_substitution_specie := entry_substitution_specie entry |}]> d)
    end
  end.

(** The body of [for charge in defect["charges"]:]. *)
Definition charge_step (verbose : bool) (defect : Rattle.DefectDict)
    (defect_name : string) (distorted_element : option string)
    (number_electrons : Z) (s : sweep) (charge : Z) : sweep * option exn :=
  let '(line, num_nearest_neighbours) :=
    ElectronCount._get_number_distorted_neighbours
      defect_name number_electrons charge in
  let s := say s line in
  match Rattle.apply_snb_distortions defect num_nearest_neighbours
          (bond_distortions (self s)) (stdev (self s))
          (kw_d_min (_mc_rattle_kwargs (self s)))
          (kw_active_atoms (_mc_rattle_kwargs (self s))) distorted_element
          verbose (kw_others (_mc_rattle_kwargs (self s))) with
  | (log, Raise e) => (say s log, Some e)
  | (log, Ok defect_distorted_structures) =>
    let s := say s log in
    match set_structures defect_name charge
            {| Unperturbed :=
                 Rattle.supercell_structure
                   (Rattle.Unperturbed defect_distorted_structures);
               distortions := Rattle.distortions defect_distorted_structures |}
            (distorted_defects_dict s) with
    | Raise e => (s, Some e)
    | Ok distorted_defects_dict =>
      let s := {| self := self s;
                  distorted_defects_dict := distorted_defects_dict;
                  printed := printed s |} in
      match Rattle.parameters defect_distorted_structures with
      | None => (s, Some (KeyError "distorted_atoms"))
      | Some distortion_parameters =>
        match _update_distortion_metadata (self s)
                (distortion_metadata (self s)) defect_name charge
                (Rattle.dp_defect_site_index distortion_parameters)
                num_nearest_neighbours
                (Rattle.dp_distorted_atoms distortion_parameters) with
        | Raise e => (s, Some e)
        | Ok m =>
          ({| self := with_metadata (self s) m;
              distorted_defects_dict := distorted_defects_dict;
              printed := printed s |}, None)
        end
      end
    end
  end.

(** A [for] loop that an exception ends. *)
Fixpoint for_each {A S} (body : S -> A -> S * option exn) (l : list A) (s : S)
  : S * option exn :=
  match l with
  | [] => (s, None)
  | x :: rest =>
    match body s x with
    | (s', Some e) => (s', Some e)
    | (s', None) => for_each body rest s'
    end
  end.

(** The body of [for defect in comb_defs:]. *)
Definition defect_step (verbose : bool) (s : sweep) (defect : Rattle.DefectDict)
  : sweep * option exn :=
  let defect_name := Rattle.name defect in
  match _parse_distorted_element defect_name (distorted_elements (self s)) with
  | Raise e => (s, Some e)
  | Ok distorted_element =>
    match _parse_number_electrons defect_name (oxidation_states (self s))
            (dict_number_electrons_user (self s)) defect with
    | (o, log, Raise e) =>
      ({| self := with_oxidation_states (self s) o;
          distorted_defects_dict := distorted_defects_dict s;
          printed := printed s ++ log |}, Some e)
    | (o, log, Ok number_electrons) =>
      let this := with_oxidation_states (self s) o in
      let m := distortion_metadata this in
      let this :=
        with_metadata this
          (Metadata.with_defects m
             (PyDict.set (Metadata.defects m) defect_name
                {| Metadata.unique_site := Rattle.bulk_supercell_site defect;
                   Metadata.defect_site_index := None;
                   Metadata.charges := [] |})) in
      for_each
        (charge_step verbose defect defect_name distorted_element number_electrons)
        (Rattle.charges defect)
        {| self := this;
           distorted_defects_dict :=
             _setup_distorted_defect_dict defect_name defect
               (distorted_defects_dict s);
           printed := printed s ++ log |}
    end
  end.

(** [functools.reduce(lambda x, y: x + y, [...])] raises [TypeError] on an
    empty list. *)
Definition comb_defs (defects_dict : list (string * list Rattle.DefectDict))
  : result (list Rattle.DefectDict) :=
  match filter (fun kv => negb (kv.1 =? "bulk")%string = true) defects_dict with
  | [] => Raise (TypeError "reduce() of empty iterable with no initial value")
  | kept => Ok (concat (map snd kept))
  end.

Definition apply_distortions (this : Distortions) (verbose : bool)
  : sweep * result (gmap string distorted_defect_entry * Metadata.metadata) :=
  let s := {| self := this;
              distorted_defects_dict := ∅;
              printed := [Msg_distortion_info (bond_distortions this) (stdev this)] |} in
  match comb_defs (defects_dict this) with
  | Raise e => (s, Raise e)
  | Ok defects =>
    match for_each (defect_step verbose) defects s with
    | (s, Some e) => (s, Raise e)
    | (s, None) =>
      (s, Ok (distorted_defects_dict s, distortion_metadata (self s)))
    end
  end.

(** [Distortions.write_distortion_metadata]; [files] is the directory tree
    and [current_datetime] the time of the call. *)
Definition write_distortion_metadata (this : Distortions)
    (files : gmap string Metadata.metadata) (current_datetime output_path : string)
  : Metadata.written :=
  Metadata._write_distortion_metadata files current_datetime
    (distortion_metadata this) "distortion_metadata.json" output_path.

End WithCollaborators.
End Distortions.

(** ** A chain of atoms

    An instance of the collaborators, small enough to run the functions of
    [input.py] on: a structure is a row of atoms on a line, without
    periodic images, each with its element symbol and its position in
    Angstrom. *)

Module Chain.

Definition chain : Type := list (string * float).

Definition chain_distance_matrix (s : chain) : list (list float) :=
  map (fun a => map (fun b => PrimFloat.abs (a.2 - b.2)%float) s) s.

#[export] Instance chain_geometry : Geometry := {|
  Structure := chain;
  len := length;
  distance_matrix := chain_distance_matrix;
  symbols := map fst;
  Kwargs := unit
|}.

(** The integer a finite float holds, truncated towards zero. *)
Definition float_to_Z (x : float) : Z :=
  match Prim2SF x with
  | S754_finite s m e =>
    let v := if 0 <=? e then Z.pos m * 2 ^ e else Z.pos m / 2 ^ (- e) in
    if s then - v else v
  | _ => 0
  end.

Definition float_of_nat (n : nat) : float :=
  PrimFloat.of_uint63 (Uint63.of_Z (Z.of_nat n)).

Definition float_of_Z (n : Z) : float :=
  PrimFloat.of_uint63 (Uint63.of_Z n).

(** Round to the nearest integer, ties to even, with the sign of [x]: below
    [2^52] the sum with [2^52] is rounded to an integer, and from [2^52] on
    every float is one. *)
Definition rint (x : float) : float :=
  if (PrimFloat.abs x <? 4503599627370496)%float then
    let r := (PrimFloat.abs x + 4503599627370496 - 4503599627370496)%float in
    if get_sign x then (- r)%float else r
  else x.

(** Modelled from the spec: numpy's [around(x, 3)] is not part of
    [input.py]; [x] is scaled by 1000, rounded to the nearest integer and
    scaled back. *)
Definition chain_around3 (x : float) : float := (rint (x * 1000) / 1000)%float.

(** Modelled from the spec: Python's [round(x, 3)] is not part of
    [input.py].  The exact value [m * 2^e] of [x] is rounded to a multiple
    [n / 1000] of a thousandth, a tie to the even [n], and the result is the
    float nearest to [n / 1000]; that float is [x] itself when [x] is an
    integer, and when the floats around [x] are more than a thousandth
    apart. *)
Definition chain_round3 (x : float) : float :=
  match Prim2SF x with
  | S754_finite s m e =>
    if 0 <=? e then x
    else
      let scaled := Z.pos m * 1000 in
      let unit := 2 ^ (- e) in
      let q := scaled / unit in
      let r := scaled mod unit in
      let n := if 2 * r <? unit then q
               else if unit <? 2 * r then q + 1
               else if Z.even q then q else q + 1 in
      if n <? 2 ^ 53 then
        let y := (float_of_Z n / 1000)%float in
        if s then (- y)%float else y
      else x
  | _ => x
  end.

(** The smallest integer that is not below a finite float. *)
Definition ceil_Z (x : float) : Z :=
  match Prim2SF x with
  | S754_finite s m e =>
    if 0 <=? e then (if s then - (Z.pos m * 2 ^ e) else Z.pos m * 2 ^ e)
    else if s then - (Z.pos m / 2 ^ (- e))
    else - (- Z.pos m / 2 ^ (- e))
  | _ => 0
  end.

(** Modelled from the spec: [np.arange(start, stop, step)] is not part of
    [input.py].  For Python floats numpy takes the ceiling of
    [(stop - start) / step] as the length: the division raises
    [ZeroDivisionError] for a step of zero, a quotient that is not a number
    raises [ValueError], and one beyond the largest index raises
    [OverflowError]; a length that is not positive gives the empty array.
    The entries are [start], [start + step], and [start + i * delta] from
    the third on, with [delta] the difference of the first two.  Memory is
    no limit here. *)
Definition chain_arange (start stop step : float) : result (list float) :=
  if (step =? 0)%float then Raise (ZeroDivisionError "float division by zero")
  else
    let quotient := ((stop - start) / step)%float in
    if is_nan quotient then Raise (ValueError "arange: cannot compute length")
    else if is_infinity quotient
              || (9223372036854775808 <? ceil_Z quotient)
              || (ceil_Z quotient <? -9223372036854775808)
    then Raise (OverflowError "arange: overflow while computing length")
    else
      let next := (start + step)%float in
      let delta := (next - start)%float in
      Ok (map (fun i =>
                 match i with
                 | O => start
                 | 1%nat => next
                 | _ => (start + float_of_nat i * delta)%float
                 end)
              (seq 0 (Z.to_nat (ceil_Z quotient)))).

(** Modelled from the spec: [_get_distortion_filename] of
    [shakenbreak.analysis] is missing from [src/].  The label is
    ["Bond_Distortion_<signed-percentage>%"] with one decimal, and zero is
    never written with a minus sign. *)
Definition chain_distortion_filename (distortion : float) : string :=
  let per_mille := float_to_Z (rint (distortion * 1000)) in
  "Bond_Distortion_"
  +:+ (if per_mille <? 0 then "-" else "")
  +:+ pretty (Z.abs per_mille / 10) +:+ "." +:+ pretty (Z.abs per_mille mod 10)
  +:+ "%".

(** A candidate neighbour: its distance to the defect, its index counted
    from one, its symbol and its position. *)
Definition candidate : Type := float * nat * string * float.

Fixpoint insert_candidate (c : candidate) (l : list candidate) : list candidate :=
  match l with
  | [] => [c]
  | c' :: l' =>
    if (c.1.1.1 <=? c'.1.1.1)%float then c :: l else c' :: insert_candidate c l'
  end.

Definition move (reference factor : float) (chosen : list nat) (s : chain) : chain :=
  imap (fun i a =>
          if existsb (Nat.eqb (S i)) chosen
          then (a.1, (reference + (a.2 - reference) * factor)%float)
          else a) s.

(** Modelled from the spec: [distort] of [shakenbreak.distortions] is
    missing from [src/].  Section 4.2: the distances from the reference to
    every other site, the element filter (an invalid-input error when it
    leaves no candidate and [k > 0]), candidates sorted by distance and then
    by index, the first [k] moved to
    [reference + (position - reference) * f]; the atoms moved are listed
    with indices counted from one, and the site index is returned when the
    defect was given by one. *)
Definition chain_distort (structure : chain) (num_nearest_neighbours : Z)
    (distortion_factor : float) (site : site_ref)
    (distorted_element : option string) (verbose : bool)
  : result bond_distorted :=
  let located :=
    match site with
    | Frac_coords (x :: _) => Ok (x, None)
    | Frac_coords [] => Raise (ValueError "no reference position")
    | Site_index i =>
      match structure !! pred i with
      | Some a => Ok (a.2, Some i)
      | None => Raise IndexError
      end
    end in
  match located with
  | Raise e => Raise e
  | Ok (reference, site_index) =>
    let candidates :=
      omap (fun c : candidate =>
              if bool_decide (Some c.1.1.2 = site_index) then None
              else match distorted_element with
                   | Some el => if (c.1.2 =? el)%string then Some c else None
                   | None => Some c
                   end)
           (imap (fun i a => (PrimFloat.abs (a.2 - reference)%float, S i, a.1, a.2))
                 structure) in
    match candidates, distorted_element with
    | [], Some el =>
      if 0 <? num_nearest_neighbours
      then Raise (ValueError ("No atoms of element " +:+ el))
      else Ok {| distorted_structure := structure;
                 undistorted_structure := structure;
                 distorted_atoms := [];
                 defect_site_index := Z.of_nat <$> site_index |}
    | _, _ =>
      let nearest :=
        take (Z.to_nat num_nearest_neighbours)
             (fold_right insert_candidate [] candidates) in
      Ok {| distorted_structure :=
              move reference distortion_factor (map (fun c => c.1.1.2) nearest)
                   structure;
            undistorted_structure := structure;
            distorted_atoms :=
              map (fun c : candidate => Atom_tuple (Z.of_nat c.1.1.2) c.1.2) nearest;
            defect_site_index := Z.of_nat <$> site_index |}
    end
  end.

(** Does atom [i] keep every other atom at [d_min] or further? *)
Definition clear_of_others (s : chain) (d_min : float) (i : nat) : bool :=
  match chain_distance_matrix s !! i with
  | Some row =>
    forallb (fun jd => Nat.eqb jd.1 i || negb (jd.2 <? d_min)%float)
            (imap (fun j d => (j, d)) row)
  | None => true
  end.

(** Modelled from the spec: [rattle] of [shakenbreak.distortions] is
    missing from [src/].  Section 4.3 draws a Gaussian displacement for
    every active atom and gives up after a bounded number of attempts when
    no placement keeps [d_min].  This stand-in draws the displacement zero
    for every atom: it returns the structure as it is when every active
    atom keeps [d_min] to the others, fails with the attempts error when one
    does not, and rejects a negative [stdev] with the [ValueError] of the
    random number generator. *)
Definition chain_rattle (structure : chain) (stdev d_min : float)
    (active_atoms : option (list Z)) (kwargs : unit) : result chain :=
  if (stdev <? 0)%float then Raise (ValueError "scale < 0")
  else
    let active :=
      match active_atoms with
      | Some a => map Z.to_nat a
      | None => seq 0 (length structure)
      end in
    if forallb (clear_of_others structure d_min) active
    then Ok structure
    else Raise (Exception "Exceeded the maximum number of attempts for atom").

#[export] Instance chain_collaborators : Collaborators := {|
  distort := chain_distort;
  rattle := chain_rattle;
  _get_distortion_filename := chain_distortion_filename;
  round3 := chain_round3;
  np_around3 := chain_around3;
  np_arange := chain_arange
|}.

(** Cadmium telluride along a line, 2 Angstrom between neighbours, without
    the site of index [missing]: site 7, the cadmium at position [14], for
    the cadmium vacancy. *)
Definition cdte (missing : nat) : chain :=
  omap (fun i => if Nat.eqb i missing then None
                 else Some (if Nat.even i then "Te" else "Cd",
                            float_of_nat (2 * i)))
       (seq 0 14).

Definition vac_1_Cd : Rattle.DefectDict := {|
  Rattle.species_keys :=
    {| ElectronCount.name := "vac_1_Cd";
       ElectronCount.defect_type := "vacancy";
       ElectronCount.site_specie := "Cd";
       ElectronCount.substituting_specie := None;
       ElectronCount.substitution_specie := None |};
  Rattle.charges := [0; -1; -2];
  Rattle.supercell_structure := cdte 7;
  Rattle.supercell_size := [1; 1; 1];
  Rattle.bulk_supercell_site := [14%float];
  Rattle.unique_site := [14%float];
  Rattle.site_multiplicity := 1
|}.

Definition CdTe_oxidation_states : gmap string Z :=
  <["Cd" := 2]> (<["Te" := -2]> ∅).

(** The full row with a cadmium interstitial at position [13], the last
    site of the structure. *)
Definition Int_Cd_1 : Rattle.DefectDict := {|
  Rattle.species_keys :=
    {| ElectronCount.name := "Int_Cd_1";
       ElectronCount.defect_type := "interstitial";
       ElectronCount.site_specie := "Cd";
       ElectronCount.substituting_specie := None;
       ElectronCount.substitution_specie := None |};
  Rattle.charges := [0; 1; 2];
  Rattle.supercell_structure := cdte 14 ++ [("Cd", 13%float)];
  Rattle.supercell_size := [1; 1; 1];
  Rattle.bulk_supercell_site := [13%float];
  Rattle.unique_site := [13%float];
  Rattle.site_multiplicity := 1
|}.

(** The vacancy in charge state 0 only. *)
Definition neutral_vacancy : Rattle.DefectDict := {|
  Rattle.species_keys := Rattle.species_keys vac_1_Cd;
  Rattle.charges := [0];
  Rattle.supercell_structure := Rattle.supercell_structure vac_1_Cd;
  Rattle.supercell_size := Rattle.supercell_size vac_1_Cd;
  Rattle.bulk_supercell_site := Rattle.bulk_supercell_site vac_1_Cd;
  Rattle.unique_site := Rattle.unique_site vac_1_Cd;
  Rattle.site_multiplicity := Rattle.site_multiplicity vac_1_Cd
|}.

(** The call [Distortions({"vacancies": [neutral_vacancy]},
    oxidation_states, bond_distortions=[-0.8, -0.3])]. *)
Definition short_bonds : Distortions.arguments := {|
  Distortions.arg_defects_dict := Some [("vacancies", [neutral_vacancy])];
  Distortions.arg_oxidation_states := Some CdTe_oxidation_states;
  Distortions.arg_dict_number_electrons_user := None;
  Distortions.arg_distortion_increment := None;
  Distortions.arg_bond_distortions := Some [(-0.8)%float; (-0.3)%float];
  Distortions.arg_stdev := None;
  Distortions.arg_distorted_elements := None;
  Distortions.arg_kwargs :=
    {| kw_d_min := None; kw_active_atoms := None; kw_others := tt |}
|}.

(** The instance that call constructs. *)
Definition short_bonds_sweep : Distortions.Distortions := {|
  Distortions.defects_dict := [("vacancies", [neutral_vacancy])];
  Distortions.oxidation_states := CdTe_oxidation_states;
  Distortions.distorted_elements := None;
  Distortions.dict_number_electrons_user := None;
  Distortions.stdev := 0.25;
  Distortions.distortion_increment := None;
  Distortions.bond_distortions := [(-0.8)%float; (-0.3)%float];
  Distortions._mc_rattle_kwargs :=
    {| kw_d_min := None; kw_active_atoms := None; kw_others := tt |};
  Distortions.distortion_metadata :=
    {| Metadata.parameters :=
         {| Metadata.distortion_increment := None;
            Metadata.run_bond_distortions := [(-0.8)%float; (-0.3)%float];
            Metadata.run_rattle_stdev := 0.25 |};
       Metadata.defects := [] |}
|}.

(** An instance for the vacancy in its three charge states, with two
    compressive distortions. *)
Definition three_charges : Distortions.Distortions := {|
  Distortions.defects_dict := [("vacancies", [vac_1_Cd])];
  Distortions.oxidation_states := CdTe_oxidation_states;
  Distortions.distorted_elements := None;
  Distortions.dict_number_electrons_user := None;
  Distortions.stdev := 0.25;
  Distortions.distortion_increment := None;
  Distortions.bond_distortions := [(-0.5)%float; (-0.3)%float];
  Distortions._mc_rattle_kwargs :=
    {| kw_d_min := None; kw_active_atoms := None; kw_others := tt |};
  Distortions.distortion_metadata :=
    {| Metadata.parameters :=
         {| Metadata.distortion_increment := None;
            Metadata.run_bond_distortions := [(-0.5)%float; (-0.3)%float];
            Metadata.run_rattle_stdev := 0.25 |};
       Metadata.defects := [] |}
|}.

(** The labels filed for every charge state of a defect. *)
Definition labels_by_charge
    (returned : gmap string Distortions.distorted_defect_entry)
    (defect_name : string) : list (Z * list string) :=
  match returned !! defect_name with
  | Some entry =>
    map (fun kc => (kc.1, match kc.2 with
                          | Some st => map fst (map_to_list (Distortions.distortions st))
                          | None => []
                          end))
        (map_to_list (Distortions.charges entry))
  | None => []
  end.

(** The same call without the oxidation states. *)
Definition no_oxidation_states : Distortions.arguments := {|
  Distortions.arg_defects_dict := Some [("vacancies", [neutral_vacancy])];
  Distortions.arg_oxidation_states := None;
  Distortions.arg_dict_number_electrons_user := None;
  Distortions.arg_distortion_increment := None;
  Distortions.arg_bond_distortions := None;
  Distortions.arg_stdev := None;
  Distortions.arg_distorted_elements := None;
  Distortions.arg_kwargs :=
    {| kw_d_min := None; kw_active_atoms := None; kw_others := tt |}
|}.

End Chain.

(** ** Two runs on one metadata file *)

Module Runs.
Import Metadata.

Definition finer_mesh : charge_parameters :=
  {| bond_distortions := [(-0.3)%float; 0.3%float];
     rattle_stdev := Some 0.25%float |}.

Definition neutral : charge_entry :=
  {| num_nearest_neighbours := 2;
     distorted_atoms := Some [Atom_list 33 "Te"; Atom_list 42 "Te"];
     distortion_parameters := finer_mesh |}.

Definition negative : charge_entry :=
  {| num_nearest_neighbours := 1;
     distorted_atoms := Some [Atom_list 33 "Te"];
     distortion_parameters := finer_mesh |}.

Definition run_parameters_0 : run_parameters :=
  {| distortion_increment := None;
     run_bond_distortions := [(-0.3)%float; 0.3%float];
     run_rattle_stdev := 0.25 |}.

(** The file a first run left: the vacancy in the charge states 0 and -1,
    as [json.load] reads it. *)
Definition old_file : metadata :=
  {| parameters := run_parameters_0;
     defects :=
       [("vac_1_Cd",
         {| unique_site := [0%float; 0%float; 0%float];
            defect_site_index := None;
            charges := [(KStr "0", neutral); (KStr "-1", negative)] |})] |}.

(** The metadata of a second run, for the charge state 0 only, with the
    keys of a document read from JSON. *)
Definition second_run : metadata :=
  {| parameters := run_parameters_0;
     defects :=
       [("vac_1_Cd",
         {| unique_site := [0%float; 0%float; 0%float];
            defect_site_index := None;
            charges := [(KStr "0", neutral)] |})] |}.

(** The same second run as [Distortions] builds it: an [int] key and
    tuples. *)
Definition second_run_of_class : metadata :=
  {| parameters := run_parameters_0;
     defects :=
       [("vac_1_Cd",
         {| unique_site := [0%float; 0%float; 0%float];
            defect_site_index := None;
            charges :=
              [(KInt 0,
                {| num_nearest_neighbours := 2;
                   distorted_atoms := Some [Atom_tuple 33 "Te"; Atom_tuple 42 "Te"];
                   distortion_parameters := finer_mesh |})] |})] |}.

(** A run for both charge states with another mesh of distortions. *)
Definition coarser_mesh : charge_parameters :=
  {| bond_distortions := [(-0.4)%float; 0.4%float];
     rattle_stdev := Some 0.25%float |}.

Definition other_mesh_run : metadata :=
  {| parameters := run_parameters_0;
     defects :=
       [("vac_1_Cd",
         {| unique_site := [0%float; 0%float; 0%float];
            defect_site_index := None;
            charges :=
              [(KStr "0",
                {| num_nearest_neighbours := 2;
                   distorted_atoms := Some [Atom_list 33 "Te"; Atom_list 42 "Te"];
                   distortion_parameters := coarser_mesh |});
               (KStr "-1",
                {| num_nearest_neighbours := 1;
                   distorted_atoms := Some [Atom_list 33 "Te"];
                   distortion_parameters := coarser_mesh |})] |})] |}.

Definition on_disk : gmap string metadata :=
  {[ "./distortion_metadata.json" := old_file ]}.

End Runs.

(** ** Further instances and predicates *)

(** Whether an event of the log is a call of [rattle]. *)
Definition is_call_rattle (e : event) : bool :=
  match e with
  | Call_rattle _ _ => true
  | _ => false
  end.

(** Supercells of five and of six sites: the first atoms of the row. *)
Module Small.
Import Chain.

Definition five_sites : chain := take 5 (cdte 14).

Definition six_sites : chain := take 6 (cdte 14).

End Small.

Section MetadataForms.
Import Metadata.

(** The charges of a document read from JSON: [str] keys, each one once, and
    entries that a further round trip leaves as they are. *)
Definition json_form (c : list (pykey * charge_entry)) : Prop :=
  NoDup (PyDict.keys c) /\
  Forall (fun kv => (exists s, kv.1 = KStr s) /\ json_entry kv.2 = kv.2) c.

(** The warnings for the charges of one defect that differ in the two
    documents. *)
Definition conflicts (filepath : string) (old_defects new_defects : list (string * defect_entry))
    (defect : string) : list event :=
  match PyDict.get old_defects defect, PyDict.get new_defects defect with
  | Some old_entry, Some new_entry =>
    omap (fun k =>
            match PyDict.get (charges new_entry) k, PyDict.get (charges old_entry) k with
            | Some n, Some o =>
              if entry_eq n o then None
              else Some (Warn_metadata_conflict defect k filepath)
            | _, _ => None
            end)
         (PyDict.keys (charges new_entry))
  | _, _ => []
  end.

End MetadataForms.

Section Complete.
Context `{Collaborators}.
Import Distortions.

(** The state of a sweep between two defects: every charge state of every
    defect in the dictionary of structures has its structures, and the
    metadata of the instance holds it under an [int] key with the bond
    distortions and the standard deviation of the instance. *)
Definition complete (this : Distortions) (s : sweep) : Prop :=
  bond_distortions (self s) = bond_distortions this /\
  stdev (self s) = stdev this /\
  forall name entry,
    distorted_defects_dict s !! name = Some entry ->
    exists me,
      PyDict.get (Metadata.defects (distortion_metadata (self s))) name = Some me /\
      (forall k, k ∈ PyDict.keys (Metadata.charges me) -> exists z, k = KInt z) /\
      forall c, is_Some (charges entry !! c) ->
        exists st ce,
          charges entry !! c = Some (Some st) /\
          PyDict.get (Metadata.charges me) (KInt c) = Some ce /\
          Metadata.distortion_parameters ce
          = {| Metadata.bond_distortions := bond_distortions this;
               Metadata.rattle_stdev := Some (stdev this) |}.

End Complete.

Module Sweeps.
Import Chain Distortions.

(** The call [Distortions({"vacancies": [vac_1_Cd]}, oxidation_states)]. *)
Definition default_mesh : arguments := {|
  arg_defects_dict := Some [("vacancies", [vac_1_Cd])];
  arg_oxidation_states := Some CdTe_oxidation_states;
  arg_dict_number_electrons_user := None;
  arg_distortion_increment := None;
  arg_bond_distortions := None;
  arg_stdev := None;
  arg_distorted_elements := None;
  arg_kwargs := {| kw_d_min := None; kw_active_atoms := None; kw_others := tt |}
|}.

(** The same call with [distortion_increment=0.0]. *)
Definition zero_increment : arguments := {|
  arg_defects_dict := Some [("vacancies", [vac_1_Cd])];
  arg_oxidation_states := Some CdTe_oxidation_states;
  arg_dict_number_electrons_user := None;
  arg_distortion_increment := Some 0%float;
  arg_bond_distortions := None;
  arg_stdev := None;
  arg_distorted_elements := None;
  arg_kwargs := {| kw_d_min := None; kw_active_atoms := None; kw_others := tt |}
|}.

(** An instance with other defects, elements to distort, electrons and bond
    distortions than [three_charges]. *)
Definition variant (defects : list (string * list Rattle.DefectDict))
    (elements : option (gmap string string)) (electrons : option (gmap string Z))
    (distortions : list float) : Distortions := {|
  defects_dict := defects;
  oxidation_states := CdTe_oxidation_states;
  distorted_elements := elements;
  dict_number_electrons_user := electrons;
  stdev := 0.25;
  distortion_increment := None;
  bond_distortions := distortions;
  _mc_rattle_kwargs := _mc_rattle_kwargs three_charges;
  distortion_metadata :=
    {| Metadata.parameters :=
         {| Metadata.distortion_increment := None;
            Metadata.run_bond_distortions := distortions;
            Metadata.run_rattle_stdev := 0.25 |};
       Metadata.defects := [] |}
|}.

(** [distorted_elements] names a defect that is not there. *)
Definition wrong_name : Distortions :=
  variant [("vacancies", [vac_1_Cd])] (Some {["vac_2_Cd" := "Te"]}) None
          [(-0.5)%float; (-0.3)%float].

Definition only_bulk : Distortions :=
  variant [("bulk", [vac_1_Cd])] None None [(-0.5)%float; (-0.3)%float].

Definition no_mesh : Distortions :=
  variant [("vacancies", [vac_1_Cd])] None None [].

End Sweeps.

(** ** Writing the input files *)

(** [s.split(sep)] for a separator of one character: the pieces between the
    separators, at least one. *)
Fixpoint split (sep : ascii) (s : string) : list string :=
  match s with
  | EmptyString => [EmptyString]
  | String c s' =>
    if Ascii.eqb c sep then EmptyString :: split sep s'
    else match split sep s' with
         | w :: ws => String c w :: ws
         | [] => [String c EmptyString]
         end
  end.

(** The ["Transformation Dict"] of an input: the entry of the defect without
    its charges, and the charge. *)
Record transformation_dict : Type := {
  td_defect_type : string;
  td_defect_site : list float;
  td_defect_supercell_site : list float;
  td_defect_multiplicity : Z;
  td_supercell : list Z;
  td_substitution_specie : option string;
  td_charge : Z
}.

Record single_defect_dict `{Geometry} : Type := {
  Defect_Structure : Structure;
  POSCAR_Comment : string;
  Transformation_Dict : transformation_dict
}.

(** [vasp_gam_files] of [shakenbreak.io] writes the files of one structure;
    it is defined elsewhere, as are the dictionaries of INCAR and POTCAR
    settings it is handed.  The field is the exception a call raises, if
    any. *)
Class Writer `{Geometry} : Type := {
  IncarSettings : Type;
  PotcarSettings : Type;
  vasp_gam_files : single_defect_dict -> string -> option IncarSettings ->
                   option PotcarSettings -> option exn
}.

Module VaspFiles.
Import Distortions.

Section WithCollaborators.
Context `{Collaborators} `{!Writer}.

(** The calls that write.  [_create_folder(folder_name)] makes the folder
    under the working directory when it is not there, and prints a line
    when the operating system refuses; the file system is not modelled, and
    the call is logged.  [vasp_gam_files(single_defect_dict, input_dir,
    incar_settings, potcar_settings)] is logged with its arguments. *)
Inductive call : Type :=
| Call__create_folder (folder_name : string)
| Call_vasp_gam_files (single : single_defect_dict) (input_dir : string)
    (incar_settings : option IncarSettings)
    (potcar_settings : option PotcarSettings).

(** [Distortions._generate_structure_comment] *)
Definition _generate_structure_comment (self : Distortions)
    (key_distortion : string) (charge : Z) (defect_name : string) : result string :=
  match PyDict.get (Metadata.defects (distortion_metadata self)) defect_name with
  | None => Raise (KeyError defect_name)
  | Some entry =>
    match PyDict.get (Metadata.charges entry) (KInt charge) with
    | None => Raise (KeyError (pretty charge))
    | Some charge_entry =>
      Ok (List.last (split "_" key_distortion) ""
          +:+ "__" +:+ "__num_neighbours="
          +:+ pretty (Metadata.num_nearest_neighbours charge_entry)
          +:+ "_" +:+ defect_name)
    end
  end.

(** [f"{output_path}/{defect_name}/{distortion}"] *)
Definition input_dir (output_path defect_name distortion : string) : string :=
  output_path +:+ "/" +:+ defect_name +:+ "/" +:+ distortion.

(** [_create_vasp_input]: the calls made, and the exception that ended them
    if [vasp_gam_files] raised one.  Every call is handed a copy of
    [potcar_settings]. *)
Definition _create_vasp_input (defect_name : string)
    (distorted_defect_dict : list (string * single_defect_dict))
    (incar_settings : option IncarSettings)
    (potcar_settings : option PotcarSettings) (output_path : string)
  : list call * option exn :=
  let '(calls, e) :=
    for_each
      (fun calls kv =>
         let dir := input_dir output_path defect_name kv.1 in
         (calls ++ [Call_vasp_gam_files kv.2 dir incar_settings potcar_settings],
          vasp_gam_files kv.2 dir incar_settings potcar_settings))
      distorted_defect_dict [] in
  (Call__create_folder (Metadata.path_join output_path defect_name) :: calls, e).

(** [dict_transf] with its ["charge"]. *)
Definition dict_transf (defect_dict : distorted_defect_entry) (charge : Z)
  : transformation_dict :=
  {| td_defect_type := entry_defect_type defect_dict;
     td_defect_site := defect_site defect_dict;
     td_defect_supercell_site := defect_supercell_site defect_dict;
     td_defect_multiplicity := defect_multiplicity defect_dict;
     td_supercell := supercell defect_dict;
     td_substitution_specie := entry_substitution_specie defect_dict;
     td_charge := charge |}.

(** The dictionary [charged_defect] and the calls made so far. *)
Record progress : Type := {
  charged_defect : list (string * single_defect_dict);
  calls : list call
}.

(** [charged_defect[key_distortion] = {...}] with its comment. *)
Definition add_structure (self : Distortions) (defect_name : string)
    (defect_dict : distorted_defect_entry) (charge : Z)
    (charged_defect : list (string * single_defect_dict))
    (kv : string * Structure)
  : list (string * single_defect_dict) * option exn :=
  match _generate_structure_comment self kv.1 charge defect_name with
  | Raise e => (charged_defect, Some e)
  | Ok poscar_comment =>
    (PyDict.set charged_defect kv.1
       {| Defect_Structure := kv.2;
          POSCAR_Comment := poscar_comment;
          Transformation_Dict := dict_transf defect_dict charge |},
     None)
  end.

(** [f"{defect_name}_{charge}"] *)
Definition folder (defect_name : string) (charge : Z) : string :=
  defect_name +:+ "_" +:+ pretty charge.

(** A Python dictionary iterates its keys in the order of their first
    assignment. *)
Fixpoint first_occurrences {A} `{EqDecision A} (l : list A) : list A :=
  match l with
  | [] => []
  | x :: l' => x :: filter (fun y => y <> x) (first_occurrences l')
  end.

(** The items of the distortions of one charge state, in the order Python
    iterates them.  The finite map of the model does not keep the order;
    it is that of the assignments [apply_snb_distortions] made: the labels
    of the bond distortions of the instance, each at its first appearance.
    An entry under another key, as ["Rattled"], follows them. *)
Definition distortions_in_order (self : Distortions)
    (distortions : gmap string Structure) : list (string * Structure) :=
  let labels := first_occurrences (map Rattle.label (bond_distortions self)) in
  omap (fun k => (fun v => (k, v)) <$> distortions !! k) labels
  ++ List.filter (fun kv => negb (existsb (String.eqb kv.1) labels))
                 (map_to_list distortions).

(** The body of [for charge in defect_dict["charges"]:].  [charged_defect]
    is the dictionary the loop over the charges of one defect shares. *)
Definition charge_files (self : Distortions)
    (incar_settings : option IncarSettings)
    (potcar_settings : option PotcarSettings) (output_path defect_name : string)
    (defect_dict : distorted_defect_entry) (p : progress) (charge : Z)
  : progress * option exn :=
  match _generate_structure_comment self "Unperturbed" charge defect_name with
  | Raise e => (p, Some e)
  | Ok poscar_comment =>
    match charges defect_dict !! charge with
    | None => (p, Some (KeyError (pretty charge)))
    | Some None => (p, Some (KeyError "structures"))
    | Some (Some st) =>
      let charged_defect :=
        PyDict.set (charged_defect p) "Unperturbed"
          {| Defect_Structure := Unperturbed st;
             POSCAR_Comment := poscar_comment;
             Transformation_Dict := dict_transf defect_dict charge |} in
      match _create_vasp_input (folder defect_name charge) charged_defect
              incar_settings potcar_settings output_path with
      | (log, Some e) =>
        ({| charged_defect := charged_defect; calls := calls p ++ log |}, Some e)
      | (log, None) =>
        match for_each (add_structure self defect_name defect_dict charge)
                (distortions_in_order self (distortions st)) charged_defect with
        | (charged_defect, Some e) =>
          ({| charged_defect := charged_defect; calls := calls p ++ log |}, Some e)
        | (charged_defect, None) =>
          let '(log', e) :=
            _create_vasp_input (folder defect_name charge) charged_defect
              incar_settings potcar_settings output_path in
          ({| charged_defect := charged_defect; calls := calls p ++ log ++ log' |}, e)
        end
      end
    end
  end.

(** The body of [for defect_name, defect_dict in
    distorted_defects_dict.items():]; [order] is the order in which Python
    iterates the charges of the defect. *)
Definition defect_files (self : Distortions)
    (incar_settings : option IncarSettings)
    (potcar_settings : option PotcarSettings) (output_path : string)
    (log : list call) (item : string * distorted_defect_entry * list Z)
  : list call * option exn :=
  let '(p, e) :=
    for_each (charge_files self incar_settings potcar_settings output_path
                item.1.1 item.1.2)
             item.2 {| charged_defect := []; calls := log |} in
  (calls p, e).

(** The items of the dictionary [apply_distortions] returned, in the order
    Python iterates them, with the charges of each in their order.  The
    finite maps of the model do not keep the order; it is that of the
    assignments [apply_distortions] made: a defect name at its first
    appearance in [comb_defs], and the charges as the last defect of the
    name lists them. *)
Definition items_in_order (defects : list Rattle.DefectDict)
    (distorted_defects_dict : gmap string distorted_defect_entry)
  : list (string * distorted_defect_entry * list Z) :=
  omap (fun name =>
          match distorted_defects_dict !! name,
                last (List.filter (fun d => (Rattle.name d =? name)%string)
                                  defects) with
          | Some entry, Some defect =>
            Some (name, entry, first_occurrences (Rattle.charges defect))
          | _, _ => None
          end)
       (first_occurrences (map Rattle.name defects)).

(** Every entry of the dictionary lists the charge states of the last
    defect of its name. *)
Definition charges_of_last (defects : list Rattle.DefectDict)
    (distorted_defects_dict : gmap string distorted_defect_entry) : Prop :=
  forall name entry,
    distorted_defects_dict !! name = Some entry ->
    exists defect,
      last (List.filter (fun d => (Rattle.name d =? name)%string) defects)
      = Some defect /\
      dom (charges entry) = list_to_set (Rattle.charges defect).

(** What a call of [write_vasp_files] leaves: the instance, the lines that
    [apply_distortions] and the writing of the metadata printed, the calls
    that write, the metadata file if the call got that far, and the
    exception if one ended it.  The method has no [return] statement. *)
Record files_written : Type := {
  instance : Distortions;
  stdout : list event;
  vasp_calls : list call;
  metadata_file : option Metadata.written;
  raised : option exn
}.

Definition write_vasp_files (this : Distortions)
    (incar_settings : option IncarSettings)
    (potcar_settings : option PotcarSettings) (output_path : string)
    (verbose : bool) (files : gmap string Metadata.metadata)
    (current_datetime : string) : files_written :=
  match apply_distortions this verbose with
  | (s, Raise e) =>
    {| instance := self s; stdout := printed s; vasp_calls := [];
       metadata_file := None; raised := Some e |}
  | (s, Ok (distorted_defects_dict, distortion_metadata)) =>
    let this := with_metadata (self s) distortion_metadata in
    match for_each (defect_files this incar_settings potcar_settings output_path)
            (items_in_order (value (comb_defs (defects_dict this)) [])
                            distorted_defects_dict) [] with
    | (log, Some e) =>
      {| instance := this; stdout := printed s; vasp_calls := log;
         metadata_file := None; raised := Some e |}
    | (log, None) =>
      let w := write_distortion_metadata this files current_datetime output_path in
      {| instance := with_metadata this (Metadata.new_metadata_after w);
         stdout := printed s ++ Metadata.emitted w;
         vasp_calls := log;
         metadata_file := Some w;
         raised := None |}
    end
  end.

End WithCollaborators.
End VaspFiles.

(** A writer that accepts every call. *)
Module Quiet.
Import Chain.

#[export] Instance quiet_writer : Writer := {|
  IncarSettings := unit;
  PotcarSettings := unit;
  vasp_gam_files := fun _ _ _ _ => None
|}.

(** The sweep over the three charge states of the vacancy, and what it
    returned for the vacancy. *)
Definition swept : Distortions.sweep :=
  (Distortions.apply_distortions three_charges false).1.

Definition vacancy_entry : Distortions.distorted_defect_entry :=
  default
    {| Distortions.entry_defect_type := "";
       Distortions.defect_site := [];
       Distortions.defect_supercell_site := [];
       Distortions.defect_multiplicity := 0;
       Distortions.supercell := [];
       Distortions.charges := ∅;
       Distortions.entry_substitution_specie := None |}
    (Distortions.distorted_defects_dict swept !! "vac_1_Cd").

End Quiet.

(** * Properties *)

(** ** The order of [np.sort] *)

Section FloatOrder.
Import Numpy.

(** The two directions of [SFleb_key] once both floats are known up to
    their exponents and mantissas. *)
Ltac key_holds :=
  intros _; eexists _, _; split; [reflexivity|]; split; [reflexivity|];
  simpl; lia.

Ltac key_fails :=
  let Hle := fresh "Hle" in
  intros (? & ? & [= <-] & [= <-] & Hle); simpl in Hle; lia.

Ltac key_cases :=
  split; [first [discriminate | key_holds] | first [reflexivity | key_fails]].

Lemma SFleb_key (f1 f2 : spec_float) :
  SFleb f1 f2 = true <->
  exists k1 k2, key f1 = Some k1 /\ key f2 = Some k2 /\ lex_le k1 k2.
Proof.
  unfold SFleb, lex_le.
  destruct f1 as [s1|s1| |s1 m1 e1], f2 as [s2|s2| |s2 m2 e2]; simpl;
    try (split; [discriminate | intros (k1 & k2 & ? & ? & ?); discriminate]);
    try (destruct s1); try (destruct s2); simpl; try key_cases;
    change (PosDef.Pos.compare_cont Eq m1 m2) with (Pos.compare m1 m2);
    destruct (Z.compare_spec e1 e2), (Pos.compare_spec m1 m2); simpl;
    key_cases.
Qed.

Lemma is_nan_key (x : float) :
  is_nan x = true <-> key (Prim2SF x) = None.
Proof.
  unfold is_nan. rewrite FloatAxioms.eqb_spec. unfold SFeqb, SFcompare.
  destruct (Prim2SF x) as [s|s| |s m e]; simpl;
    try (split; [discriminate | discriminate]); try tauto.
  - destruct s; simpl; split; discriminate.
  - change (PosDef.Pos.compare_cont Eq m m) with (Pos.compare m m).
    rewrite Z.compare_refl, Pos.compare_refl. destruct s; simpl; split; discriminate.
Qed.

Lemma np_le_key (x y : float) :
  np_le x y = true <-> key_le (key (Prim2SF x)) (key (Prim2SF y)).
Proof.
  unfold np_le. rewrite orb_true_iff, FloatAxioms.leb_spec, SFleb_key, is_nan_key.
  unfold key_le. destruct (key (Prim2SF x)) as [k1|], (key (Prim2SF y)) as [k2|].
  - split.
    + intros [(k1' & k2' & [= <-] & [= <-] & H)|H]; [exact H | discriminate].
    + intros H. left. eauto.
  - split; [trivial | intros _; right; reflexivity].
  - split; [|intros []].
    intros [(k1' & k2' & H & _)|H]; discriminate.
  - split; [trivial | intros _; right; reflexivity].
Qed.

Lemma np_le_total (x y : float) : np_le x y = true \/ np_le y x = true.
Proof.
  rewrite !np_le_key. unfold key_le, lex_le.
  destruct (key (Prim2SF x)) as [[[a1 a2] a3]|], (key (Prim2SF y)) as [[[b1 b2] b3]|];
    simpl; try tauto; lia.
Qed.

Lemma np_le_trans (x y z : float) :
  np_le x y = true -> np_le y z = true -> np_le x z = true.
Proof.
  rewrite !np_le_key. unfold key_le, lex_le.
  destruct (key (Prim2SF x)) as [[[a1 a2] a3]|], (key (Prim2SF y)) as [[[b1 b2] b3]|],
    (key (Prim2SF z)) as [[[c1 c2] c3]|]; simpl; try tauto; lia.
Qed.

Lemma np_insert_perm (x : float) (l : list float) : Permutation (np_insert x l) (x :: l).
Proof.
  induction l as [|y l IH]; simpl; [reflexivity|].
  destruct (np_le x y); [reflexivity|].
  rewrite IH. apply perm_swap.
Qed.

Lemma np_sort_perm (l : list float) : Permutation (np_sort l) l.
Proof.
  induction l as [|x l IH]; simpl; [reflexivity|].
  rewrite np_insert_perm. constructor. exact IH.
Qed.

Lemma np_insert_sorted (x : float) (l : list float) :
  StronglySorted ascending l -> StronglySorted ascending (np_insert x l).
Proof.
  induction 1 as [|y l Hs IH Hall]; simpl.
  - repeat constructor.
  - destruct (np_le x y) eqn:Hxy.
    + constructor; [constructor; assumption|].
      constructor; [exact Hxy|].
      eapply Forall_impl; [exact Hall|]. intros z Hz. exact (np_le_trans x y z Hxy Hz).
    + constructor; [exact IH|].
      assert (Hyx : ascending y x).
      { destruct (np_le_total x y) as [H|H]; [congruence | exact H]. }
      rewrite np_insert_perm. constructor; assumption.
Qed.

Lemma np_sort_sorted (l : list float) : StronglySorted ascending (np_sort l).
Proof.
  induction l as [|x l IH]; simpl; [constructor | apply np_insert_sorted, IH].
Qed.

(** In an ascending list the entry at position [k] has the [k] entries
    before it below it and the others above it. *)
Lemma sorted_lookup (s : list float) (k : nat) (x : float) :
  StronglySorted ascending s -> s !! k = Some x ->
  Forall (fun y => ascending y x) (take k s) /\ Forall (ascending x) (drop (S k) s).
Proof.
  intros Hs. revert k. induction Hs as [|y l Hs IH Hall]; intros k Hk; [discriminate|].
  destruct k as [|k]; simpl in *.
  - injection Hk as ->. split; [constructor | exact Hall].
  - destruct (IH k Hk) as [H1 H2]. split; [|exact H2].
    constructor; [|exact H1].
    rewrite Forall_forall in Hall. apply Hall. eapply list_elem_of_lookup_2, Hk.
Qed.

Lemma at_most_zero_down (x y : float) :
  ascending x y -> at_most_zero y -> at_most_zero x.
Proof. unfold ascending, at_most_zero. apply np_le_trans. Qed.

Lemma filter_none (s : list float) :
  Forall (fun x => ~ at_most_zero x) s -> filter at_most_zero s = [].
Proof.
  induction 1 as [|b s Hb _ IH]; [reflexivity|].
  rewrite filter_cons_False by exact Hb. exact IH.
Qed.

Lemma filter_all (s : list float) :
  Forall (fun x => ~ at_most_zero x) s ->
  filter (fun x => ~ at_most_zero x) s = s.
Proof.
  induction 1 as [|b s Hb _ IH]; [reflexivity|].
  rewrite filter_cons_True by exact Hb. f_equal. exact IH.
Qed.

Lemma sorted_zeros_first (s : list float) :
  StronglySorted ascending s ->
  s = filter at_most_zero s ++ filter (fun x => ~ at_most_zero x) s.
Proof.
  induction 1 as [|a s Hs IH Hall]; [reflexivity|].
  destruct (decide (at_most_zero a)) as [Ha|Ha].
  - rewrite filter_cons_True by exact Ha.
    rewrite (filter_cons_False (fun x => ~ at_most_zero x)) by tauto.
    simpl. f_equal. exact IH.
  - assert (Hno : Forall (fun x => ~ at_most_zero x) (a :: s)).
    { constructor; [exact Ha|].
      eapply Forall_impl; [exact Hall|]. intros b Hab Hb.
      exact (Ha (at_most_zero_down a b Hab Hb)). }
    rewrite (filter_none _ Hno), (filter_all _ Hno). reflexivity.
Qed.

(** The entry of the sorted array that comes after its [n] zeros is the
    smallest entry above zero. *)
Lemma smallest_positive (l : list float) (n : nat) (x : float) :
  length (filter at_most_zero l) = n ->
  np_sort l !! n = Some x ->
  ~ at_most_zero x /\ x ∈ l /\
  forall y, y ∈ l -> ~ at_most_zero y -> ascending x y.
Proof.
  intros Hn Hx.
  pose proof (np_sort_sorted l) as Hs.
  pose proof (np_sort_perm l) as Hp.
  pose proof (sorted_zeros_first _ Hs) as Hsplit.
  assert (Hlen : length (filter at_most_zero (np_sort l)) = n).
  { rewrite <- Hn. apply Permutation_length. rewrite Hp. reflexivity. }
  assert (Htake : take n (np_sort l) = filter at_most_zero (np_sort l)).
  { rewrite Hsplit at 1. rewrite <- Hlen. apply take_app_length. }
  assert (Hpos : ~ at_most_zero x).
  { rewrite Hsplit in Hx. rewrite lookup_app_r in Hx by lia.
    rewrite Hlen, Nat.sub_diag in Hx.
    apply list_elem_of_lookup_2 in Hx. apply list_elem_of_filter in Hx. tauto. }
  split; [exact Hpos|]. split.
  { rewrite <- Hp. eapply list_elem_of_lookup_2, Hx. }
  intros y Hy Hyp.
  destruct (sorted_lookup _ _ _ Hs Hx) as [_ Hafter].
  rewrite <- Hp in Hy. rewrite <- (take_drop_middle _ _ _ Hx) in Hy.
  rewrite elem_of_app, elem_of_cons in Hy. destruct Hy as [Hy|[->|Hy]].
  - rewrite Htake in Hy. apply list_elem_of_filter in Hy. tauto.
  - destruct (np_le_total x x); assumption.
  - rewrite Forall_forall in Hafter. apply Hafter, Hy.
Qed.
End FloatOrder.

(** ** The electron-count model *)

Section ElectronCountFacts.
Import ElectronCount.

Lemma calc_number_electrons_after (d : DefectSpecies) (ox : gmap string Z) (v : bool) :
  oxidation_states_after (calc_number_electrons d ox v) = <["Vac" := 0]> ox.
Proof.
  unfold calc_number_electrons.
  destruct (species_of d) as [[site subst]|e]; [|reflexivity].
  destruct (getitem _ subst); [|reflexivity].
  destruct (getitem _ site); reflexivity.
Qed.

Lemma calc_number_electrons_ok (d : DefectSpecies) (ox : gmap string Z) (v : bool)
    (site subst : string) (a b : Z) :
  species_of d = Ok (site, subst) ->
  <["Vac" := 0]> ox !! subst = Some a ->
  <["Vac" := 0]> ox !! site = Some b ->
  returned (calc_number_electrons d ox v) = Ok (- (a - b)).
Proof.
  intros Hs Ha Hb. unfold calc_number_electrons, getitem.
  rewrite Hs, Ha, Hb. reflexivity.
Qed.

Lemma species_of_value_error (d : DefectSpecies) :
  (exists m, species_of d = Raise (ValueError m)) <->
  ~ In (defect_type d) ["vacancy"; "interstitial"; "antisite"; "substitution"].
Proof.
  unfold species_of.
  destruct (String.eqb_spec (defect_type d) "vacancy") as [->|H1].
  { split; [intros [m Hm]; discriminate | intros Hn; exfalso; apply Hn; simpl; tauto]. }
  destruct (String.eqb_spec (defect_type d) "interstitial") as [->|H2].
  { split; [intros [m Hm]; discriminate | intros Hn; exfalso; apply Hn; simpl; tauto]. }
  destruct (String.eqb_spec (defect_type d) "antisite") as [->|H3].
  { split; [|intros Hn; exfalso; apply Hn; simpl; tauto].
    intros [m Hm]. destruct (substituting_specie d); discriminate. }
  destruct (String.eqb_spec (defect_type d) "substitution") as [->|H4].
  { split; [|intros Hn; exfalso; apply Hn; simpl; tauto].
    intros [m Hm]. destruct (substitution_specie d); discriminate. }
  split; [|eauto].
  intros _ [?|[?|[?|[?|[]]]]]; congruence.
Qed.

Lemma calc_number_neighbours_cases (n : Z) :
  (Z.abs n <= 4 /\ calc_number_neighbours n = Z.abs n) \/
  (4 < Z.abs n /\ calc_number_neighbours n = Z.abs (8 - Z.abs n)).
Proof.
  unfold calc_number_neighbours. rewrite Z.gtb_ltb.
  destruct (Z.ltb_spec 4 (Z.abs n)); [right|left]; split; lia.
Qed.

(** C1, as the code has it: [calc_number_electrons] returns the negation of
    [extra_electrons = oxidation(substituting species) - oxidation(site
    species)], so the electron count of charge state [q] that the number of
    distorted neighbours is derived from is [q - extra_electrons].  For a
    vacancy of a [+2] cation ([extra_electrons = -2]) charge [0] gives the
    count [2] and [2] neighbours, and charge [-1] the count [1] and [1]
    neighbour. *)
Theorem charged_defect_electron_count (d : DefectSpecies) (ox : gmap string Z)
    (v : bool) (site subst : string) (a b q : Z) :
  species_of d = Ok (site, subst) ->
  <["Vac" := 0]> ox !! subst = Some a ->
  <["Vac" := 0]> ox !! site = Some b ->
  let extra_electrons := a - b in
  returned (calc_number_electrons d ox v) = Ok (- extra_electrons) /\
  num_electrons_charged_defect (- extra_electrons) q = q - extra_electrons /\
  (_get_number_distorted_neighbours (name d) (- extra_electrons) q).2
  = calc_number_neighbours (q - extra_electrons) /\
  (subst = "Vac" -> b = 2 ->
   (q = 0 ->
    num_electrons_charged_defect (- extra_electrons) q = 2 /\
    (_get_number_distorted_neighbours (name d) (- extra_electrons) q).2 = 2) /\
   (q = -1 ->
    num_electrons_charged_defect (- extra_electrons) q = 1 /\
    (_get_number_distorted_neighbours (name d) (- extra_electrons) q).2 = 1)).
Proof.
  intros Hs Ha Hb extra_electrons.
  split; [exact (calc_number_electrons_ok d ox v site subst a b Hs Ha Hb)|].
  split; [unfold num_electrons_charged_defect; lia|].
  split.
  { unfold _get_number_distorted_neighbours, num_electrons_charged_defect. simpl.
    f_equal. lia. }
  intros -> ->. rewrite lookup_insert_eq in Ha. injection Ha as <-.
  split; intros ->; split; reflexivity.
Qed.

Lemma charged_defect_electron_count_witness :
  returned (calc_number_electrons (Rattle.species_keys Chain.vac_1_Cd)
              Chain.CdTe_oxidation_states false) = Ok (- (0 - 2)) /\
  (_get_number_distorted_neighbours "vac_1_Cd" (- (0 - 2)) (-1)).2
  = calc_number_neighbours (-1 - (0 - 2)).
Proof.
  pose proof (charged_defect_electron_count
                (Rattle.species_keys Chain.vac_1_Cd) Chain.CdTe_oxidation_states
                false "Cd" "Vac" 0 2 (-1) eq_refl eq_refl eq_refl) as (H1 & _ & H3 & _).
  split; [exact H1 | exact H3].
Defined.

(** C1 as stated fails: for the cadmium vacancy ([extra_electrons = -2]) in
    charge state [-1] the claim gives the count [-3] and [3] neighbours; the
    code computes the count [1] and [1] neighbour. *)
Lemma charged_defect_electron_count_counterexample :
  let d := Rattle.species_keys Chain.vac_1_Cd in
  let extra_electrons := 0 - 2 in
  returned (calc_number_electrons d Chain.CdTe_oxidation_states false) = Ok 2 /\
  num_electrons_charged_defect 2 (-1) <> extra_electrons + -1 /\
  (_get_number_distorted_neighbours (name d) 2 (-1)).2 = 1 /\
  (_get_number_distorted_neighbours (name d) 2 (-1)).2 <> 3.
Proof. vm_compute. repeat split; discriminate. Qed.

(** C3, as the code has it: the number of neighbours is the same for [n]
    and [-n], is never negative and is at most [max(4, |n| - 8)], so it lies
    in [[0, 4]] exactly when [|n| <= 12]; it is [|n|] for [|n| <= 4] and
    [|8 - |n||] beyond, and maps 0, 2, 4, 6, 8 to 0, 2, 4, 2, 0. *)
Theorem calc_number_neighbours_octet_rule (n : Z) :
  calc_number_neighbours n = calc_number_neighbours (- n) /\
  0 <= calc_number_neighbours n /\
  calc_number_neighbours n <= Z.max 4 (Z.abs n - 8) /\
  (calc_number_neighbours n <= 4 <-> Z.abs n <= 12) /\
  (Z.abs n <= 4 -> calc_number_neighbours n = Z.abs n) /\
  (4 < Z.abs n -> calc_number_neighbours n = Z.abs (8 - Z.abs n)) /\
  calc_number_neighbours 0 = 0 /\
  calc_number_neighbours 2 = 2 /\
  calc_number_neighbours 4 = 4 /\
  calc_number_neighbours 6 = 2 /\
  calc_number_neighbours 8 = 0.
Proof.
  pose proof (calc_number_neighbours_cases n) as Hn.
  pose proof (calc_number_neighbours_cases (- n)) as Hm.
  rewrite Z.abs_opp in Hm.
  repeat split; try reflexivity; lia.
Qed.

Lemma calc_number_neighbours_octet_rule_witness :
  calc_number_neighbours 6 = calc_number_neighbours (- 6) /\
  calc_number_neighbours 6 = Z.abs (8 - Z.abs 6).
Proof.
  pose proof (calc_number_neighbours_octet_rule 6) as (H1 & _ & _ & _ & _ & H6 & _).
  split; [exact H1 | apply H6; reflexivity].
Defined.

(** C3 as stated fails: the result leaves [[0, 4]] for [|n| > 12]. *)
Lemma calc_number_neighbours_counterexample :
  calc_number_neighbours 13 = 5 /\ ~ (0 <= calc_number_neighbours 13 <= 4).
Proof. split; [reflexivity | vm_compute; intros [_ H]; apply H; reflexivity]. Qed.

(** C8, as the code has it: the invalid-input error ([ValueError]) is raised
    exactly when the defect kind is none of vacancy, interstitial, antisite
    and substitution.  For the four kinds the species looked up are the
    site species and ["Vac"] for a vacancy, in the other order for an
    interstitial, and the site species and the substituting species of the
    defect dictionary for an antisite and a substitution.  The call returns
    the negated electron count when the defect dictionary and the
    oxidation states hold them, and raises [KeyError] otherwise: for the
    key of the substituting species that the defect dictionary lacks, for
    the substituting species without an oxidation state, or else for the
    site species without one.  In every case the caller's oxidation states
    have gained ["Vac" = 0], and a failing call prints nothing. *)
Theorem calc_number_electrons_invalid_type (d : DefectSpecies)
    (ox : gmap string Z) (v : bool) :
  let o := calc_number_electrons d ox v in
  ((exists m, returned o = Raise (ValueError m)) <->
   ~ In (defect_type d) ["vacancy"; "interstitial"; "antisite"; "substitution"]) /\
  (In (defect_type d) ["vacancy"; "interstitial"; "antisite"; "substitution"] ->
   (exists n, returned o = Ok n) \/ (exists k, returned o = Raise (KeyError k))) /\
  (forall site subst a b,
     species_of d = Ok (site, subst) ->
     <["Vac" := 0]> ox !! subst = Some a ->
     <["Vac" := 0]> ox !! site = Some b ->
     returned o = Ok (- (a - b))) /\
  oxidation_states_after o = <["Vac" := 0]> ox /\
  (is_ok (returned o) = false -> stdout o = []) /\
  (forall site subst,
     species_of d = Ok (site, subst) ->
     <["Vac" := 0]> ox !! subst = None ->
     returned o = Raise (KeyError subst)) /\
  (forall site subst a,
     species_of d = Ok (site, subst) ->
     <["Vac" := 0]> ox !! subst = Some a ->
     <["Vac" := 0]> ox !! site = None ->
     returned o = Raise (KeyError site)) /\
  (defect_type d = "antisite" -> substituting_specie d = None ->
   returned o = Raise (KeyError "substituting_specie")) /\
  (defect_type d = "substitution" -> substitution_specie d = None ->
   returned o = Raise (KeyError "substitution_specie")) /\
  (defect_type d = "vacancy" -> species_of d = Ok (site_specie d, "Vac")) /\
  (defect_type d = "interstitial" -> species_of d = Ok ("Vac", site_specie d)) /\
  (forall s, defect_type d = "antisite" -> substituting_specie d = Some s ->
             species_of d = Ok (site_specie d, s)) /\
  (forall s, defect_type d = "substitution" -> substitution_specie d = Some s ->
             species_of d = Ok (site_specie d, s)) /\
  (is_ok (returned o) = true <->
   exists site subst,
     species_of d = Ok (site, subst) /\
     is_Some (<["Vac" := 0]> ox !! subst) /\ is_Some (<["Vac" := 0]> ox !! site)).
Proof.
  intros o.
  assert (Hret : returned o =
                 match species_of d with
                 | Raise e => Raise e
                 | Ok (site, subst) =>
                   match getitem (<["Vac" := 0]> ox) subst with
                   | Raise e => Raise e
                   | Ok x =>
                     match getitem (<["Vac" := 0]> ox) site with
                     | Raise e => Raise e
                     | Ok y => Ok (- (x - y))
                     end
                   end
                 end).
  { subst o. unfold calc_number_electrons.
    destruct (species_of d) as [[site subst]|e]; [|reflexivity].
    destruct (getitem _ subst); [|reflexivity].
    destruct (getitem _ site); reflexivity. }
  assert (Hkey : forall k, (exists x, getitem (<["Vac" := 0]> ox) k = Ok x) \/
                           getitem (<["Vac" := 0]> ox) k = Raise (KeyError k)).
  { intros k. unfold getitem. destruct (_ !! k); eauto. }
  pose proof (species_of_value_error d) as Hv.
  split; [split|]; [| |split; [|split; [|split; [|split]]]].
  - intros [m Hm]. apply Hv. rewrite Hret in Hm.
    destruct (species_of d) as [[site subst]|e]; [|injection Hm as ->; eauto].
    destruct (Hkey subst) as [[x Hx]|Hx]; rewrite Hx in Hm; [|discriminate].
    destruct (Hkey site) as [[y Hy]|Hy]; rewrite Hy in Hm; discriminate.
  - intros Hn. apply Hv in Hn as [m Hm]. exists m. rewrite Hret, Hm. reflexivity.
  - intros Hin. rewrite Hret.
    destruct (species_of d) as [[site subst]|e] eqn:Hs.
    + destruct (Hkey subst) as [[x Hx]|Hx]; rewrite Hx; [|eauto].
      destruct (Hkey site) as [[y Hy]|Hy]; rewrite Hy; eauto.
    + right. revert Hs. unfold species_of, bind, getkey.
      repeat match goal with
             | |- context [String.eqb ?x ?y] => destruct (String.eqb_spec x y)
             | |- context [match ?f d with Some _ => _ | None => _ end] => destruct (f d)
             end; intros; simplify_eq; eauto.
      exfalso. simpl in Hin. intuition congruence.
  - intros site subst a b Hs Ha Hb.
    exact (calc_number_electrons_ok d ox v site subst a b Hs Ha Hb).
  - apply calc_number_electrons_after.
  - subst o. unfold calc_number_electrons.
    destruct (species_of d) as [[site subst]|e]; [|reflexivity].
    destruct (getitem _ subst); [|reflexivity].
    destruct (getitem _ site); [discriminate | reflexivity].
  - clear Hkey Hv. repeat split.
    + intros site subst Hs Hsubst. rewrite Hret, Hs. unfold getitem.
      rewrite Hsubst. reflexivity.
    + intros site subst a Hs Hsubst Hsite. rewrite Hret, Hs. unfold getitem.
      rewrite Hsubst, Hsite. reflexivity.
    + intros Hk Hnone. rewrite Hret. unfold species_of. rewrite Hk, Hnone.
      reflexivity.
    + intros Hk Hnone. rewrite Hret. unfold species_of. rewrite Hk, Hnone.
      reflexivity.
    + intros Hk. unfold species_of. rewrite Hk. reflexivity.
    + intros Hk. unfold species_of. rewrite Hk. reflexivity.
    + intros s Hk Hs. unfold species_of. rewrite Hk, Hs. reflexivity.
    + intros s Hk Hs. unfold species_of. rewrite Hk, Hs. reflexivity.
    + rewrite Hret. destruct (species_of d) as [[site subst]|e]; [|discriminate].
      unfold getitem. intros Hok. exists site, subst. split; [reflexivity|].
      destruct (_ !! subst); [|discriminate Hok].
      destruct (_ !! site); [|discriminate Hok]. split; eauto.
    + intros (site & subst & Hs & [a Ha] & [b Hb]). rewrite Hret, Hs.
      unfold getitem. rewrite Ha, Hb. reflexivity.
Qed.

Lemma calc_number_electrons_invalid_type_witness :
  ((exists n, returned (calc_number_electrons (Rattle.species_keys Chain.vac_1_Cd)
                          Chain.CdTe_oxidation_states true) = Ok n) \/
   (exists k, returned (calc_number_electrons (Rattle.species_keys Chain.vac_1_Cd)
                          Chain.CdTe_oxidation_states true) = Raise (KeyError k))) /\
  returned (calc_number_electrons (Rattle.species_keys Chain.vac_1_Cd)
              {["Te" := -2]} true) = Raise (KeyError "Cd").
Proof.
  split.
  - pose proof (calc_number_electrons_invalid_type
                  (Rattle.species_keys Chain.vac_1_Cd) Chain.CdTe_oxidation_states
                  true) as (_ & H & _).
    apply H. simpl. left. reflexivity.
  - pose proof (calc_number_electrons_invalid_type
                  (Rattle.species_keys Chain.vac_1_Cd) {["Te" := -2]} true)
      as (_ & _ & _ & _ & _ & _ & H & _).
    apply (H "Cd" "Vac" 0); reflexivity.
Defined.

(** C8 as stated fails twice: a call with an unknown defect kind changes the
    caller's oxidation states before it raises, and a call with a valid kind
    raises [KeyError] when a species has no oxidation state. *)
Lemma calc_number_electrons_invalid_type_counterexample :
  let unknown := Build_DefectSpecies "d" "split_vacancy" "Cd" None None in
  let vacancy := Build_DefectSpecies "vac_1_Cd" "vacancy" "Cd" None None in
  (exists m, returned (calc_number_electrons unknown ∅ false) = Raise (ValueError m)) /\
  oxidation_states_after (calc_number_electrons unknown ∅ false) <> ∅ /\
  returned (calc_number_electrons vacancy ∅ false) = Raise (KeyError "Cd").
Proof.
  intros unknown vacancy. split; [eexists; reflexivity|]. split; [|reflexivity].
  intros Heq. apply (f_equal (fun m : gmap string Z => m !! "Vac")) in Heq.
  vm_compute in Heq. discriminate.
Qed.

(** C10: every call sets the key ["Vac"] of the caller's oxidation states to
    [0], whatever it returns or raises, and leaves the other keys as they
    were; a dictionary that did not hold ["Vac" = 0] is changed. *)
Theorem calc_number_electrons_inserts_Vac (d : DefectSpecies)
    (ox : gmap string Z) (v : bool) :
  let after := oxidation_states_after (calc_number_electrons d ox v) in
  after = <["Vac" := 0]> ox /\
  after !! "Vac" = Some 0 /\
  (forall k, k <> "Vac" -> after !! k = ox !! k) /\
  (ox !! "Vac" <> Some 0 -> after <> ox).
Proof.
  intros after. subst after. rewrite calc_number_electrons_after.
  split; [reflexivity|]. split; [apply lookup_insert_eq|]. split.
  - intros k Hk. apply lookup_insert_ne. congruence.
  - intros Hne Heq. apply Hne. rewrite <- Heq. apply lookup_insert_eq.
Qed.

Lemma calc_number_electrons_inserts_Vac_witness :
  oxidation_states_after
    (calc_number_electrons (Rattle.species_keys Chain.vac_1_Cd)
       Chain.CdTe_oxidation_states false) <> Chain.CdTe_oxidation_states.
Proof.
  pose proof (calc_number_electrons_inserts_Vac
                (Rattle.species_keys Chain.vac_1_Cd) Chain.CdTe_oxidation_states false)
    as (_ & _ & _ & H).
  apply H. vm_compute. discriminate.
Defined.

End ElectronCountFacts.

(** ** Rattling one defect *)

Section RattleFacts.
Import Numpy Rattle.
Context `{Collaborators}.

Lemma choose_d_min_supplied (x : float) (s : Structure) :
  PrimFloat.eqb x 0 = false -> choose_d_min (Some x) s = ([], Ok x).
Proof. intros Hx. unfold choose_d_min, falsy. rewrite Hx. reflexivity. Qed.

Lemma choose_d_min_automatic (d_min : option float) (s : Structure) :
  falsy d_min = true -> choose_d_min d_min s = automatic_d_min s.
Proof.
  unfold choose_d_min. destruct d_min as [x|]; [|reflexivity].
  intros ->. reflexivity.
Qed.

(** C7, as the code has it: when [d_min] is not supplied (or is zero) it is
    [0.8] times the entry at index [len + 20] of the ascending sorted,
    flattened distance matrix of the unperturbed supercell, that is after
    the first [len + 20] smallest entries, the diagonal zeros among them;
    when that value is below 1 it is discarded with a warning and replaced
    by 2.25, and a matrix without such an entry raises [IndexError]. *)
Theorem choose_d_min_spec (d_min : option float) (s : Structure) :
  let sorted := np_sort (flatten (distance_matrix s)) in
  Permutation sorted (flatten (distance_matrix s)) /\
  StronglySorted ascending sorted /\
  (forall x, d_min = Some x -> PrimFloat.eqb x 0 = false ->
             choose_d_min d_min s = ([], Ok x)) /\
  (falsy d_min = true ->
   (forall x, sorted !! (len s + 20)%nat = Some x ->
      Forall (fun y => ascending y x) (take (len s + 20) sorted) /\
      ((0.8 * x <? 1)%float = false ->
       choose_d_min d_min s = ([], Ok (0.8 * x)%float)) /\
      ((0.8 * x <? 1)%float = true ->
       choose_d_min d_min s
       = ([Warn_bond_length ((1 / 0.8) * (0.8 * x))%float], Ok 2.25%float))) /\
   (sorted !! (len s + 20)%nat = None ->
    choose_d_min d_min s = ([], Raise IndexError))).
Proof.
  intros sorted.
  split; [apply np_sort_perm|]. split; [apply np_sort_sorted|]. split.
  { intros x -> Hx. apply choose_d_min_supplied, Hx. }
  intros Hf. rewrite (choose_d_min_automatic _ _ Hf).
  unfold automatic_d_min, item. fold sorted. split.
  - intros x Hx. rewrite Hx. split.
    { exact (proj1 (sorted_lookup _ _ _ (np_sort_sorted _) Hx)). }
    split; intros ->; reflexivity.
  - intros ->. reflexivity.
Qed.

(** The three ways the [try] around [rattle] ends. *)
Lemma rattle_with_retry_spec (b : bond_distorted) (stdev d_min : float)
    (active_atoms : list Z) (kwargs : Kwargs) :
  let s := distorted_structure b in
  let first := rattle s stdev d_min (Some active_atoms) kwargs in
  let out := rattle_with_retry b stdev d_min active_atoms kwargs in
  (forall r, first = Ok r ->
     out = ([Call_rattle d_min (Some active_atoms)], Ok (with_structure b r))) /\
  (forall e, first = Raise e -> contains "attempts" (str_exn e) = false ->
     out = ([Call_rattle d_min (Some active_atoms)], Raise e)) /\
  (forall e x, first = Raise e -> contains "attempts" (str_exn e) = true ->
     np_sort (flatten (distance_matrix s)) !! len s = Some x ->
     let reduced_d_min := (x + 2 * stdev)%float in
     let second := rattle s stdev reduced_d_min (Some active_atoms) kwargs in
     (forall r, second = Ok r ->
        out = ([Call_rattle d_min (Some active_atoms);
                Call_rattle reduced_d_min (Some active_atoms);
                Warn_d_min_reduced d_min reduced_d_min],
               Ok (with_structure b r))) /\
     (forall e', second = Raise e' ->
        out = ([Call_rattle d_min (Some active_atoms);
                Call_rattle reduced_d_min (Some active_atoms)], Raise e'))).
Proof.
  intros s first out. subst out. unfold rattle_with_retry. fold s. fold first.
  split; [intros r ->; reflexivity|]. split.
  - intros e -> ->. reflexivity.
  - intros e x -> -> Hx. unfold item. rewrite Hx. cbv zeta.
    split; [intros r -> | intros e' ->]; reflexivity.
Qed.

(** C6: once the neighbours are bond-distorted and [d_min] is chosen,
    [rattle] is called with that [d_min].  When it succeeds there is no
    second call.  When it fails and the message of the exception does not
    contain "attempts", the exception propagates after that one call.  When
    the message contains "attempts", [rattle] is called once more on the
    same structure with the same atoms and [d_min] set to the entry of the
    sorted distances of the bond-distorted structure that follows its [len]
    smallest entries, plus [2 * stdev]; a success is returned with a warning
    that carries the first and the reduced [d_min], a failure propagates.
    The entry after the diagonal zeros is the smallest distance above
    zero. *)
Theorem apply_rattle_bond_distortions_retry (defect_dict : DefectDict)
    (num_nearest_neighbours : Z) (distortion_factor stdev : float)
    (d_min0 : option float) (active_atoms0 : option (list Z))
    (distorted_element : option string) (verbose : bool) (kwargs : Kwargs)
    (b : bond_distorted) (warned : list event) (d_min : float) :
  distort_neighbours defect_dict num_nearest_neighbours distortion_factor
    distorted_element verbose = Ok b ->
  choose_d_min d_min0 (supercell_structure defect_dict) = (warned, Ok d_min) ->
  let s := distorted_structure b in
  let active_atoms :=
    match active_atoms0 with
    | Some a => a
    | None => default_active_atoms b (supercell_structure defect_dict)
    end in
  let first := rattle s stdev d_min (Some active_atoms) kwargs in
  let out := apply_rattle_bond_distortions defect_dict num_nearest_neighbours
               distortion_factor stdev d_min0 active_atoms0 distorted_element
               verbose kwargs in
  (forall r, first = Ok r ->
     out = (warned ++ [Call_rattle d_min (Some active_atoms)],
            Ok (with_structure b r))) /\
  (forall e, first = Raise e -> contains "attempts" (str_exn e) = false ->
     out = (warned ++ [Call_rattle d_min (Some active_atoms)], Raise e)) /\
  (forall e x, first = Raise e -> contains "attempts" (str_exn e) = true ->
     np_sort (flatten (distance_matrix s)) !! len s = Some x ->
     let reduced_d_min := (x + 2 * stdev)%float in
     let second := rattle s stdev reduced_d_min (Some active_atoms) kwargs in
     (forall r, second = Ok r ->
        out = (warned ++ [Call_rattle d_min (Some active_atoms);
                          Call_rattle reduced_d_min (Some active_atoms);
                          Warn_d_min_reduced d_min reduced_d_min],
               Ok (with_structure b r))) /\
     (forall e', second = Raise e' ->
        out = (warned ++ [Call_rattle d_min (Some active_atoms);
                          Call_rattle reduced_d_min (Some active_atoms)],
               Raise e')) /\
     (length (filter at_most_zero (flatten (distance_matrix s))) = len s ->
      ~ at_most_zero x /\ x ∈ flatten (distance_matrix s) /\
      forall y, y ∈ flatten (distance_matrix s) -> ~ at_most_zero y ->
                ascending x y)).
Proof.
  intros Hb Hd s active_atoms first out.
  assert (Hout : out = (warned ++ (rattle_with_retry b stdev d_min active_atoms kwargs).1,
                        (rattle_with_retry b stdev d_min active_atoms kwargs).2)).
  { subst out. unfold apply_rattle_bond_distortions. rewrite Hb, Hd.
    destruct (rattle_with_retry _ _ _ _ _). reflexivity. }
  destruct (rattle_with_retry_spec b stdev d_min active_atoms kwargs) as (H1 & H2 & H3).
  rewrite Hout. split; [|split].
  - intros r Hr. rewrite (H1 r Hr). reflexivity.
  - intros e He Hne. rewrite (H2 e He Hne). reflexivity.
  - intros e x He Hat Hx reduced_d_min second.
    destruct (H3 e x He Hat Hx) as [H4 H5]. split; [|split].
    + intros r Hr. rewrite (H4 r Hr). reflexivity.
    + intros e' He'. rewrite (H5 e' He'). reflexivity.
    + intros Hlen. exact (smallest_positive _ _ _ Hlen Hx).
Qed.

(** *** The entries of [apply_snb_distortions] *)

Lemma distortion_step_entries (defect_dict : DefectDict) (nn : Z) (stdev : float)
    (d_min : option float) (active : option (list Z)) (el : option string)
    (verbose : bool) (kwargs : Kwargs)
    (acc acc' : distorted_defect) (d : float) (log : list event) :
  distortion_step defect_dict nn stdev d_min active el verbose kwargs acc d
  = (log, Ok acc') ->
  Unperturbed acc' = Unperturbed acc /\
  exists s, distortions acc' = <[label d := s]> (distortions acc).
Proof.
  unfold distortion_step.
  destruct (apply_rattle_bond_distortions _ _ _ _ _ _ _ _ _) as [l [b|e]];
    intros [= _ <-]. simpl. eauto.
Qed.

Lemma distortion_step_ok (defect_dict : DefectDict) (nn : Z) (stdev : float)
    (d_min : option float) (active : option (list Z)) (el : option string)
    (verbose : bool) (kwargs : Kwargs) (acc : distorted_defect) (d : float) :
  is_ok (distortion_step defect_dict nn stdev d_min active el verbose kwargs acc d).2
  = is_ok (apply_rattle_bond_distortions defect_dict nn (1 + (round3 d + 0))%float
             stdev d_min active el verbose kwargs).2.
Proof.
  unfold distortion_step.
  destruct (apply_rattle_bond_distortions _ _ _ _ _ _ _ _ _) as [l [b|e]]; reflexivity.
Qed.

Lemma distortion_loop_entries (defect_dict : DefectDict) (nn : Z) (stdev : float)
    (d_min : option float) (active : option (list Z)) (el : option string)
    (verbose : bool) (kwargs : Kwargs) (bds : list float) :
  forall (acc r : distorted_defect) (log : list event),
    distortion_loop
      (distortion_step defect_dict nn stdev d_min active el verbose kwargs)
      bds acc = (log, Ok r) ->
    Unperturbed r = Unperturbed acc /\
    dom (distortions r)
    = (dom (distortions acc) ∪ list_to_set (map label bds) : gset string).
Proof.
  induction bds as [|d bds IH]; intros acc r log; simpl.
  - intros [= _ <-]. split; [reflexivity | set_solver].
  - destruct (distortion_step _ _ _ _ _ _ _ _ acc d) as [l [acc'|e]] eqn:Hstep;
      [|discriminate].
    destruct (distortion_loop _ bds acc') as [l' r'] eqn:Hloop.
    intros [= _ ->].
    destruct (distortion_step_entries _ _ _ _ _ _ _ _ _ _ _ _ Hstep) as [Hu [s Hs]].
    destruct (IH _ _ _ Hloop) as [Hu' Hd].
    split; [congruence|]. rewrite Hd, Hs, dom_insert_L. set_solver.
Qed.

Lemma distortion_loop_ok (defect_dict : DefectDict) (nn : Z) (stdev : float)
    (d_min : option float) (active : option (list Z)) (el : option string)
    (verbose : bool) (kwargs : Kwargs) (bds : list float) :
  Forall (fun d => is_ok (apply_rattle_bond_distortions defect_dict nn
                            (1 + (round3 d + 0))%float stdev d_min active el
                            verbose kwargs).2 = true) bds ->
  forall acc,
    is_ok (distortion_loop
             (distortion_step defect_dict nn stdev d_min active el verbose kwargs)
             bds acc).2 = true.
Proof.
  induction 1 as [|d bds Hd _ IH]; intros acc; simpl; [reflexivity|].
  rewrite <- (distortion_step_ok _ _ _ _ _ _ _ _ acc) in Hd.
  destruct (distortion_step _ _ _ _ _ _ _ _ acc d) as [l [acc'|e]]; [|discriminate].
  specialize (IH acc'). destruct (distortion_loop _ bds acc'). exact IH.
Qed.

Lemma apply_snb_distortions_unperturbed (defect_dict : DefectDict) (nn : Z)
    (bds : list float) (stdev : float) (d_min : option float)
    (active : option (list Z)) (el : option string) (verbose : bool)
    (kwargs : Kwargs) (log : list event) (r : distorted_defect) :
  apply_snb_distortions defect_dict nn bds stdev d_min active el verbose kwargs
  = (log, Ok r) ->
  Unperturbed r = defect_dict.
Proof.
  unfold apply_snb_distortions. destruct (negb (nn =? 0)).
  - intros Hloop.
    exact (proj1 (distortion_loop_entries _ _ _ _ _ _ _ _ _ _ _ _ Hloop)).
  - destruct (choose_d_min _ _) as [warned [d|e]]; [|discriminate].
    destruct (rattle _ _ _ _ _); [|discriminate].
    intros [= _ <-]. reflexivity.
Qed.

(** C9, as the code has it: a returned result holds the defect dictionary
    it was given under ["Unperturbed"].  With zero neighbours its
    distortions are the single entry ["Rattled"], the rattle of the whole
    defect supercell: [rattle] is given the set of active atoms the caller
    passed and none otherwise, and the defect site is not taken out.  With
    another number of neighbours the labels of its distortions are the
    labels of the configured fractions, one entry per label: as many entries
    as fractions when no two fractions share a label.  The result is
    returned when the rattle, or every bond distortion with its rattle,
    succeeds. *)
Theorem apply_snb_distortions_entries (defect_dict : DefectDict)
    (num_nearest_neighbours : Z) (bond_distortions : list float) (stdev : float)
    (d_min : option float) (active_atoms : option (list Z))
    (distorted_element : option string) (verbose : bool) (kwargs : Kwargs) :
  let out := apply_snb_distortions defect_dict num_nearest_neighbours
               bond_distortions stdev d_min active_atoms distorted_element
               verbose kwargs in
  let structure := supercell_structure defect_dict in
  (forall r, out.2 = Ok r ->
     Unperturbed r = defect_dict /\
     (num_nearest_neighbours = 0 ->
      exists warned d s,
        choose_d_min d_min structure = (warned, Ok d) /\
        rattle structure stdev d active_atoms kwargs = Ok s /\
        out.1 = warned ++ [Call_rattle d active_atoms] /\
        distortions r = {["Rattled" := s]}) /\
     (num_nearest_neighbours <> 0 ->
      dom (distortions r) = (list_to_set (map label bond_distortions) : gset string) /\
      (NoDup (map label bond_distortions) ->
       size (distortions r) = length bond_distortions))) /\
  (num_nearest_neighbours = 0 ->
   forall warned d s,
     choose_d_min d_min structure = (warned, Ok d) ->
     rattle structure stdev d active_atoms kwargs = Ok s ->
     is_ok out.2 = true) /\
  (num_nearest_neighbours <> 0 ->
   Forall (fun d => is_ok (apply_rattle_bond_distortions defect_dict
                             num_nearest_neighbours (1 + (round3 d + 0))%float
                             stdev d_min active_atoms distorted_element verbose
                             kwargs).2 = true) bond_distortions ->
   is_ok out.2 = true).
Proof.
  intros out structure. subst out. unfold apply_snb_distortions. fold structure.
  destruct (Z.eqb_spec num_nearest_neighbours 0) as [Hz|Hnz]; simpl.
  - split; [|split; [|intros Hn; contradiction]].
    + intros r Hr.
      destruct (choose_d_min d_min structure) as [warned [d|e]] eqn:Hd; [|discriminate].
      destruct (rattle structure stdev d active_atoms kwargs) as [s|e] eqn:Hs;
        [|discriminate].
      simpl in Hr. injection Hr as <-. simpl.
      split; [reflexivity|]. split; [|intros Hn; contradiction].
      intros _. exists warned, d, s. rewrite insert_empty. auto.
    + intros _ warned d s -> ->. reflexivity.
  - split; [|split; [intros Hn; contradiction|]].
    + intros r Hr.
      destruct (distortion_loop _ _ _) as [log r'] eqn:Hloop. simpl in Hr. subst r'.
      destruct (distortion_loop_entries _ _ _ _ _ _ _ _ _ _ _ _ Hloop) as [Hu Hd].
      simpl in Hu, Hd. split; [exact Hu|]. split; [intros Hn; contradiction|].
      intros _. rewrite dom_empty_L, (left_id_L ∅ (∪)) in Hd. split; [exact Hd|].
      intros Hnd. rewrite <- size_dom, Hd, size_list_to_set by exact Hnd.
      apply length_map.
    + intros _ Hall. apply distortion_loop_ok, Hall.
Qed.

End RattleFacts.

(** ** The functions run on the chain *)

Section ChainFacts.
Import Numpy Rattle Chain.

Lemma choose_d_min_spec_witness :
  choose_d_min None (cdte 7) = ([], Ok (0.8 * 2)%float).
Proof.
  pose proof (@choose_d_min_spec chain_geometry None (cdte 7))
    as (_ & _ & _ & Hauto).
  destruct (Hauto eq_refl) as [Hx _].
  destruct (Hx 2%float) as (_ & Hok & _); [vm_compute; reflexivity|].
  apply Hok. reflexivity.
Defined.

(** C7 as stated fails: the row has 13 sites and its distance matrix 13
    zeros; twice the number of sites after them stands the distance 4, and
    the code takes the entry 20 places after them, the distance 2. *)
Lemma choose_d_min_counterexample :
  let s := cdte 7 in
  let sorted := np_sort (flatten (chain_distance_matrix s)) in
  length s = 13%nat /\
  length (filter at_most_zero sorted) = 13%nat /\
  sorted !! (13 + 2 * 13)%nat = Some 4%float /\
  sorted !! (13 + 20)%nat = Some 2%float /\
  choose_d_min None s = ([], Ok (0.8 * 2)%float) /\
  (0.8 * 2 =? 0.8 * 4)%float = false.
Proof. vm_compute. repeat split. Qed.

Lemma apply_rattle_bond_distortions_retry_witness :
  exists active_atoms reduced_d_min rattled,
    apply_rattle_bond_distortions vac_1_Cd 2 0.2 0.25 (Some 2.5%float) None None
      false tt
    = ([] ++ [Call_rattle 2.5 (Some active_atoms);
              Call_rattle reduced_d_min (Some active_atoms);
              Warn_d_min_reduced 2.5 reduced_d_min],
       Ok rattled) /\
    (reduced_d_min <? 2.5)%float = true.
Proof.
  eassert (Hb : distort_neighbours vac_1_Cd 2 0.2 None false = Ok _)
    by (vm_compute; reflexivity).
  pose proof (@apply_rattle_bond_distortions_retry chain_geometry
                chain_collaborators vac_1_Cd 2 0.2%float 0.25%float
                (Some 2.5%float) None None false tt _ [] 2.5%float Hb eq_refl)
    as (_ & _ & Hretry).
  edestruct (Hretry (Exception "Exceeded the maximum number of attempts for atom"))
    as (Hok & _); [vm_compute; reflexivity | vm_compute; reflexivity
                  | vm_compute; reflexivity |].
  eexists _, _, _. split; [apply Hok; vm_compute; reflexivity|].
  vm_compute. reflexivity.
Defined.

Lemma apply_snb_distortions_entries_witness :
  exists r,
    (apply_snb_distortions vac_1_Cd 2 [(-0.8)%float; 0.1%float] 0.25 None None
       None false tt).2 = Ok r /\
    size (distortions r) = 2%nat.
Proof.
  pose proof (@apply_snb_distortions_entries chain_geometry chain_collaborators
                vac_1_Cd 2 [(-0.8)%float; 0.1%float] 0.25%float None None None
                false tt)
    as [Hr _].
  eassert (Hout : (apply_snb_distortions vac_1_Cd 2 [(-0.8)%float; 0.1%float]
                     0.25 None None None false tt).2 = Ok _)
    by (vm_compute; reflexivity).
  eexists. split; [exact Hout|].
  assert (Hne : (2 : Z) <> 0) by discriminate.
  refine (proj2 (proj2 (proj2 (Hr _ Hout)) Hne) _).
  apply (bool_decide_unpack _). vm_compute. exact I.
Defined.

(** C9 as stated fails twice.  Two configured fractions with one label leave
    one entry, not one per fraction.  And for the interstitial with zero
    neighbours [rattle] is called on the supercell without a set of active
    atoms, where the bond-distortion branch leaves the defect atom, index
    14, out of the atoms it rattles. *)
Lemma apply_snb_distortions_counterexample :
  (exists r,
     (apply_snb_distortions vac_1_Cd 2 [0.1%float; 0.1%float] 0.25 None None
        None false tt).2 = Ok r /\
     size (distortions r) = 1%nat /\
     length [0.1%float; 0.1%float] = 2%nat) /\
  (exists r,
     apply_snb_distortions Int_Cd_1 0 [0.1%float] 0.25 (Some 0.5%float) None
       None false tt = ([Call_rattle 0.5 None], Ok r) /\
     distortions r = {["Rattled" := supercell_structure Int_Cd_1]}) /\
  (apply_snb_distortions Int_Cd_1 1 [0.1%float] 0.25 (Some 0.5%float) None
     None false tt).1
  = [Call_rattle 0.5 (Some [0; 1; 2; 3; 4; 5; 7; 8; 9; 10; 11; 12; 13])].
Proof.
  split; [|split].
  - eexists. split; [vm_compute; reflexivity|]. split; reflexivity.
  - eexists. split; [vm_compute; reflexivity|]. vm_compute. reflexivity.
  - vm_compute. reflexivity.
Qed.

End ChainFacts.

(** ** The metadata file *)

Section PyDictFacts.
Context {K V : Type} `{EqDecision K}.

Lemma get_set (d : list (K * V)) (k k' : K) (v : V) :
  PyDict.get (PyDict.set d k v) k'
  = if decide (k' = k) then Some v else PyDict.get d k'.
Proof.
  induction d as [|[k0 v0] d IH]; simpl.
  - destruct (decide (k' = k)); reflexivity.
  - destruct (decide (k = k0)) as [->|Hne]; simpl.
    + destruct (decide (k' = k0)); reflexivity.
    + destruct (decide (k' = k0)) as [->|Hne'].
      * destruct (decide (k0 = k)); [congruence | reflexivity].
      * exact IH.
Qed.

Lemma keys_set_present (d : list (K * V)) (k : K) (v v0 : V) :
  PyDict.get d k = Some v0 -> PyDict.keys (PyDict.set d k v) = PyDict.keys d.
Proof.
  induction d as [|[k0 v1] d IH]; simpl; [discriminate|].
  destruct (decide (k = k0)) as [->|Hne]; [reflexivity|].
  intros Hg. simpl. f_equal. exact (IH Hg).
Qed.

Lemma keys_set_incl (d : list (K * V)) (k k' : K) (v : V) :
  k' ∈ PyDict.keys (PyDict.set d k v) -> k' = k \/ k' ∈ PyDict.keys d.
Proof.
  induction d as [|[k0 v0] d IH]; simpl.
  - rewrite list_elem_of_singleton. tauto.
  - destruct (decide (k = k0)) as [->|Hne]; simpl; rewrite !elem_of_cons.
    + tauto.
    + intros [->|Hin]; [tauto|]. destruct (IH Hin); tauto.
Qed.

Lemma mem_keys (d : list (K * V)) (k : K) :
  PyDict.mem d k = true <-> k ∈ PyDict.keys d.
Proof.
  unfold PyDict.mem. induction d as [|[k0 v0] d IH]; simpl.
  - split; [discriminate | intros Hin; inversion Hin].
  - rewrite elem_of_cons. destruct (decide (k = k0)) as [->|Hne]; [tauto|].
    rewrite IH. tauto.
Qed.

Lemma get_map_values {W : Type} (f : K -> V -> W) (d : list (K * V)) (k : K) :
  PyDict.get (map (fun kv => (kv.1, f kv.1 kv.2)) d) k = f k <$> PyDict.get d k.
Proof.
  induction d as [|[k0 v0] d IH]; simpl; [reflexivity|].
  destruct (decide (k = k0)) as [->|Hne]; [reflexivity | exact IH].
Qed.

End PyDictFacts.

Section MetadataFacts.
Import Metadata.

(** The loop over the charges of the new metadata never adds a charge. *)
Lemma combine_charges_keys (filepath defect : string)
    (old_charges : list (pykey * charge_entry)) (todo : list pykey) :
  forall new_charges log d e,
    combine_charges filepath defect old_charges todo new_charges = (log, d, e) ->
    PyDict.keys d = PyDict.keys new_charges.
Proof.
  induction todo as [|charge rest IH]; intros new_charges log d e; simpl.
  - intros [= _ <- _]. reflexivity.
  - destruct (PyDict.mem old_charges charge) eqn:Hmem.
    + destruct (PyDict.get new_charges charge) as [new_entry|] eqn:Hnew;
        [|intros [= _ <- _]; reflexivity].
      destruct (PyDict.get old_charges charge) as [old_entry|];
        [|intros [= _ <- _]; reflexivity].
      destruct (entry_eq new_entry old_entry).
      * intros Hc. rewrite (IH _ _ _ _ Hc). eapply keys_set_present, Hnew.
      * destruct (combine_charges _ _ _ rest new_charges) as [[log' d'] e'] eqn:Hc.
        intros [= _ <- _]. exact (IH _ _ _ _ Hc).
    + unfold PyDict.mem in Hmem.
      destruct (PyDict.get old_charges charge); [discriminate|].
      intros [= _ <- _]. reflexivity.
Qed.

(** A defect of the new metadata keeps exactly its own charges through the
    loop over the defects of the old metadata. *)
Lemma combine_defects_keys (filepath : string)
    (old_defects : list (string * defect_entry)) (todo : list string) :
  forall new_defects log d e defect new_entry,
    combine_defects filepath old_defects todo new_defects = (log, d, e) ->
    PyDict.get new_defects defect = Some new_entry ->
    exists merged,
      PyDict.get d defect = Some merged /\
      PyDict.keys (charges merged) = PyDict.keys (charges new_entry).
Proof.
  induction todo as [|name rest IH]; intros new_defects log d e defect new_entry; simpl.
  - intros [= _ <- _] Hg. eauto.
  - destruct (PyDict.get old_defects name) as [old_entry|];
      [|intros [= _ <- _] Hg; eauto].
    destruct (PyDict.get new_defects name) as [entry|] eqn:Hname.
    + destruct (combine_charges _ _ _ _ _) as [[log1 new_charges] e1] eqn:Hc.
      apply combine_charges_keys in Hc.
      assert (Hstep : forall new_entry,
                 PyDict.get new_defects defect = Some new_entry ->
                 exists merged,
                   PyDict.get (PyDict.set new_defects name
                                 (with_charges entry new_charges)) defect
                   = Some merged /\
                   PyDict.keys (charges merged) = PyDict.keys (charges new_entry)).
      { intros ne Hg. rewrite get_set.
        destruct (decide (defect = name)) as [->|Hne]; [|eauto].
        rewrite Hname in Hg. injection Hg as <-. eexists. split; [reflexivity|].
        exact Hc. }
      destruct e1 as [e1|].
      * intros [= _ <- _] Hg. exact (Hstep _ Hg).
      * destruct (combine_defects _ _ rest _) as [[log' d'] e'] eqn:Hrest.
        intros [= _ <- _] Hg.
        destruct (Hstep _ Hg) as (merged & Hm & Hk).
        destruct (IH _ _ _ _ _ _ Hrest Hm) as (merged' & Hm' & Hk').
        exists merged'. split; [exact Hm' | congruence].
    + intros Hrest Hg. eapply (IH _ _ _ _ _ _ Hrest).
      rewrite get_set. destruct (decide (defect = name)) as [->|Hne]; [congruence|].
      exact Hg.
Qed.

Lemma json_charges_keys (c acc : list (pykey * charge_entry)) (k : pykey) :
  k ∈ PyDict.keys
        (fold_left (fun d kv => PyDict.set d (KStr (str_key kv.1)) (json_entry kv.2))
                   c acc) ->
  k ∈ PyDict.keys acc \/ exists k0, k0 ∈ PyDict.keys c /\ k = KStr (str_key k0).
Proof.
  revert acc. induction c as [|[k0 v0] c IH]; intros acc; simpl; [tauto|].
  intros Hin. destruct (IH _ Hin) as [Hacc|(k1 & Hk1 & ->)].
  - apply keys_set_incl in Hacc as [->|Hacc]; [|tauto].
    right. exists k0. split; [left | reflexivity].
  - right. exists k1. split; [right; exact Hk1 | reflexivity].
Qed.

(** C2 fails on the code: when a defect is in both documents, the merged
    document written to the file holds that defect with the charge states
    of the new document only.  A charge state that only the old file has
    is not in the file afterwards. *)
Theorem write_distortion_metadata_drops_old_charge
    (files : gmap string metadata) (current_datetime : string)
    (new_metadata old_metadata : metadata) (filename output_path defect : string)
    (old_entry new_entry : defect_entry) (charge : string) :
  files !! path_join output_path filename = Some old_metadata ->
  PyDict.get (defects old_metadata) defect = Some old_entry ->
  PyDict.get (defects new_metadata) defect = Some new_entry ->
  PyDict.mem (charges old_entry) (KStr charge) = true ->
  (forall k, k ∈ PyDict.keys (charges new_entry) -> str_key k <> charge) ->
  exists document merged,
    Metadata.files (_write_distortion_metadata files current_datetime new_metadata
                      filename output_path)
    !! path_join output_path filename = Some document /\
    PyDict.get (defects document) defect = Some merged /\
    PyDict.mem (charges merged) (KStr charge) = false.
Proof.
  intros Hfile Hold Hnew Hmem Hfresh.
  unfold _write_distortion_metadata, combine. rewrite Hfile.
  destruct (combine_defects _ _ _ _) as [[log' d] e] eqn:Hloop.
  destruct (combine_defects_keys _ _ _ _ _ _ _ _ _ Hloop Hnew) as (merged & Hm & Hk).
  simpl. rewrite lookup_insert_eq.
  exists (json (with_defects new_metadata d)),
         (with_charges merged (json_charges (charges merged))).
  split; [reflexivity|]. split.
  { unfold json. simpl.
    rewrite (get_map_values (fun _ v => with_charges v (json_charges (charges v)))).
    rewrite Hm. reflexivity. }
  change (charges (with_charges merged (json_charges (charges merged))))
    with (json_charges (charges merged)).
  destruct (PyDict.mem (json_charges (charges merged)) (KStr charge)) eqn:Hin;
    [|reflexivity].
  exfalso. apply mem_keys in Hin. unfold json_charges in Hin.
  apply json_charges_keys in Hin as [Hin|(k0 & Hk0 & Heq)]; [inversion Hin|].
  rewrite Hk in Hk0. injection Heq as Heq. exact (Hfresh k0 Hk0 (eq_sym Heq)).
Qed.

End MetadataFacts.

Section RunsFacts.
Import Metadata Runs.

Lemma write_distortion_metadata_drops_old_charge_witness :
  let w := _write_distortion_metadata on_disk "2022-08-01-12-00" second_run
             "distortion_metadata.json" "." in
  (exists document merged,
     files w !! path_join "." "distortion_metadata.json" = Some document /\
     PyDict.get (defects document) "vac_1_Cd" = Some merged /\
     PyDict.mem (charges merged) (KStr "-1") = false) /\
  emitted w = [Msg_previous_version "distortion_metadata.json" "2022-08-01-12-00";
               Msg_combining "distortion_metadata.json"] /\
  emitted (_write_distortion_metadata on_disk "2022-08-01-12-00"
             second_run_of_class "distortion_metadata.json" ".")
  = [Msg_previous_version "distortion_metadata.json" "2022-08-01-12-00";
     Msg_combining "distortion_metadata.json";
     Warn_metadata_problem "./distortion_metadata.json"].
Proof.
  split; [|split; vm_compute; reflexivity].
  eapply (write_distortion_metadata_drops_old_charge on_disk "2022-08-01-12-00"
            second_run old_file "distortion_metadata.json" "." "vac_1_Cd").
  - vm_compute. reflexivity.
  - reflexivity.
  - reflexivity.
  - reflexivity.
  - intros k Hk. simpl in Hk. apply list_elem_of_singleton in Hk. subst k.
    simpl. discriminate.
Defined.

(** The conflict part of C2 on a run: with another mesh of distortions for
    the charge states of the file, each conflict is warned of and the file
    written holds the new parameters. *)
Example write_distortion_metadata_conflict :
  let w := _write_distortion_metadata on_disk "2022-08-01-12-00" other_mesh_run
             "distortion_metadata.json" "." in
  emitted w
  = [Msg_previous_version "distortion_metadata.json" "2022-08-01-12-00";
     Msg_combining "distortion_metadata.json";
     Warn_metadata_conflict "vac_1_Cd" (KStr "0") "./distortion_metadata.json";
     Warn_metadata_conflict "vac_1_Cd" (KStr "-1") "./distortion_metadata.json"] /\
  files w !! "./distortion_metadata.json" = Some other_mesh_run /\
  files w !! "./distortion_metadata_2022-08-01-12-00.json" = Some old_file.
Proof. vm_compute. repeat split. Qed.

End RunsFacts.

(** ** The class [Distortions] *)

Section DistortionsFacts.
Import ElectronCount Distortions.
Context `{Collaborators}.

(** C5 fails on the code: [oxidation_states] has no default value, so a call
    that leaves it out raises [TypeError] and prints nothing.  A call that
    supplies it prints nothing either, and the instance it returns holds
    the mapping as given; it returns one unless no bond distortions are
    given and [np.arange] raises on the increment, an exception the call
    then raises.  No oxidation state is guessed. *)
Theorem init_oxidation_states (args : arguments) :
  (arg_oxidation_states args = None ->
   __init__ args
   = ([], Raise (TypeError "__init__() missing a required positional argument"))) /\
  (forall defects ox,
     arg_defects_dict args = Some defects ->
     arg_oxidation_states args = Some ox ->
     (__init__ args).1 = [] /\
     (forall this, (__init__ args).2 = Ok this -> oxidation_states this = ox) /\
     (forall e, (__init__ args).2 = Raise e ->
        default [] (arg_bond_distortions args) = [] /\
        np_arange 0 0.601 (default 0.1%float (arg_distortion_increment args))
        = Raise e) /\
     (is_ok (__init__ args).2 = false <->
      default [] (arg_bond_distortions args) = [] /\
      is_ok (np_arange 0 0.601
               (default 0.1%float (arg_distortion_increment args))) = false)).
Proof.
  unfold __init__. split.
  - intros ->. destruct (arg_defects_dict args); reflexivity.
  - intros defects ox -> ->. unfold default_bond_distortions.
    destruct (default [] (arg_bond_distortions args)) as [|x l]; simpl.
    + destruct (np_arange _ _ _) as [mesh|e]; simpl.
      * split; [reflexivity|]. split; [intros this [= <-]; reflexivity|].
        split; [intros e [=]|]. split; [discriminate | intros [_ [=]]].
      * split; [reflexivity|]. split; [intros this [=]|].
        split; [intros e' [= <-]; split; reflexivity|]. split; auto.
    + split; [reflexivity|]. split; [intros this [= <-]; reflexivity|].
      split; [intros e [=]|]. split; [discriminate | intros [[=] _]].
Qed.

Lemma charge_step_structures (verbose : bool) (defect : Rattle.DefectDict)
    (defect_name : string) (distorted_element : option string)
    (number_electrons : Z) (s s' : sweep) (charge : Z) :
  charge_step verbose defect defect_name distorted_element number_electrons s charge
  = (s', None) ->
  exists log dds entry,
    Rattle.apply_snb_distortions defect
      (calc_number_neighbours (number_electrons + charge))
      (bond_distortions (self s)) (stdev (self s))
      (kw_d_min (_mc_rattle_kwargs (self s)))
      (kw_active_atoms (_mc_rattle_kwargs (self s))) distorted_element
      verbose (kw_others (_mc_rattle_kwargs (self s))) = (log, Ok dds) /\
    distorted_defects_dict s' !! defect_name = Some entry /\
    charges entry !! charge
    = Some (Some {| Unperturbed :=
                      Rattle.supercell_structure (Rattle.Unperturbed dds);
                    distortions := Rattle.distortions dds |}) /\
    printed s'
    = printed s
      ++ [Msg_charge_state defect_name charge
            (calc_number_neighbours (number_electrons + charge))]
      ++ log.
Proof.
  unfold charge_step, _get_number_distorted_neighbours,
    num_electrons_charged_defect. simpl.
  destruct (Rattle.apply_snb_distortions _ _ _ _ _ _ _ _ _) as [log [dds|e]];
    [|discriminate].
  unfold set_structures. simpl.
  destruct (distorted_defects_dict s !! defect_name) as [entry|]; [|discriminate].
  destruct (charges entry !! charge); [|discriminate].
  destruct (Rattle.parameters dds) as [p|]; [|discriminate].
  destruct (_update_distortion_metadata _ _ _ _ _ _ _) as [m|e]; [|discriminate].
  intros [= <-]. simpl. eexists log, dds, _.
  split; [reflexivity|]. split; [apply lookup_insert_eq|]. simpl.
  split; [apply lookup_insert_eq|].
  rewrite <- app_assoc. reflexivity.
Qed.

(** C4 fails on the code: for one defect in one charge state, the
    distortions [apply_distortions] returns are the distortions
    [apply_snb_distortions] made, every one of them whatever its shortest
    distance or its elements, and nothing is printed or warned beyond the
    lines of the sweep and of [apply_snb_distortions]. *)
Theorem apply_distortions_keeps_every_distortion (this : Distortions)
    (verbose : bool) (category : string) (defect : Rattle.DefectDict)
    (charge : Z) (s : sweep)
    (returned : gmap string distorted_defect_entry * Metadata.metadata) :
  defects_dict this = [(category, [defect])] ->
  category <> "bulk" ->
  Rattle.charges defect = [charge] ->
  apply_distortions this verbose = (s, Ok returned) ->
  exists distorted_element number_electrons parsed log dds entry,
    _parse_distorted_element (Rattle.name defect) (distorted_elements this)
    = Ok distorted_element /\
    (_parse_number_electrons (Rattle.name defect) (oxidation_states this)
       (dict_number_electrons_user this) defect).2 = Ok number_electrons /\
    (_parse_number_electrons (Rattle.name defect) (oxidation_states this)
       (dict_number_electrons_user this) defect).1.2 = parsed /\
    Rattle.apply_snb_distortions defect
      (calc_number_neighbours (number_electrons + charge))
      (bond_distortions this) (stdev this) (kw_d_min (_mc_rattle_kwargs this))
      (kw_active_atoms (_mc_rattle_kwargs this)) distorted_element verbose
      (kw_others (_mc_rattle_kwargs this)) = (log, Ok dds) /\
    returned.1 !! Rattle.name defect = Some entry /\
    charges entry !! charge
    = Some (Some {| Unperturbed := Rattle.supercell_structure defect;
                    distortions := Rattle.distortions dds |}) /\
    printed s
    = [Msg_distortion_info (bond_distortions this) (stdev this)]
      ++ parsed
      ++ [Msg_charge_state (Rattle.name defect) charge
            (calc_number_neighbours (number_electrons + charge))]
      ++ log.
Proof.
  intros Hdefects Hcategory Hcharges. unfold apply_distortions, comb_defs.
  rewrite Hdefects.
  rewrite filter_cons_True
    by (simpl; destruct (String.eqb_spec category "bulk"); [contradiction | reflexivity]).
  rewrite filter_nil. simpl. unfold defect_step. simpl.
  destruct (_parse_distorted_element _ _) as [el|e]; [|discriminate].
  destruct (_parse_number_electrons _ _ _ _) as [[o parsed] [n|e]]; [|discriminate].
  rewrite Hcharges. simpl.
  destruct (charge_step _ _ _ _ _ _ _) as [s' [e|]] eqn:Hstep; [discriminate|].
  intros [= <- <-].
  destruct (charge_step_structures _ _ _ _ _ _ _ _ Hstep)
    as (log & dds & entry & Hsnb & Hentry & Hcharge & Hprinted).
  simpl in Hsnb, Hprinted.
  exists el, n, parsed, log, dds, entry.
  split; [reflexivity|]. split; [reflexivity|]. split; [reflexivity|].
  split; [exact Hsnb|]. split; [exact Hentry|]. split.
  - rewrite Hcharge, (apply_snb_distortions_unperturbed _ _ _ _ _ _ _ _ _ _ _ Hsnb).
    reflexivity.
  - rewrite Hprinted. reflexivity.
Qed.

End DistortionsFacts.

Section SweepFacts.
Import Numpy Distortions Chain.

Lemma init_oxidation_states_witness :
  __init__ no_oxidation_states
  = ([], Raise (TypeError "__init__() missing a required positional argument")).
Proof.
  apply (proj1 (@init_oxidation_states chain_geometry chain_collaborators
                  no_oxidation_states)).
  reflexivity.
Defined.

Lemma apply_distortions_keeps_every_distortion_witness :
  let run := apply_distortions short_bonds_sweep true in
  let returned := value run.2 (∅, distortion_metadata short_bonds_sweep) in
  exists entry kept short x,
    (__init__ short_bonds).2 = Ok short_bonds_sweep /\
    run = (run.1, Ok returned) /\
    returned.1 !! "vac_1_Cd" = Some entry /\
    charges entry !! 0 = Some (Some kept) /\
    distortions kept !! "Bond_Distortion_-80.0%" = Some short /\
    np_sort (flatten (chain_distance_matrix short)) !! length short = Some x /\
    (x <? 1)%float = true /\
    existsb (String.eqb "H") (map fst short) = false /\
    existsb is_warning (printed run.1) = false.
Proof.
  intros run returned.
  assert (Hrun : run = (run.1, Ok returned)) by (vm_compute; reflexivity).
  destruct (@apply_distortions_keeps_every_distortion chain_geometry
              chain_collaborators short_bonds_sweep true "vacancies"
              neutral_vacancy 0 _ _ eq_refl ltac:(discriminate) eq_refl Hrun)
    as (el & n & parsed & log & dds & entry & Hel & Hn & _ & Hsnb & Hentry
        & Hcharge & _).
  assert (Hel' : el = None) by (vm_compute in Hel; congruence).
  assert (Hn' : n = 2) by (vm_compute in Hn; congruence).
  subst el n. apply (f_equal snd) in Hsnb.
  change ((Rattle.apply_snb_distortions neutral_vacancy
             (ElectronCount.calc_number_neighbours (2 + 0))
             (bond_distortions short_bonds_sweep) (stdev short_bonds_sweep)
             None None None true tt).2 = Ok dds)
    in Hsnb.
  eexists entry, _, _, _.
  split; [vm_compute; reflexivity|]. split; [exact Hrun|]. split; [exact Hentry|].
  split; [exact Hcharge|]. split.
  { assert (Hlook : forall r q,
              r = Ok dds ->
              match r with
              | Ok d => Rattle.distortions d !! "Bond_Distortion_-80.0%"
              | Raise _ => None
              end = q ->
              Rattle.distortions dds !! "Bond_Distortion_-80.0%" = q)
      by (intros ? ? -> ?; assumption).
    eapply Hlook; [exact Hsnb|]. vm_compute. reflexivity. }
  split; [vm_compute; reflexivity|]. split; [vm_compute; reflexivity|].
  split; vm_compute; reflexivity.
Defined.

(** The sweep over the three charge states of the cadmium vacancy: two
    neighbours for the neutral vacancy, one for charge [-1], none and a
    rattle only for charge [-2]; the oxidation states of the instance have
    gained ["Vac"]. *)
Example sweep_over_charge_states :
  let run := apply_distortions three_charges false in
  List.filter is_charge_state (printed run.1)
  = [Msg_charge_state "vac_1_Cd" 0 2; Msg_charge_state "vac_1_Cd" (-1) 1;
     Msg_charge_state "vac_1_Cd" (-2) 0] /\
  labels_by_charge (value run.2 (∅, distortion_metadata three_charges)).1 "vac_1_Cd"
  = [(-2, ["Rattled"]);
     (-1, ["Bond_Distortion_-30.0%"; "Bond_Distortion_-50.0%"]);
     (0, ["Bond_Distortion_-30.0%"; "Bond_Distortion_-50.0%"])] /\
  is_ok run.2 = true /\
  oxidation_states (self run.1) !! "Vac" = Some 0.
Proof. vm_compute. repeat split. Qed.

(** Writing the metadata of that sweep twice: the second call finds the
    file of the first, whose charges are [str] keys, looks up its own [int]
    keys in it and gives the merge up. *)
Example sweep_written_twice :
  let this := self (apply_distortions three_charges false).1 in
  let first := write_distortion_metadata this ∅ "2022-08-01-12-00" "." in
  let second :=
    write_distortion_metadata this (Metadata.files first) "2022-08-01-12-05" "." in
  Metadata.emitted first = [] /\
  Metadata.emitted second
  = [Msg_previous_version "distortion_metadata.json" "2022-08-01-12-05";
     Msg_combining "distortion_metadata.json";
     Warn_metadata_problem "./distortion_metadata.json"].
Proof. vm_compute. split; reflexivity. Qed.

End SweepFacts.

(** ** More on the electron count *)

Section ElectronCountMore.
Import ElectronCount.

(** X1: for a defect whose site species is not ["Vac"] and has the
    oxidation state [b], [calc_number_electrons] returns [b] for a vacancy
    and [- b] for an interstitial.  The value the caller's oxidation states
    hold under ["Vac"] has no effect on what is returned: the call overwrites
    the key before it reads it. *)
Theorem calc_number_electrons_by_kind (d : DefectSpecies) (ox : gmap string Z)
    (v : bool) (b : Z) :
  site_specie d <> "Vac" ->
  ox !! site_specie d = Some b ->
  (defect_type d = "vacancy" -> returned (calc_number_electrons d ox v) = Ok b) /\
  (defect_type d = "interstitial" ->
   returned (calc_number_electrons d ox v) = Ok (- b)) /\
  (forall z, returned (calc_number_electrons d (<["Vac" := z]> ox) v)
             = returned (calc_number_electrons d ox v)).
Proof.
  intros Hsite Hb.
  assert (Hb' : <["Vac" := 0]> ox !! site_specie d = Some b).
  { rewrite lookup_insert_ne by congruence. exact Hb. }
  assert (Hvac : <["Vac" := 0]> ox !! "Vac" = Some 0) by apply lookup_insert_eq.
  split; [|split].
  - intros Hk.
    rewrite (calc_number_electrons_ok d ox v (site_specie d) "Vac" 0 b);
      [f_equal; lia | | exact Hvac | exact Hb'].
    unfold species_of. rewrite Hk. reflexivity.
  - intros Hk.
    rewrite (calc_number_electrons_ok d ox v "Vac" (site_specie d) b 0);
      [f_equal; lia | | exact Hb' | exact Hvac].
    unfold species_of. rewrite Hk. reflexivity.
  - intros z. unfold calc_number_electrons. rewrite insert_insert_eq. reflexivity.
Qed.

Lemma calc_number_electrons_by_kind_witness :
  returned (calc_number_electrons (Rattle.species_keys Chain.vac_1_Cd)
              Chain.CdTe_oxidation_states false) = Ok 2 /\
  returned (calc_number_electrons (Rattle.species_keys Chain.Int_Cd_1)
              Chain.CdTe_oxidation_states false) = Ok (- 2).
Proof.
  split.
  - apply (calc_number_electrons_by_kind (Rattle.species_keys Chain.vac_1_Cd)
             Chain.CdTe_oxidation_states false 2); [discriminate | reflexivity | reflexivity].
  - apply (calc_number_electrons_by_kind (Rattle.species_keys Chain.Int_Cd_1)
             Chain.CdTe_oxidation_states false 2); [discriminate | reflexivity | reflexivity].
Defined.

(** X2: a second call on the oxidation states the first call left
    returns or raises what the first did and leaves the dictionary as it
    is.  A call prints at most one line, and none exactly when it is not
    verbose or it raises. *)
Theorem calc_number_electrons_again (d : DefectSpecies) (ox : gmap string Z)
    (v v' : bool) :
  let first := calc_number_electrons d ox v in
  let second := calc_number_electrons d (oxidation_states_after first) v' in
  returned second = returned first /\
  oxidation_states_after second = oxidation_states_after first /\
  (stdout first = [] <-> v = false \/ is_ok (returned first) = false) /\
  (length (stdout first) <= 1)%nat.
Proof.
  intros first second. subst first second.
  rewrite !calc_number_electrons_after.
  split; [|split; [|split]].
  - unfold calc_number_electrons. rewrite insert_insert_eq.
    destruct (species_of d) as [[site subst]|e]; [|reflexivity].
    destruct (getitem _ subst); [|reflexivity].
    destruct (getitem _ site); reflexivity.
  - apply insert_insert_eq.
  - unfold calc_number_electrons.
    destruct (species_of d) as [[site subst]|e]; [|simpl; tauto].
    destruct (getitem _ subst); [|simpl; tauto].
    destruct (getitem _ site); [|simpl; tauto].
    destruct v; simpl; split; try tauto; try discriminate.
    intros [?|?]; discriminate.
  - unfold calc_number_electrons.
    destruct (species_of d) as [[site subst]|e]; [|simpl; lia].
    destruct (getitem _ subst); [|simpl; lia].
    destruct (getitem _ site); [|simpl; lia].
    destruct v; simpl; lia.
Qed.

(** X3: [_get_number_distorted_neighbours] gives zero neighbours, the
    case in which the defect is only rattled, exactly when the electron
    count plus the charge is 0, 8 or -8. *)
Theorem no_distorted_neighbours (defect_name : string) (number_electrons charge : Z) :
  (_get_number_distorted_neighbours defect_name number_electrons charge).2 = 0
  <-> number_electrons + charge = 0 \/ number_electrons + charge = 8
      \/ number_electrons + charge = -8.
Proof.
  unfold _get_number_distorted_neighbours, num_electrons_charged_defect. simpl.
  destruct (calc_number_neighbours_cases (number_electrons + charge)) as [[H1 ->]|[H1 ->]];
    lia.
Qed.

End ElectronCountMore.

(** ** More on the rattle of one distortion *)

Section RattleMore.
Import Numpy Rattle.
Context `{Collaborators}.

(** X4: when the caller passes no active atoms, the atoms that
    [apply_rattle_bond_distortions] lets [rattle] move are the indices of the
    supercell, counted from 0, that are neither a distorted neighbour nor
    the defect site (both are stored counted from 1), each index once. *)
Theorem default_active_atoms_spec (b : bond_distorted) (s : Structure) :
  (forall i : Z,
     i ∈ default_active_atoms b s <->
     0 <= i < Z.of_nat (len s) /\
     (forall a, a ∈ distorted_atoms b -> atom_index a - 1 <> i) /\
     defect_site_index b <> Some (i + 1)) /\
  NoDup (default_active_atoms b s).
Proof.
  unfold default_active_atoms. split.
  - intros i. rewrite list_elem_of_filter, negb_true_iff.
    rewrite <- not_true_iff_false, existsb_exists.
    assert (Hseq : (exists y : nat, i = Z.of_nat y /\ y ∈ seq 0 (len s))
                   <-> 0 <= i < Z.of_nat (len s)).
    { split.
      - intros (y & -> & Hy). apply elem_of_seq in Hy. lia.
      - intros Hi. exists (Z.to_nat i). split; [lia|]. apply elem_of_seq. lia. }
    change (map Z.of_nat (seq 0 (len s))) with (Z.of_nat <$> seq 0 (len s)).
    rewrite list_elem_of_fmap, Hseq.
    assert (Hin : (exists x, In x (omap (fun i0 : option Z => (fun z => z - 1) <$> i0)
                                     (map (fun a => Some (atom_index a)) (distorted_atoms b)
                                      ++ [defect_site_index b])) /\ (i =? x) = true)
                  <-> (exists a, a ∈ distorted_atoms b /\ atom_index a - 1 = i)
                      \/ defect_site_index b = Some (i + 1)).
    { split.
      - intros (x & Hx & Heq). apply Z.eqb_eq in Heq. subst x.
        apply list_elem_of_In, list_elem_of_omap in Hx as (o & Ho & Hoi).
        apply elem_of_app in Ho as [Ho|Ho].
        + apply list_elem_of_In, in_map_iff in Ho as (a & <- & Ha).
          simpl in Hoi. injection Hoi as Hoi. left. exists a.
          split; [apply list_elem_of_In, Ha | exact Hoi].
        + apply list_elem_of_singleton in Ho. subst o. right.
          destruct (defect_site_index b) as [z|]; [|discriminate].
          simpl in Hoi. injection Hoi as Hoi. f_equal. lia.
      - intros [(a & Ha & Hai)|Hd].
        + exists i. split; [|apply Z.eqb_refl].
          apply list_elem_of_In, list_elem_of_omap. exists (Some (atom_index a)).
          split; [|simpl; f_equal; exact Hai].
          apply elem_of_app. left. apply list_elem_of_In, in_map_iff.
          exists a. split; [reflexivity | apply list_elem_of_In, Ha].
        + exists i. split; [|apply Z.eqb_refl].
          apply list_elem_of_In, list_elem_of_omap. exists (Some (i + 1)).
          split; [|simpl; f_equal; lia].
          apply elem_of_app. right. rewrite Hd. apply list_elem_of_singleton. reflexivity. }
    rewrite Hin. split.
    + intros [Hno Hi]. split; [exact Hi|]. split.
      * intros a Ha Heq. apply Hno. left. eauto.
      * intros Heq. apply Hno. right. exact Heq.
    + intros (Hi & Hd & Hs). split; [|exact Hi].
      intros [(a & Ha & Hai)|Heq]; [exact (Hd a Ha Hai) | exact (Hs Heq)].
  - apply NoDup_filter.
    change (map Z.of_nat (seq 0 (len s))) with (Z.of_nat <$> seq 0 (len s)).
    apply NoDup_fmap_2; [intros x y Hxy; lia | apply NoDup_seq].
Qed.

(** X5: a [d_min] that is chosen automatically (none supplied, or zero)
    is never below 1: it is the value computed, without a warning, or 2.25
    after the one warning. *)
Theorem automatic_d_min_floor (d_min : option float) (s : Structure)
    (log : list event) (d : float) :
  falsy d_min = true ->
  choose_d_min d_min s = (log, Ok d) ->
  (d <? 1)%float = false /\
  (log = [] \/ exists x, log = [Warn_bond_length x] /\ d = 2.25%float).
Proof.
  intros Hf. rewrite (choose_d_min_automatic _ _ Hf). unfold automatic_d_min.
  destruct (item _ _) as [x|e]; [|discriminate].
  destruct (0.8 * x <? 1)%float eqn:Hx; intros [= <- <-].
  - split; [reflexivity|]. right. eauto.
  - split; [exact Hx|]. left. reflexivity.
Qed.

(** X6: the automatic choice of [d_min] reads the entry at index
    [len + 20] of the [len * len] sorted distances, so for a square distance
    matrix it raises [IndexError] exactly for the supercells of at most five
    sites; with more sites it returns a value. *)
Theorem automatic_d_min_small_supercell (s : Structure) :
  length (flatten (distance_matrix s)) = (len s * len s)%nat ->
  (automatic_d_min s = ([], Raise IndexError) <-> (len s <= 5)%nat) /\
  ((5 < len s)%nat -> exists log d, automatic_d_min s = (log, Ok d)).
Proof.
  intros Hsq. unfold automatic_d_min, item.
  pose proof (Permutation_length (np_sort_perm (flatten (distance_matrix s)))) as Hlen.
  rewrite Hsq in Hlen.
  destruct (np_sort (flatten (distance_matrix s)) !! (len s + 20)%nat) as [x|] eqn:Hx.
  - apply lookup_lt_Some in Hx. rewrite Hlen in Hx.
    assert (Hbig : (5 < len s)%nat) by nia.
    split.
    + split; [|lia]. destruct (0.8 * x <? 1)%float; discriminate.
    + intros _. destruct (0.8 * x <? 1)%float; eauto.
  - apply lookup_ge_None in Hx. rewrite Hlen in Hx.
    assert (Hsmall : (len s <= 5)%nat) by nia.
    split; [tauto | lia].
Qed.

(** X7: one call of [apply_rattle_bond_distortions] calls [rattle] at
    most twice.  When the bond distortion raises, the exception is raised
    and nothing is logged; when the choice of [d_min] raises, the exception
    is raised and [rattle] is not called; a call that returns has called
    [rattle] at least once. *)
Theorem rattle_called_at_most_twice (defect_dict : DefectDict)
    (num_nearest_neighbours : Z) (distortion_factor stdev : float)
    (d_min : option float) (active_atoms : option (list Z))
    (distorted_element : option string) (verbose : bool) (kwargs : Kwargs) :
  let out := apply_rattle_bond_distortions defect_dict num_nearest_neighbours
               distortion_factor stdev d_min active_atoms distorted_element
               verbose kwargs in
  (length (List.filter is_call_rattle out.1) <= 2)%nat /\
  (forall e,
     distort_neighbours defect_dict num_nearest_neighbours distortion_factor
       distorted_element verbose = Raise e ->
     out = ([], Raise e)) /\
  (forall b e,
     distort_neighbours defect_dict num_nearest_neighbours distortion_factor
       distorted_element verbose = Ok b ->
     (choose_d_min d_min (supercell_structure defect_dict)).2 = Raise e ->
     out.2 = Raise e /\ List.filter is_call_rattle out.1 = []) /\
  (is_ok out.2 = true -> (1 <= length (List.filter is_call_rattle out.1))%nat).
Proof.
  intros out. subst out. unfold apply_rattle_bond_distortions.
  destruct (distort_neighbours _ _ _ _ _) as [b|e0].
  2:{ simpl. split; [lia|]. split; [intros e [= <-]; reflexivity|].
      split; [intros b e [=] | intros [=]]. }
  assert (Hw : forall d_min s log r, choose_d_min d_min s = (log, r) ->
                 List.filter is_call_rattle log = []).
  { intros dm s log r. unfold choose_d_min, automatic_d_min.
    destruct dm as [x|]; [destruct (falsy (Some x))|];
      repeat match goal with
             | |- context [item ?a ?i] => destruct (item a i)
             | |- context [(?a <? ?b)%float] => destruct (a <? b)%float
             end; intros [= <- <-]; reflexivity. }
  destruct (choose_d_min d_min _) as [warned [d|e1]] eqn:Hd; apply Hw in Hd.
  2:{ simpl. rewrite Hd. simpl. split; [lia|]. split; [intros e [=]|].
      split; [intros b0 e _ [= <-]; split; reflexivity | intros [=]]. }
  set (active := match active_atoms with Some a => a | None => _ end).
  unfold rattle_with_retry.
  repeat match goal with
         | |- context [rattle ?a ?b ?c ?d ?e] => destruct (rattle a b c d e)
         | |- context [contains ?a ?b] => destruct (contains a b)
         | |- context [item ?a ?i] => destruct (item a i)
         end; simpl; rewrite List.filter_app, Hd; simpl;
    (split; [lia|]); (split; [intros ? [=]|]);
    (split; [intros ? ? _ [=]|]); intros Hok; first [discriminate Hok | lia].
Qed.

End RattleMore.

Section RattleMoreFacts.
Import Numpy Rattle Chain.

Lemma automatic_d_min_floor_witness :
  (2.25 <? 1)%float = false /\
  exists x, automatic_d_min (map (fun a => (a.1, (a.2 * 0.5)%float)) (cdte 7))
            = ([Warn_bond_length x], Ok 2.25%float).
Proof.
  pose proof (@automatic_d_min_floor chain_geometry None
                (map (fun a => (a.1, (a.2 * 0.5)%float)) (cdte 7))
                [Warn_bond_length ((1 / 0.8) * (0.8 * 1))%float] 2.25%float eq_refl) as Hf.
  destruct Hf as [Hlt _]; [vm_compute; reflexivity|].
  split; [exact Hlt|]. eexists. vm_compute. reflexivity.
Defined.

Lemma automatic_d_min_small_supercell_witness :
  automatic_d_min Small.five_sites = ([], Raise IndexError) /\
  exists log d, automatic_d_min Small.six_sites = (log, Ok d).
Proof.
  split.
  - apply (@automatic_d_min_small_supercell chain_geometry Small.five_sites);
      [reflexivity | vm_compute; lia].
  - apply (@automatic_d_min_small_supercell chain_geometry Small.six_sites);
      [reflexivity | vm_compute; lia].
Defined.

End RattleMoreFacts.

Section RattleCalls.
Import Numpy Rattle Chain.

Lemma rattle_called_at_most_twice_witness :
  let out := apply_rattle_bond_distortions vac_1_Cd 2 0.5 0.25 None None None
               false tt in
  (1 <= length (List.filter is_call_rattle out.1) <= 2)%nat.
Proof.
  intros out.
  destruct (rattle_called_at_most_twice vac_1_Cd 2 0.5%float 0.25%float None None
              None false tt) as (Hle & _ & _ & Hge).
  split; [apply Hge; vm_compute; reflexivity | exact Hle].
Defined.

End RattleCalls.

(** ** More on the distortions of one defect *)

Section SnbMore.
Import Numpy Rattle.
Context `{Collaborators}.

(** What one pass of the loop files, in terms of the call it makes. *)
Lemma distortion_step_result (defect_dict : DefectDict) (nn : Z) (stdev : float)
    (d_min : option float) (active : option (list Z)) (el : option string)
    (verbose : bool) (kwargs : Kwargs)
    (acc acc' : distorted_defect) (d : float) (log : list event) :
  distortion_step defect_dict nn stdev d_min active el verbose kwargs acc d
  = (log, Ok acc') ->
  exists b,
    (apply_rattle_bond_distortions defect_dict nn (1 + (round3 d + 0))%float
       stdev d_min active el verbose kwargs).2 = Ok b /\
    distortions acc' = <[label d := distorted_structure b]> (distortions acc) /\
    parameters acc'
    = Some {| dp_unique_site := bulk_supercell_site defect_dict;
              num_distorted_neighbours := nn;
              dp_distorted_atoms := Some (distorted_atoms b);
              dp_defect_site_index := truthy_index (defect_site_index b) |}.
Proof.
  unfold distortion_step.
  destruct (apply_rattle_bond_distortions _ _ _ _ _ _ _ _ _) as [l [b|e]];
    intros [= _ <-]. exists b. simpl. auto.
Qed.

Lemma distortion_step_raise (defect_dict : DefectDict) (nn : Z) (stdev : float)
    (d_min : option float) (active : option (list Z)) (el : option string)
    (verbose : bool) (kwargs : Kwargs) (acc : distorted_defect) (d : float) (e : exn) :
  (apply_rattle_bond_distortions defect_dict nn (1 + (round3 d + 0))%float
     stdev d_min active el verbose kwargs).2 = Raise e ->
  (distortion_step defect_dict nn stdev d_min active el verbose kwargs acc d).2
  = Raise e.
Proof.
  unfold distortion_step.
  destruct (apply_rattle_bond_distortions _ _ _ _ _ _ _ _ _) as [l [b|e']];
    simpl; intros Hr; [discriminate | congruence].
Qed.

Lemma distortion_loop_all_ok (defect_dict : DefectDict) (nn : Z) (stdev : float)
    (d_min : option float) (active : option (list Z)) (el : option string)
    (verbose : bool) (kwargs : Kwargs) (bds : list float) :
  forall acc,
    is_ok (distortion_loop
             (distortion_step defect_dict nn stdev d_min active el verbose kwargs)
             bds acc).2 = true ->
    Forall (fun d => is_ok (apply_rattle_bond_distortions defect_dict nn
                              (1 + (round3 d + 0))%float stdev d_min active el
                              verbose kwargs).2 = true) bds.
Proof.
  induction bds as [|d bds IH]; intros acc; simpl; [constructor|].
  pose proof (distortion_step_ok defect_dict nn stdev d_min active el verbose
                kwargs acc d) as Hd.
  destruct (distortion_step _ _ _ _ _ _ _ _ acc d) as [l [acc'|e]]; [|discriminate].
  specialize (IH acc'). destruct (distortion_loop _ bds acc') as [l' r'].
  intros Hok. constructor; [symmetry; exact Hd | exact (IH Hok)].
Qed.

Lemma distortion_loop_first_failure (defect_dict : DefectDict) (nn : Z)
    (stdev : float) (d_min : option float) (active : option (list Z))
    (el : option string) (verbose : bool) (kwargs : Kwargs)
    (pre : list float) (d : float) (post : list float) (e : exn) :
  Forall (fun d => is_ok (apply_rattle_bond_distortions defect_dict nn
                            (1 + (round3 d + 0))%float stdev d_min active el
                            verbose kwargs).2 = true) pre ->
  (apply_rattle_bond_distortions defect_dict nn (1 + (round3 d + 0))%float
     stdev d_min active el verbose kwargs).2 = Raise e ->
  forall acc,
    (distortion_loop
       (distortion_step defect_dict nn stdev d_min active el verbose kwargs)
       (pre ++ d :: post) acc).2 = Raise e.
Proof.
  intros Hpre He. induction Hpre as [|x pre Hx _ IH]; intros acc; simpl.
  - pose proof (distortion_step_raise defect_dict nn stdev d_min active el verbose
                  kwargs acc d e He) as Hs.
    destruct (distortion_step _ _ _ _ _ _ _ _ acc d) as [l [acc'|e']];
      simpl in Hs; [discriminate | exact Hs].
  - rewrite <- (distortion_step_ok _ _ _ _ _ _ _ _ acc) in Hx.
    destruct (distortion_step _ _ _ _ _ _ _ _ acc x) as [l [acc'|e']]; [|discriminate].
    specialize (IH acc'). destruct (distortion_loop _ (pre ++ d :: post) acc').
    exact IH.
Qed.

(** X8: with a number of neighbours other than zero,
    [apply_snb_distortions] returns exactly when every configured fraction
    can be distorted and rattled; otherwise it raises the exception of the
    first fraction that fails. *)
Theorem apply_snb_distortions_first_failure (defect_dict : DefectDict)
    (num_nearest_neighbours : Z) (bond_distortions : list float) (stdev : float)
    (d_min : option float) (active_atoms : option (list Z))
    (distorted_element : option string) (verbose : bool) (kwargs : Kwargs) :
  num_nearest_neighbours <> 0 ->
  let attempt d :=
    (apply_rattle_bond_distortions defect_dict num_nearest_neighbours
       (1 + (round3 d + 0))%float stdev d_min active_atoms distorted_element
       verbose kwargs).2 in
  let out := apply_snb_distortions defect_dict num_nearest_neighbours
               bond_distortions stdev d_min active_atoms distorted_element
               verbose kwargs in
  (is_ok out.2 = true <-> Forall (fun d => is_ok (attempt d) = true) bond_distortions) /\
  (forall pre d post e,
     bond_distortions = pre ++ d :: post ->
     Forall (fun d => is_ok (attempt d) = true) pre ->
     attempt d = Raise e ->
     out.2 = Raise e).
Proof.
  intros Hnz attempt out. subst out attempt. unfold apply_snb_distortions.
  destruct (Z.eqb_spec num_nearest_neighbours 0) as [Hz|_]; [contradiction|]. simpl.
  split; [split|].
  - apply distortion_loop_all_ok.
  - intros Hall. apply distortion_loop_ok, Hall.
  - intros pre d post e -> Hpre He. apply distortion_loop_first_failure; assumption.
Qed.

Lemma distortion_loop_other (defect_dict : DefectDict) (nn : Z) (stdev : float)
    (d_min : option float) (active : option (list Z)) (el : option string)
    (verbose : bool) (kwargs : Kwargs) (bds : list float) (k : string) :
  k ∉ map label bds ->
  forall (acc r : distorted_defect) (log : list event),
    distortion_loop
      (distortion_step defect_dict nn stdev d_min active el verbose kwargs)
      bds acc = (log, Ok r) ->
    distortions r !! k = distortions acc !! k.
Proof.
  induction bds as [|d bds IH]; intros Hk acc r log; simpl.
  - intros [= _ <-]. reflexivity.
  - destruct (distortion_step _ _ _ _ _ _ _ _ acc d) as [l [acc'|e]] eqn:Hstep;
      [|discriminate].
    destruct (distortion_loop _ bds acc') as [l' r'] eqn:Hloop.
    intros [= _ ->]. simpl in Hk. apply not_elem_of_cons in Hk as [Hne Hk].
    rewrite (IH Hk _ _ _ Hloop).
    destruct (distortion_step_result _ _ _ _ _ _ _ _ _ _ _ _ Hstep) as (b & _ & -> & _).
    apply lookup_insert_ne. congruence.
Qed.

Lemma distortion_loop_last (defect_dict : DefectDict) (nn : Z) (stdev : float)
    (d_min : option float) (active : option (list Z)) (el : option string)
    (verbose : bool) (kwargs : Kwargs) (pre : list float) (d : float)
    (post : list float) :
  label d ∉ map label post ->
  forall (acc r : distorted_defect) (log : list event),
    distortion_loop
      (distortion_step defect_dict nn stdev d_min active el verbose kwargs)
      (pre ++ d :: post) acc = (log, Ok r) ->
    exists b,
      (apply_rattle_bond_distortions defect_dict nn (1 + (round3 d + 0))%float
         stdev d_min active el verbose kwargs).2 = Ok b /\
      distortions r !! label d = Some (distorted_structure b).
Proof.
  intros Hd. induction pre as [|x pre IH]; intros acc r log; simpl.
  - destruct (distortion_step _ _ _ _ _ _ _ _ acc d) as [l [acc'|e]] eqn:Hstep;
      [|discriminate].
    destruct (distortion_loop _ post acc') as [l' r'] eqn:Hloop.
    intros [= _ ->].
    destruct (distortion_step_result _ _ _ _ _ _ _ _ _ _ _ _ Hstep) as (b & Hb & Hs & _).
    exists b. split; [exact Hb|].
    rewrite (distortion_loop_other _ _ _ _ _ _ _ _ _ _ Hd _ _ _ Hloop), Hs.
    apply lookup_insert_eq.
  - destruct (distortion_step _ _ _ _ _ _ _ _ acc x) as [l [acc'|e]]; [|discriminate].
    destruct (distortion_loop _ (pre ++ d :: post) acc') as [l' r'] eqn:Hloop.
    intros [= _ ->]. exact (IH _ _ _ Hloop).
Qed.

Lemma distortion_loop_parameters (defect_dict : DefectDict) (nn : Z) (stdev : float)
    (d_min : option float) (active : option (list Z)) (el : option string)
    (verbose : bool) (kwargs : Kwargs) (pre : list float) (d : float) :
  forall (acc r : distorted_defect) (log : list event),
    distortion_loop
      (distortion_step defect_dict nn stdev d_min active el verbose kwargs)
      (pre ++ [d]) acc = (log, Ok r) ->
    exists b,
      (apply_rattle_bond_distortions defect_dict nn (1 + (round3 d + 0))%float
         stdev d_min active el verbose kwargs).2 = Ok b /\
      parameters r
      = Some {| dp_unique_site := bulk_supercell_site defect_dict;
                num_distorted_neighbours := nn;
                dp_distorted_atoms := Some (distorted_atoms b);
                dp_defect_site_index := truthy_index (defect_site_index b) |}.
Proof.
  induction pre as [|x pre IH]; intros acc r log; simpl.
  - destruct (distortion_step _ _ _ _ _ _ _ _ acc d) as [l [acc'|e]] eqn:Hstep;
      [|discriminate].
    intros [= _ <-].
    destruct (distortion_step_result _ _ _ _ _ _ _ _ _ _ _ _ Hstep) as (b & Hb & _ & Hp).
    eauto.
  - destruct (distortion_step _ _ _ _ _ _ _ _ acc x) as [l [acc'|e]]; [|discriminate].
    destruct (distortion_loop _ (pre ++ [d]) acc') as [l' r'] eqn:Hloop.
    intros [= _ ->]. exact (IH _ _ _ Hloop).
Qed.

(** X9: in a result returned for a number of neighbours other than
    zero, the entry under the label of a fraction is the structure that
    [apply_rattle_bond_distortions] returned for the factor [1 + fraction],
    for the last fraction with that label; the distortion parameters are
    those of the last fraction; without a fraction there are neither
    distortions nor parameters. *)
Theorem apply_snb_distortions_structures (defect_dict : DefectDict)
    (num_nearest_neighbours : Z) (bond_distortions : list float) (stdev : float)
    (d_min : option float) (active_atoms : option (list Z))
    (distorted_element : option string) (verbose : bool) (kwargs : Kwargs)
    (r : distorted_defect) :
  num_nearest_neighbours <> 0 ->
  (apply_snb_distortions defect_dict num_nearest_neighbours bond_distortions
     stdev d_min active_atoms distorted_element verbose kwargs).2 = Ok r ->
  let attempt d :=
    (apply_rattle_bond_distortions defect_dict num_nearest_neighbours
       (1 + (round3 d + 0))%float stdev d_min active_atoms distorted_element
       verbose kwargs).2 in
  (forall pre d post,
     bond_distortions = pre ++ d :: post ->
     label d ∉ map label post ->
     exists b, attempt d = Ok b /\
               distortions r !! label d = Some (distorted_structure b)) /\
  (forall pre d,
     bond_distortions = pre ++ [d] ->
     exists b, attempt d = Ok b /\
               parameters r
               = Some {| dp_unique_site := bulk_supercell_site defect_dict;
                         num_distorted_neighbours := num_nearest_neighbours;
                         dp_distorted_atoms := Some (distorted_atoms b);
                         dp_defect_site_index :=
                           truthy_index (defect_site_index b) |}) /\
  (bond_distortions = [] -> distortions r = ∅ /\ parameters r = None).
Proof.
  intros Hnz. unfold apply_snb_distortions.
  destruct (Z.eqb_spec num_nearest_neighbours 0) as [Hz|_]; [contradiction|]. simpl.
  destruct (distortion_loop _ _ _) as [log r'] eqn:Hloop. simpl. intros ->.
  split; [|split].
  - intros pre d post -> Hd. exact (distortion_loop_last _ _ _ _ _ _ _ _ _ _ _ Hd _ _ _ Hloop).
  - intros pre d ->. exact (distortion_loop_parameters _ _ _ _ _ _ _ _ _ _ _ _ _ Hloop).
  - intros ->. simpl in Hloop. injection Hloop as _ <-. split; reflexivity.
Qed.

End SnbMore.

Section SnbMoreFacts.
Import Numpy Rattle Chain.

Lemma apply_snb_distortions_first_failure_witness :
  (apply_snb_distortions vac_1_Cd 2 [0.1%float; (-0.3)%float; 0.2%float] (-1) None
     None None false tt).2
  = Raise (ValueError "scale < 0").
Proof.
  refine (proj2 (@apply_snb_distortions_first_failure chain_geometry
                   chain_collaborators vac_1_Cd 2
                   [0.1%float; (-0.3)%float; 0.2%float] (-1)%float None None None
                   false tt _) [] 0.1%float [(-0.3)%float; 0.2%float] _ eq_refl _ _).
  - discriminate.
  - constructor.
  - vm_compute. reflexivity.
Defined.

Lemma apply_snb_distortions_structures_witness :
  exists r b,
    (apply_snb_distortions vac_1_Cd 2 [0.1%float; (-0.3)%float] 0.25 None None
       None false tt).2 = Ok r /\
    (apply_rattle_bond_distortions vac_1_Cd 2 (1 + (chain_round3 (-0.3) + 0))%float
       0.25 None None None false tt).2 = Ok b /\
    distortions r !! "Bond_Distortion_-30.0%" = Some (distorted_structure b).
Proof.
  eassert (Hout : (apply_snb_distortions vac_1_Cd 2 [0.1%float; (-0.3)%float]
                     0.25 None None None false tt).2 = Ok _)
    by (vm_compute; reflexivity).
  pose proof (proj1 (@apply_snb_distortions_structures chain_geometry
                       chain_collaborators vac_1_Cd 2 [0.1%float; (-0.3)%float]
                       0.25%float None None None false tt _ ltac:(discriminate) Hout)
                [0.1%float] (-0.3)%float [] eq_refl) as Hlast.
  destruct Hlast as (b & Hb & Hl); [apply not_elem_of_nil|].
  eexists _, b. split; [exact Hout|]. split; [exact Hb | exact Hl].
Defined.

End SnbMoreFacts.

(** ** More on the metadata file *)

Section PyDictMore.
Context {K V : Type} `{EqDecision K}.

Lemma get_None_keys (d : list (K * V)) (k : K) :
  PyDict.get d k = None <-> k ∉ PyDict.keys d.
Proof.
  rewrite <- mem_keys. unfold PyDict.mem.
  destruct (PyDict.get d k); split; congruence.
Qed.

Lemma get_Some_keys (d : list (K * V)) (k : K) (v : V) :
  PyDict.get d k = Some v -> k ∈ PyDict.keys d.
Proof. intros Hg. apply mem_keys. unfold PyDict.mem. rewrite Hg. reflexivity. Qed.

Lemma keys_get_Some (d : list (K * V)) (k : K) :
  k ∈ PyDict.keys d -> exists v, PyDict.get d k = Some v.
Proof.
  intros Hk. apply mem_keys in Hk. unfold PyDict.mem in Hk.
  destruct (PyDict.get d k) as [v|]; [eauto | discriminate].
Qed.

Lemma get_elem_of (d : list (K * V)) (k : K) (v : V) :
  PyDict.get d k = Some v -> (k, v) ∈ d.
Proof.
  induction d as [|[k0 v0] d IH]; simpl; [discriminate|].
  destruct (decide (k = k0)) as [->|Hne].
  - intros [= ->]. left.
  - intros Hg. right. exact (IH Hg).
Qed.

(** A new key goes last. *)
Lemma set_fresh (d : list (K * V)) (k : K) (v : V) :
  PyDict.get d k = None -> PyDict.set d k v = d ++ [(k, v)].
Proof.
  induction d as [|[k0 v0] d IH]; simpl; [reflexivity|].
  destruct (decide (k = k0)) as [->|Hne]; [discriminate|].
  intros Hg. f_equal. exact (IH Hg).
Qed.

Lemma keys_set_fresh (d : list (K * V)) (k : K) (v : V) :
  PyDict.get d k = None -> PyDict.keys (PyDict.set d k v) = PyDict.keys d ++ [k].
Proof.
  intros Hg. rewrite (set_fresh _ _ _ Hg). unfold PyDict.keys.
  rewrite map_app. reflexivity.
Qed.

Lemma keys_set_NoDup (d : list (K * V)) (k : K) (v : V) :
  NoDup (PyDict.keys d) -> NoDup (PyDict.keys (PyDict.set d k v)).
Proof.
  intros Hd. destruct (PyDict.get d k) as [v0|] eqn:Hg.
  - rewrite (keys_set_present _ _ _ _ Hg). exact Hd.
  - rewrite (keys_set_fresh _ _ _ Hg). apply NoDup_app. split; [exact Hd|].
    split; [|apply NoDup_singleton].
    intros x Hx Hx'. apply list_elem_of_singleton in Hx'. subst x.
    apply get_None_keys in Hg. contradiction.
Qed.

Lemma set_Forall (P : K * V -> Prop) (d : list (K * V)) (k : K) (v : V) :
  Forall P d -> P (k, v) -> Forall P (PyDict.set d k v).
Proof.
  intros Hd Hkv. induction Hd as [|[k0 v0] d Hx Hd IH]; simpl.
  - constructor; [exact Hkv | constructor].
  - destruct (decide (k = k0)); constructor; assumption.
Qed.

Lemma omap_ext_in {A B : Type} (f g : A -> option B) (l : list A) :
  (forall x, x ∈ l -> f x = g x) -> omap f l = omap g l.
Proof.
  induction l as [|x l IH]; intros Hfg; simpl; [reflexivity|].
  rewrite (Hfg x) by left.
  change (list_omap A B f l) with (omap f l).
  change (list_omap A B g l) with (omap g l).
  rewrite IH; [reflexivity|].
  intros y Hy. apply Hfg. right. exact Hy.
Qed.

End PyDictMore.

Section MetadataMore.
Import Metadata.

(** *** The JSON form of a document *)

Lemma json_atom_idem (a : atom) : json_atom (json_atom a) = json_atom a.
Proof. destruct a; reflexivity. Qed.

Lemma json_entry_idem (e : charge_entry) : json_entry (json_entry e) = json_entry e.
Proof.
  unfold json_entry. simpl. f_equal.
  destruct (distorted_atoms e) as [l|]; [|reflexivity]. simpl. f_equal.
  rewrite map_map. apply map_ext. exact json_atom_idem.
Qed.

Lemma json_charges_fold_form (c acc : list (pykey * charge_entry)) :
  json_form acc ->
  json_form (fold_left (fun d kv => PyDict.set d (KStr (str_key kv.1)) (json_entry kv.2))
                       c acc).
Proof.
  revert acc. induction c as [|[k v] c IH]; intros acc Hacc; simpl; [exact Hacc|].
  apply IH. destruct Hacc as [Hnd Hall]. split.
  - apply keys_set_NoDup, Hnd.
  - apply set_Forall; [exact Hall|]. simpl. split; [eauto | apply json_entry_idem].
Qed.

Lemma json_charges_form (c : list (pykey * charge_entry)) : json_form (json_charges c).
Proof.
  apply json_charges_fold_form. split; [constructor | constructor].
Qed.

Lemma json_charges_fold_fixed (c : list (pykey * charge_entry)) :
  forall acc,
    NoDup (PyDict.keys acc ++ PyDict.keys c) ->
    Forall (fun kv => (exists s, kv.1 = KStr s) /\ json_entry kv.2 = kv.2) c ->
    fold_left (fun d kv => PyDict.set d (KStr (str_key kv.1)) (json_entry kv.2)) c acc
    = acc ++ c.
Proof.
  induction c as [|[k v] c IH]; intros acc Hnd Hall; simpl.
  - rewrite app_nil_r. reflexivity.
  - inversion Hall as [|? ? [[s Hs] Hv] Hall']; subst. simpl in Hs, Hv. subst k.
    simpl. rewrite Hv.
    assert (Hfresh : PyDict.get acc (KStr s) = None).
    { apply get_None_keys. intros Hin. simpl in Hnd.
      apply NoDup_app in Hnd as (_ & Hdis & _). apply (Hdis _ Hin). left. }
    rewrite (set_fresh _ _ _ Hfresh), IH; [rewrite <- app_assoc; reflexivity| |exact Hall'].
    unfold PyDict.keys. rewrite map_app. simpl. rewrite <- app_assoc. exact Hnd.
Qed.

Lemma json_charges_idem (c : list (pykey * charge_entry)) :
  json_charges (json_charges c) = json_charges c.
Proof.
  destruct (json_charges_form c) as [Hnd Hall].
  unfold json_charges at 1. rewrite json_charges_fold_fixed; [reflexivity| |exact Hall].
  exact Hnd.
Qed.

(** X10: writing a document to JSON and reading it back is idempotent: a
    second round trip changes nothing.  In what is read back the charge keys
    are [str], each one once, and the atoms are lists. *)
Theorem json_round_trip (m : metadata) :
  json (json m) = json m /\
  (forall defect entry,
     PyDict.get (defects (json m)) defect = Some entry ->
     NoDup (PyDict.keys (charges entry)) /\
     forall k e, (k, e) ∈ charges entry ->
       (exists s, k = KStr s) /\
       forall atoms a, distorted_atoms e = Some atoms -> a ∈ atoms ->
                       exists i s, a = Atom_list i s).
Proof.
  split.
  - unfold json, with_defects. simpl. f_equal. rewrite map_map.
    apply map_ext. intros [name entry]. simpl. unfold with_charges. simpl.
    rewrite json_charges_idem. reflexivity.
  - intros defect entry. unfold json. simpl.
    rewrite (get_map_values (fun _ v => with_charges v (json_charges (charges v)))).
    destruct (PyDict.get (defects m) defect) as [e0|]; [|discriminate].
    intros [= <-]. simpl.
    destruct (json_charges_form (charges e0)) as [Hnd Hall]. split; [exact Hnd|].
    intros k e Hke. rewrite Forall_forall in Hall.
    destruct (Hall _ Hke) as [Hs Hfix]. split; [exact Hs|].
    intros atoms a Hatoms Ha. simpl in Hfix. rewrite <- Hfix in Hatoms.
    unfold json_entry in Hatoms. simpl in Hatoms.
    destruct (distorted_atoms e) as [l|]; [|discriminate].
    simpl in Hatoms. injection Hatoms as <-.
    apply list_elem_of_In, in_map_iff in Ha as (a0 & <- & _).
    destruct a0; simpl; eauto.
Qed.

(** *** The files *)



(** *** Charges in both documents *)

Lemma combine_charges_both_loop (filepath defect : string)
    (old_charges : list (pykey * charge_entry)) (todo : list pykey) :
  forall new_charges,
    NoDup todo ->
    (forall k, k ∈ todo -> PyDict.mem old_charges k = true) ->
    (forall k, k ∈ todo -> k ∈ PyDict.keys new_charges) ->
    let merged k :=
      match PyDict.get new_charges k, PyDict.get old_charges k with
      | Some n, Some o => Some (if entry_eq n o then combined_parameters n o else n)
      | n, _ => n
      end in
    let conflict k :=
      match PyDict.get new_charges k, PyDict.get old_charges k with
      | Some n, Some o =>
        if entry_eq n o then None
        else Some (Warn_metadata_conflict defect k filepath)
      | _, _ => None
      end in
    exists d,
      combine_charges filepath defect old_charges todo new_charges
      = (omap conflict todo, d, None) /\
      forall k, PyDict.get d k
                = if decide (k ∈ todo) then merged k else PyDict.get new_charges k.
Proof.
  induction todo as [|c rest IH]; intros new_charges Hnd Hold Hnew merged conflict.
  - exists new_charges. split; [reflexivity|]. intros k.
    destruct (decide (k ∈ [])) as [Hin|_]; [inversion Hin | reflexivity].
  - apply NoDup_cons in Hnd as [Hc Hnd]. simpl.
    assert (Hhere : c ∈ c :: rest) by left.
    rewrite (Hold c Hhere).
    destruct (keys_get_Some new_charges c (Hnew c Hhere)) as [n Hn].
    assert (Ho : exists o, PyDict.get old_charges c = Some o).
    { apply keys_get_Some, mem_keys, Hold, Hhere. }
    destruct Ho as [o Ho].
    assert (Hconflict : conflict c
                        = if entry_eq n o then None
                          else Some (Warn_metadata_conflict defect c filepath)).
    { subst conflict. simpl. rewrite Hn, Ho. reflexivity. }
    rewrite Hn, Ho, Hconflict.
    destruct (entry_eq n o) eqn:Heq.
    + destruct (IH (PyDict.set new_charges c (combined_parameters n o)) Hnd)
        as (d & Hd & Hget).
      { intros k Hk. apply Hold. right. exact Hk. }
      { intros k Hk. rewrite (keys_set_present _ _ _ _ Hn). apply Hnew. right. exact Hk. }
      exists d. split.
      * rewrite Hd. f_equal. f_equal. apply omap_ext_in. intros k Hk. subst conflict.
        simpl. rewrite get_set.
        destruct (decide (k = c)) as [->|_]; [contradiction | reflexivity].
      * intros k. rewrite Hget, get_set. subst merged. simpl.
        destruct (decide (k = c)) as [->|Hne].
        -- rewrite decide_False by exact Hc. rewrite decide_True by left.
           rewrite Hn, Ho, Heq. reflexivity.
        -- destruct (decide (k ∈ rest)) as [Hin|Hnin].
           ++ rewrite decide_True by (right; exact Hin). reflexivity.
           ++ rewrite decide_False; [reflexivity|].
              intros Hin. apply elem_of_cons in Hin as [?|?]; contradiction.
    + destruct (IH new_charges Hnd) as (d & Hd & Hget).
      { intros k Hk. apply Hold. right. exact Hk. }
      { intros k Hk. apply Hnew. right. exact Hk. }
      exists d. split.
      * cbv zeta in Hd. rewrite Hd. reflexivity.
      * intros k. rewrite Hget. subst merged. simpl.
        destruct (decide (k = c)) as [->|Hne].
        -- rewrite decide_False by exact Hc. rewrite decide_True by left.
           rewrite Hn, Ho, Heq. reflexivity.
        -- destruct (decide (k ∈ rest)) as [Hin|Hnin].
           ++ rewrite decide_True by (right; exact Hin). reflexivity.
           ++ rewrite decide_False; [reflexivity|].
              intros Hin. apply elem_of_cons in Hin as [?|?]; contradiction.
Qed.

Lemma flat_map_ext_in {A B : Type} (f g : A -> list B) (l : list A) :
  (forall x, x ∈ l -> f x = g x) -> flat_map f l = flat_map g l.
Proof.
  induction l as [|x l IH]; intros Hfg; simpl; [reflexivity|].
  rewrite (Hfg x) by left. rewrite IH; [reflexivity|].
  intros y Hy. apply Hfg. right. exact Hy.
Qed.

Lemma combine_defects_good (filepath : string)
    (old_defects : list (string * defect_entry)) (todo : list string) :
  forall new_defects,
    NoDup todo ->
    (forall d, d ∈ todo -> is_Some (PyDict.get old_defects d)) ->
    (forall d oe ne,
       d ∈ todo -> PyDict.get old_defects d = Some oe ->
       PyDict.get new_defects d = Some ne ->
       NoDup (PyDict.keys (charges ne)) /\
       forall k, k ∈ PyDict.keys (charges ne) -> PyDict.mem (charges oe) k = true) ->
    exists res,
      combine_defects filepath old_defects todo new_defects
      = (flat_map (conflicts filepath old_defects new_defects) todo, res, None) /\
      (forall d, d ∉ todo -> PyDict.get res d = PyDict.get new_defects d) /\
      (forall d, d ∈ todo -> PyDict.get new_defects d = None ->
                 PyDict.get res d = PyDict.get old_defects d) /\
      (forall d oe ne,
         d ∈ todo -> PyDict.get old_defects d = Some oe ->
         PyDict.get new_defects d = Some ne ->
         exists merged,
           PyDict.get res d = Some merged /\
           unique_site merged = unique_site ne /\
           defect_site_index merged = defect_site_index ne /\
           PyDict.keys (charges merged) = PyDict.keys (charges ne) /\
           forall k n o,
             PyDict.get (charges ne) k = Some n ->
             PyDict.get (charges oe) k = Some o ->
             PyDict.get (charges merged) k
             = Some (if entry_eq n o then combined_parameters n o else n)).
Proof.
  induction todo as [|h rest IH]; intros new_defects Hnd Hold Hgood.
  - exists new_defects. split; [reflexivity|].
    split; [reflexivity|]. split; intros d; intros; exfalso; eapply not_elem_of_nil; eauto.
  - apply NoDup_cons in Hnd as [Hh Hnd].
    assert (Hhere : h ∈ h :: rest) by left.
    destruct (Hold h Hhere) as [oe Hoe]. simpl. rewrite Hoe.
    assert (Hrest_old : forall d, d ∈ rest -> is_Some (PyDict.get old_defects d)).
    { intros d Hd. apply Hold. right. exact Hd. }
    assert (Hne_h : forall d, d ∈ rest -> d <> h) by (intros d Hd ->; contradiction).
    destruct (PyDict.get new_defects h) as [ne|] eqn:Hne.
    + destruct (Hgood h oe ne Hhere Hoe Hne) as [Hkeys Hmem].
      destruct (combine_charges_both_loop filepath h (charges oe)
                  (PyDict.keys (charges ne)) (charges ne) Hkeys Hmem (fun k Hk => Hk))
        as (c & Hc & Hget).
      cbv zeta in Hc. rewrite Hc.
      pose proof (combine_charges_keys _ _ _ _ _ _ _ _ Hc) as Hck.
      set (new_defects' := PyDict.set new_defects h (with_charges ne c)).
      assert (Hsame : forall d, d <> h ->
                PyDict.get new_defects' d = PyDict.get new_defects d).
      { intros d Hd. subst new_defects'. rewrite get_set.
        destruct (decide (d = h)); [contradiction | reflexivity]. }
      destruct (IH new_defects' Hnd Hrest_old) as (res & Hres & Ha & Hb & Hcc).
      { intros d oe' ne' Hd Hoe' Hne'. rewrite (Hsame d (Hne_h d Hd)) in Hne'.
        apply (Hgood d oe' ne'); [right; exact Hd | exact Hoe' | exact Hne']. }
      exists res. split; [|split; [|split]].
      * rewrite Hres. f_equal. f_equal.
        unfold conflicts at 2. rewrite Hoe, Hne. f_equal.
        apply flat_map_ext_in. intros d Hd. unfold conflicts.
        rewrite (Hsame d (Hne_h d Hd)). reflexivity.
      * intros d Hd. apply not_elem_of_cons in Hd as [Hdh Hd].
        rewrite (Ha d Hd). apply Hsame, Hdh.
      * intros d Hd Hnone. apply elem_of_cons in Hd as [->|Hd]; [congruence|].
        apply Hb; [exact Hd|]. rewrite (Hsame d (Hne_h d Hd)). exact Hnone.
      * intros d oe' ne' Hd Hoe' Hne'. apply elem_of_cons in Hd as [->|Hd].
        -- rewrite Hoe in Hoe'. injection Hoe' as <-. rewrite Hne in Hne'.
           injection Hne' as <-.
           exists (with_charges ne c). split.
           { rewrite (Ha h Hh). subst new_defects'. rewrite get_set.
             rewrite decide_True by reflexivity. reflexivity. }
           split; [reflexivity|]. split; [reflexivity|]. split; [exact Hck|].
           intros k n o Hn Ho. simpl. rewrite Hget.
           rewrite decide_True by (eapply get_Some_keys, Hn).
           rewrite Hn, Ho. reflexivity.
        -- apply (Hcc d oe' ne' Hd Hoe'). rewrite (Hsame d (Hne_h d Hd)). exact Hne'.
    + set (new_defects' := PyDict.set new_defects h oe).
      assert (Hsame : forall d, d <> h ->
                PyDict.get new_defects' d = PyDict.get new_defects d).
      { intros d Hd. subst new_defects'. rewrite get_set.
        destruct (decide (d = h)); [contradiction | reflexivity]. }
      destruct (IH new_defects' Hnd Hrest_old) as (res & Hres & Ha & Hb & Hcc).
      { intros d oe' ne' Hd Hoe' Hne'. rewrite (Hsame d (Hne_h d Hd)) in Hne'.
        apply (Hgood d oe' ne'); [right; exact Hd | exact Hoe' | exact Hne']. }
      exists res. split; [|split; [|split]].
      * rewrite Hres. f_equal. f_equal.
        unfold conflicts at 2. rewrite Hoe, Hne. simpl.
        apply flat_map_ext_in. intros d Hd. unfold conflicts.
        rewrite (Hsame d (Hne_h d Hd)). reflexivity.
      * intros d Hd. apply not_elem_of_cons in Hd as [Hdh Hd].
        rewrite (Ha d Hd). apply Hsame, Hdh.
      * intros d Hd Hnone. apply elem_of_cons in Hd as [->|Hd].
        -- rewrite (Ha h Hh). subst new_defects'. rewrite get_set.
           rewrite decide_True by reflexivity. symmetry. exact Hoe.
        -- apply Hb; [exact Hd|]. rewrite (Hsame d (Hne_h d Hd)). exact Hnone.
      * intros d oe' ne' Hd Hoe' Hne'. apply elem_of_cons in Hd as [->|Hd]; [congruence|].
        apply (Hcc d oe' ne' Hd Hoe'). rewrite (Hsame d (Hne_h d Hd)). exact Hne'.
Qed.

(** X12: when the old file lists each defect once and holds every
    charge of the new metadata for the defects the two share, the merge goes
    through: the generic warning is not emitted; a conflict is warned of
    exactly for the charges whose old and new entries differ; a defect only
    the file has is added; a defect only the new metadata has is untouched;
    a shared defect keeps the site and the charges of the new metadata, each
    charge with the combined parameters when the entries agree and with the
    new entry when they differ. *)
Theorem write_distortion_metadata_merge (files : gmap string metadata)
    (current_datetime : string) (new_metadata old_metadata : metadata)
    (filename output_path : string) :
  let filepath := path_join output_path filename in
  files !! filepath = Some old_metadata ->
  NoDup (PyDict.keys (defects old_metadata)) ->
  (forall d oe ne,
     PyDict.get (defects old_metadata) d = Some oe ->
     PyDict.get (defects new_metadata) d = Some ne ->
     NoDup (PyDict.keys (charges ne)) /\
     forall k, k ∈ PyDict.keys (charges ne) -> PyDict.mem (charges oe) k = true) ->
  let w := _write_distortion_metadata files current_datetime new_metadata
             filename output_path in
  let after := defects (new_metadata_after w) in
  (Warn_metadata_problem filepath ∉ emitted w) /\
  (forall d k,
     Warn_metadata_conflict d k filepath ∈ emitted w <->
     exists oe ne n o,
       PyDict.get (defects old_metadata) d = Some oe /\
       PyDict.get (defects new_metadata) d = Some ne /\
       PyDict.get (charges ne) k = Some n /\ PyDict.get (charges oe) k = Some o /\
       entry_eq n o = false) /\
  (forall d oe,
     PyDict.get (defects old_metadata) d = Some oe ->
     PyDict.get (defects new_metadata) d = None ->
     PyDict.get after d = Some oe) /\
  (forall d,
     PyDict.get (defects old_metadata) d = None ->
     PyDict.get after d = PyDict.get (defects new_metadata) d) /\
  (forall d oe ne,
     PyDict.get (defects old_metadata) d = Some oe ->
     PyDict.get (defects new_metadata) d = Some ne ->
     exists merged,
       PyDict.get after d = Some merged /\
       unique_site merged = unique_site ne /\
       defect_site_index merged = defect_site_index ne /\
       PyDict.keys (charges merged) = PyDict.keys (charges ne) /\
       forall k n o,
         PyDict.get (charges ne) k = Some n ->
         PyDict.get (charges oe) k = Some o ->
         PyDict.get (charges merged) k
         = Some (if entry_eq n o then combined_parameters n o else n)).
Proof.
  intros filepath Hfile Hnd Hgood w after. subst w after.
  unfold _write_distortion_metadata, combine. fold filepath. rewrite Hfile.
  destruct (combine_defects_good filepath (defects old_metadata)
              (PyDict.keys (defects old_metadata)) (defects new_metadata) Hnd)
    as (res & Hres & Ha & Hb & Hc).
  { intros d Hd. destruct (keys_get_Some _ _ Hd) as [v Hv]. rewrite Hv. eauto. }
  { intros d oe ne _. apply Hgood. }
  rewrite Hres. simpl. rewrite app_nil_r.
  assert (Hin : forall d k,
            Warn_metadata_conflict d k filepath
            ∈ flat_map (conflicts filepath (defects old_metadata) (defects new_metadata))
                (PyDict.keys (defects old_metadata)) <->
            exists oe ne n o,
              PyDict.get (defects old_metadata) d = Some oe /\
              PyDict.get (defects new_metadata) d = Some ne /\
              PyDict.get (charges ne) k = Some n /\ PyDict.get (charges oe) k = Some o /\
              entry_eq n o = false).
  { intros d k. rewrite list_elem_of_In, in_flat_map. split.
    - intros (d' & Hd' & Hw). unfold conflicts in Hw.
      destruct (PyDict.get (defects old_metadata) d') as [oe|] eqn:Hoe; [|inversion Hw].
      destruct (PyDict.get (defects new_metadata) d') as [ne|] eqn:Hne; [|inversion Hw].
      apply list_elem_of_In, list_elem_of_omap in Hw as (k' & Hk' & Hw).
      destruct (PyDict.get (charges ne) k') as [n|] eqn:Hn; [|discriminate].
      destruct (PyDict.get (charges oe) k') as [o|] eqn:Ho; [|discriminate].
      destruct (entry_eq n o) eqn:Heq; [discriminate|].
      injection Hw as <- <-. exists oe, ne, n, o. auto.
    - intros (oe & ne & n & o & Hoe & Hne & Hn & Ho & Heq).
      exists d. split; [apply list_elem_of_In; eapply get_Some_keys, Hoe|].
      unfold conflicts. rewrite Hoe, Hne.
      apply list_elem_of_In, list_elem_of_omap. exists k.
      split; [eapply get_Some_keys, Hn|]. rewrite Hn, Ho, Heq. reflexivity. }
  split; [|split; [|split; [|split]]].
  - intros Hp. apply elem_of_cons in Hp as [Hp|Hp]; [discriminate|].
    apply elem_of_cons in Hp as [Hp|Hp]; [discriminate|].
    apply list_elem_of_In, in_flat_map in Hp as (d & _ & Hp). unfold conflicts in Hp.
    destruct (PyDict.get (defects old_metadata) d) as [oe|]; [|inversion Hp].
    destruct (PyDict.get (defects new_metadata) d) as [ne|]; [|inversion Hp].
    apply list_elem_of_In, list_elem_of_omap in Hp as (k' & _ & Hp).
    destruct (PyDict.get (charges ne) k'); [|discriminate].
    destruct (PyDict.get (charges oe) k'); [|discriminate].
    destruct (entry_eq _ _); discriminate.
  - intros d k. rewrite <- Hin. rewrite !elem_of_cons. split; [|tauto].
    intros [Hp|[Hp|Hp]]; [discriminate | discriminate | exact Hp].
  - intros d oe Hoe Hne. rewrite Hb; [exact Hoe | eapply get_Some_keys, Hoe | exact Hne].
  - intros d Hoe. apply Ha. apply get_None_keys, Hoe.
  - intros d oe ne Hoe Hne. apply (Hc d oe ne); [eapply get_Some_keys, Hoe | exact Hoe | exact Hne].
Qed.

(** *** A charge the old file does not have *)

Lemma combine_defects_first_missing (filepath : string)
    (old_defects : list (string * defect_entry)) (pre : list string)
    (defect : string) (post : list string) (oe entry : defect_entry)
    (k0 : pykey) (v0 : charge_entry) (rest0 : list (pykey * charge_entry)) :
  PyDict.get old_defects defect = Some oe ->
  charges entry = (k0, v0) :: rest0 ->
  PyDict.mem (charges oe) k0 = false ->
  forall new_defects,
    NoDup (pre ++ defect :: post) ->
    (forall d, d ∈ pre -> is_Some (PyDict.get old_defects d)) ->
    (forall d ne, d ∈ pre -> PyDict.get new_defects d = Some ne -> charges ne = []) ->
    PyDict.get new_defects defect = Some entry ->
    exists res,
      combine_defects filepath old_defects (pre ++ defect :: post) new_defects
      = ([], res, Some (KeyError (str_key k0))) /\
      (forall d, d ∈ pre -> PyDict.get new_defects d = None ->
                 PyDict.get res d = PyDict.get old_defects d) /\
      (forall d ne, PyDict.get new_defects d = Some ne ->
                    exists e', PyDict.get res d = Some e' /\
                               charges e' = charges ne /\
                               unique_site e' = unique_site ne /\
                               defect_site_index e' = defect_site_index ne) /\
      (forall d, d ∉ pre -> PyDict.get new_defects d = None -> PyDict.get res d = None).
Proof.
  intros Hoe Hcharges Hmem.
  induction pre as [|h pre IH]; intros new_defects Hnd Hold Hempty Hentry.
  - simpl. rewrite Hoe, Hentry, Hcharges. simpl. rewrite Hmem.
    unfold PyDict.mem in Hmem.
    destruct (PyDict.get (charges oe) k0); [discriminate|].
    eexists. split; [reflexivity|]. split; [|split].
    + intros d Hd. inversion Hd.
    + intros d ne Hne. rewrite get_set. destruct (decide (d = defect)) as [->|_].
      * rewrite Hentry in Hne. injection Hne as <-. eexists. split; [reflexivity|].
        simpl. rewrite Hcharges. auto.
      * eauto.
    + intros d _ Hne. rewrite get_set. destruct (decide (d = defect)) as [->|_];
        [congruence | exact Hne].
  - simpl in Hnd. apply NoDup_cons in Hnd as [Hh Hnd].
    assert (Hhere : h ∈ h :: pre) by left.
    destruct (Hold h Hhere) as [oh Hoh]. simpl. rewrite Hoh.
    assert (Hdefect : defect <> h).
    { intros ->. apply Hh. apply elem_of_app. right. left. }
    assert (Hpre : forall d, d ∈ pre -> d <> h).
    { intros d Hd ->. apply Hh. apply elem_of_app. left. exact Hd. }
    assert (Hold' : forall d, d ∈ pre -> is_Some (PyDict.get old_defects d)).
    { intros d Hd. apply Hold. right. exact Hd. }
    destruct (PyDict.get new_defects h) as [ne|] eqn:Hne.
    + rewrite (Hempty h ne Hhere Hne). simpl.
      set (new_defects' := PyDict.set new_defects h (with_charges ne [])).
      assert (Hsame : forall d, d <> h ->
                PyDict.get new_defects' d = PyDict.get new_defects d).
      { intros d Hd. subst new_defects'. rewrite get_set.
        destruct (decide (d = h)); [contradiction | reflexivity]. }
      destruct (IH new_defects' Hnd Hold') as (res & Hres & Ha & Hb & Hc).
      { intros d ne' Hd Hne'. rewrite (Hsame d (Hpre d Hd)) in Hne'.
        apply (Hempty d ne'); [right; exact Hd | exact Hne']. }
      { rewrite (Hsame _ Hdefect). exact Hentry. }
      exists res. split; [rewrite Hres; reflexivity|]. split; [|split].
      * intros d Hd Hnone. apply elem_of_cons in Hd as [->|Hd]; [congruence|].
        apply Ha; [exact Hd|]. rewrite (Hsame d (Hpre d Hd)). exact Hnone.
      * intros d ne' Hne'. destruct (decide (d = h)) as [->|Hdh].
        -- rewrite Hne in Hne'. injection Hne' as <-.
           destruct (Hb h (with_charges ne [])) as (e' & He' & Hch & Hu & Hi).
           { subst new_defects'. rewrite get_set. rewrite decide_True by reflexivity.
             reflexivity. }
           exists e'. split; [exact He'|]. rewrite Hch, Hu, Hi. simpl.
           rewrite (Hempty h ne Hhere Hne). auto.
        -- apply Hb. rewrite (Hsame d Hdh). exact Hne'.
      * intros d Hd Hnone. apply not_elem_of_cons in Hd as [Hdh Hd].
        apply Hc; [exact Hd|]. rewrite (Hsame d Hdh). exact Hnone.
    + set (new_defects' := PyDict.set new_defects h oh).
      assert (Hsame : forall d, d <> h ->
                PyDict.get new_defects' d = PyDict.get new_defects d).
      { intros d Hd. subst new_defects'. rewrite get_set.
        destruct (decide (d = h)); [contradiction | reflexivity]. }
      assert (Hh' : PyDict.get new_defects' h = Some oh).
      { subst new_defects'. rewrite get_set. rewrite decide_True by reflexivity.
        reflexivity. }
      destruct (IH new_defects' Hnd Hold') as (res & Hres & Ha & Hb & Hc).
      { intros d ne' Hd Hne'. rewrite (Hsame d (Hpre d Hd)) in Hne'.
        apply (Hempty d ne'); [right; exact Hd | exact Hne']. }
      { rewrite (Hsame _ Hdefect). exact Hentry. }
      exists res. split; [rewrite Hres; reflexivity|]. split; [|split].
      * intros d Hd Hnone. apply elem_of_cons in Hd as [->|Hd].
        -- destruct (Hb h oh Hh') as (e' & He' & Hch & Hu & Hi).
           rewrite He', Hoh. f_equal.
           destruct e', oh; simpl in *; congruence.
        -- apply Ha; [exact Hd|]. rewrite (Hsame d (Hpre d Hd)). exact Hnone.
      * intros d ne' Hne'. apply Hb. rewrite Hsame; [exact Hne'|]. congruence.
      * intros d Hd Hnone. apply not_elem_of_cons in Hd as [Hdh Hd].
        apply Hc; [exact Hd|]. rewrite (Hsame d Hdh). exact Hnone.
Qed.

(** X13: the charge keys of a file read from JSON are [str] and those
    of metadata built by [Distortions] are [int].  At the first defect the
    two share for which the new metadata has a charge, the lookup in the old
    entry fails and the merge is abandoned: the two notices and the generic
    warning are emitted, every defect of the new metadata keeps its charges,
    the defects of the file before that one have been copied, and the
    defects of the file after it are lost. *)
Theorem write_distortion_metadata_int_keys (files : gmap string metadata)
    (current_datetime : string) (new_metadata old_metadata : metadata)
    (filename output_path : string) (pre : list string) (defect : string)
    (post : list string) (oe entry : defect_entry) :
  let filepath := path_join output_path filename in
  files !! filepath = Some old_metadata ->
  PyDict.keys (defects old_metadata) = pre ++ defect :: post ->
  NoDup (PyDict.keys (defects old_metadata)) ->
  (forall d ne, d ∈ pre -> PyDict.get (defects new_metadata) d = Some ne ->
                charges ne = []) ->
  PyDict.get (defects old_metadata) defect = Some oe ->
  (forall k, k ∈ PyDict.keys (charges oe) -> exists s, k = KStr s) ->
  PyDict.get (defects new_metadata) defect = Some entry ->
  charges entry <> [] ->
  (forall k, k ∈ PyDict.keys (charges entry) -> exists z, k = KInt z) ->
  let w := _write_distortion_metadata files current_datetime new_metadata
             filename output_path in
  let after := defects (new_metadata_after w) in
  emitted w = [Msg_previous_version filename current_datetime;
               Msg_combining filename; Warn_metadata_problem filepath] /\
  (forall d ne,
     PyDict.get (defects new_metadata) d = Some ne ->
     exists e', PyDict.get after d = Some e' /\ charges e' = charges ne) /\
  (forall d, d ∈ pre -> PyDict.get (defects new_metadata) d = None ->
             PyDict.get after d = PyDict.get (defects old_metadata) d) /\
  (forall d, d ∉ pre -> PyDict.get (defects new_metadata) d = None ->
             PyDict.get after d = None).
Proof.
  intros filepath Hfile Hkeys Hnd Hempty Hoe Hstr Hentry Hcharges Hint w after.
  subst w after. unfold _write_distortion_metadata, combine. fold filepath.
  rewrite Hfile, Hkeys.
  destruct (charges entry) as [|[k0 v0] rest0] eqn:Hc; [contradiction|].
  assert (Hmem : PyDict.mem (charges oe) k0 = false).
  { destruct (PyDict.mem (charges oe) k0) eqn:Hm; [|reflexivity].
    apply mem_keys in Hm. destruct (Hstr _ Hm) as [s ->].
    destruct (Hint (KStr s)) as [z Hz]; [left | discriminate]. }
  destruct (combine_defects_first_missing filepath (defects old_metadata) pre defect
              post oe entry k0 v0 rest0 Hoe Hc Hmem (defects new_metadata))
    as (res & Hres & Ha & Hb & Hcc).
  { rewrite <- Hkeys. exact Hnd. }
  { intros d Hd.
    destruct (keys_get_Some (defects old_metadata) d) as [v Hv]; [|rewrite Hv; eauto].
    rewrite Hkeys. apply elem_of_app. left. exact Hd. }
  { exact Hempty. }
  { exact Hentry. }
  rewrite Hres. simpl. split; [reflexivity|]. split; [|split].
  - intros d ne Hne. destruct (Hb d ne Hne) as (e' & He' & Hch & _). eauto.
  - exact Ha.
  - exact Hcc.
Qed.

(** X14: a merged entry carries no [rattle_stdev], so an entry made by
    a run, which carries one, never equals an entry that was merged before,
    in memory or read back from JSON: merging with it warns of a conflict
    and keeps the new entry. *)
Theorem combine_charges_after_merge (filepath defect : string) (k : pykey)
    (n a b : charge_entry) :
  is_Some (rattle_stdev (distortion_parameters n)) ->
  entry_eq n (combined_parameters a b) = false /\
  entry_eq n (json_entry (combined_parameters a b)) = false /\
  combine_charges filepath defect [(k, json_entry (combined_parameters a b))] [k] [(k, n)]
  = ([Warn_metadata_conflict defect k filepath], [(k, n)], None).
Proof.
  intros [x Hx].
  assert (Hne : forall o, rattle_stdev (distortion_parameters o) = None ->
                          entry_eq n o = false).
  { intros o Ho. unfold entry_eq, parameters_eq. rewrite Hx, Ho. simpl.
    rewrite !andb_false_r. reflexivity. }
  split; [apply Hne; reflexivity|]. split; [apply Hne; reflexivity|].
  simpl. unfold PyDict.mem. simpl. rewrite !decide_True by reflexivity.
  rewrite (Hne (json_entry (combined_parameters a b))) by reflexivity. reflexivity.
Qed.

End MetadataMore.

Section RunsMore.
Import Metadata Runs.

Lemma json_round_trip_witness :
  exists entry,
    PyDict.get (defects (json second_run_of_class)) "vac_1_Cd" = Some entry /\
    PyDict.keys (charges entry) = [KStr "0"] /\
    exists i s, Atom_list 33 "Te" = Atom_list i s.
Proof.
  eexists. split; [reflexivity|]. split; [reflexivity|].
  destruct (json_round_trip second_run_of_class) as [_ Hform].
  destruct (Hform "vac_1_Cd" _ eq_refl) as [_ Hentries].
  destruct (Hentries (KStr "0") neutral) as [_ Hatoms]; [left|].
  apply (Hatoms [Atom_list 33 "Te"; Atom_list 42 "Te"]); [reflexivity | left].
Defined.


Lemma write_distortion_metadata_merge_witness :
  let w := _write_distortion_metadata on_disk "2022-08-01-12-00" second_run
             "distortion_metadata.json" "." in
  exists merged,
    PyDict.get (defects (new_metadata_after w)) "vac_1_Cd" = Some merged /\
    PyDict.get (charges merged) (KStr "0")
    = Some (combined_parameters neutral neutral) /\
    bond_distortions (distortion_parameters (combined_parameters neutral neutral))
    = [(-0.3)%float; 0.3%float; (-0.3)%float; 0.3%float].
Proof.
  intros w.
  pose proof (write_distortion_metadata_merge on_disk "2022-08-01-12-00" second_run
                old_file "distortion_metadata.json" ".") as Hmerge.
  destruct Hmerge as (_ & _ & _ & _ & Hshared).
  - reflexivity.
  - apply NoDup_singleton.
  - intros d oe ne Hoe Hne. unfold old_file, second_run in Hoe, Hne.
    cbn [defects PyDict.get] in Hoe, Hne.
    destruct (decide (d = "vac_1_Cd")); [|discriminate].
    injection Hoe as <-. injection Hne as <-. split.
    + apply NoDup_singleton.
    + intros k Hk. apply list_elem_of_singleton in Hk. subst k. reflexivity.
  - destruct (Hshared "vac_1_Cd" _ _ eq_refl eq_refl) as (merged & Hm & _ & _ & _ & Hc).
    exists merged. split; [exact Hm|]. split; [|reflexivity].
    exact (Hc (KStr "0") neutral neutral eq_refl eq_refl).
Defined.

Lemma write_distortion_metadata_int_keys_witness :
  emitted (_write_distortion_metadata on_disk "2022-08-01-12-00" second_run_of_class
             "distortion_metadata.json" ".")
  = [Msg_previous_version "distortion_metadata.json" "2022-08-01-12-00";
     Msg_combining "distortion_metadata.json";
     Warn_metadata_problem (path_join "." "distortion_metadata.json")].
Proof.
  refine (proj1 (write_distortion_metadata_int_keys on_disk "2022-08-01-12-00"
                   second_run_of_class old_file "distortion_metadata.json" "."
                   [] "vac_1_Cd" [] _ _ eq_refl eq_refl _ _ eq_refl _ eq_refl _ _)).
  - apply NoDup_singleton.
  - intros d ne Hd. inversion Hd.
  - intros k Hk. simpl in Hk. apply elem_of_cons in Hk as [->|Hk]; [eauto|].
    apply list_elem_of_singleton in Hk. subst k. eauto.
  - discriminate.
  - intros k Hk. apply list_elem_of_singleton in Hk. subst k. eauto.
Defined.

Lemma combine_charges_after_merge_witness :
  combine_charges "./distortion_metadata.json" "vac_1_Cd"
    [(KStr "0", json_entry (combined_parameters neutral neutral))] [KStr "0"]
    [(KStr "0", neutral)]
  = ([Warn_metadata_conflict "vac_1_Cd" (KStr "0") "./distortion_metadata.json"],
     [(KStr "0", neutral)], None).
Proof.
  apply (combine_charges_after_merge "./distortion_metadata.json" "vac_1_Cd"
           (KStr "0") neutral neutral neutral).
  eexists. reflexivity.
Defined.

End RunsMore.

(** ** More on the class [Distortions] *)

Section ForEach.
Context {A S : Type}.

Lemma for_each_invariant (P : S -> Prop) (body : S -> A -> S * option exn)
    (l : list A) :
  (forall s x, P s -> P (body s x).1) ->
  forall s, P s -> P (Distortions.for_each body l s).1.
Proof.
  intros Hbody. induction l as [|x l IH]; intros s Hs; simpl; [exact Hs|].
  specialize (Hbody s x Hs). destruct (body s x) as [s' [e|]]; [exact Hbody|].
  apply IH, Hbody.
Qed.

Lemma for_each_cons (body : S -> A -> S * option exn) (x : A) (l : list A) (s : S) :
  Distortions.for_each body (x :: l) s
  = match body s x with
    | (s', Some e) => (s', Some e)
    | (s', None) => Distortions.for_each body l s'
    end.
Proof. reflexivity. Qed.

Lemma for_each_app (body : S -> A -> S * option exn) (l1 l2 : list A) (s : S) :
  Distortions.for_each body (l1 ++ l2) s
  = match Distortions.for_each body l1 s with
    | (s', Some e) => (s', Some e)
    | (s', None) => Distortions.for_each body l2 s'
    end.
Proof.
  revert s. induction l1 as [|x l1 IH]; intros s; simpl; [reflexivity|].
  destruct (body s x) as [s' [e|]]; [reflexivity | apply IH].
Qed.

End ForEach.

Section DistortionsMore.
Import ElectronCount Distortions.
Context `{Collaborators}.

(** X15: given defects and oxidation states, [__init__] prints nothing.
    With a non-empty list of bond distortions it returns an instance that
    keeps them, rounded to three decimals, and has no increment.  Otherwise
    it calls [np.arange(0, 0.601, increment)] (increment 0.1 by default):
    an exception of that call, as for an increment of zero, is raised;
    else the values, rounded to three decimals, are mirrored: the negated
    tail of the mesh in reverse, then the mesh, so twice its length less one
    values, and none for an empty mesh.  In the instance returned [stdev]
    defaults to 0.25 and the metadata holds the parameters of the instance
    and no defect. *)
Theorem init_bond_distortions (args : arguments)
    (defects : list (string * list Rattle.DefectDict)) (ox : gmap string Z) :
  arg_defects_dict args = Some defects ->
  arg_oxidation_states args = Some ox ->
  let increment := default 0.1%float (arg_distortion_increment args) in
  let configured this :=
    stdev this = default 0.25%float (arg_stdev args) /\
    distortion_metadata this
    = {| Metadata.parameters :=
           {| Metadata.distortion_increment := distortion_increment this;
              Metadata.run_bond_distortions := bond_distortions this;
              Metadata.run_rattle_stdev := stdev this |};
         Metadata.defects := [] |} in
  match arg_bond_distortions args with
  | Some (x :: l) =>
    exists this,
      __init__ args = ([], Ok this) /\
      configured this /\
      distortion_increment this = None /\
      bond_distortions this = map np_around3 (x :: l)
  | _ =>
    match np_arange 0 0.601 increment with
    | Raise e => __init__ args = ([], Raise e)
    | Ok values =>
      let mesh := map np_around3 values in
      exists this,
        __init__ args = ([], Ok this) /\
        configured this /\
        distortion_increment this = Some increment /\
        bond_distortions this
        = map (fun x => (x * -1)%float) (rev (tl mesh)) ++ mesh /\
        (mesh = [] -> bond_distortions this = []) /\
        (mesh <> [] ->
         (length (bond_distortions this) + 1 = 2 * length mesh)%nat)
    end
  end.
Proof.
  intros Hd Ho increment configured. subst increment configured.
  unfold __init__. rewrite Hd, Ho.
  assert (Hdefault : forall mesh : list float,
            removelast (map (fun x => (x * -1)%float) (rev mesh)) ++ mesh
            = map (fun x => (x * -1)%float) (rev (tl mesh)) ++ mesh /\
            (mesh = [] ->
             removelast (map (fun x => (x * -1)%float) (rev mesh)) ++ mesh = []) /\
            (mesh <> [] ->
             (length (removelast (map (fun x => (x * -1)%float) (rev mesh)) ++ mesh)
              + 1 = 2 * length mesh)%nat)).
  { intros [|x mesh].
    - split; [reflexivity|]. split; [reflexivity | intros Hne; contradiction].
    - simpl rev. rewrite map_app. simpl map. rewrite removelast_last.
      split; [reflexivity|]. split; [discriminate|]. intros _.
      rewrite length_app, length_map, length_rev. simpl. lia. }
  assert (Hmesh : match np_arange 0 0.601
                          (default 0.1%float (arg_distortion_increment args)) with
                  | Raise e => default_bond_distortions
                                 (default 0.1%float (arg_distortion_increment args))
                               = Raise e
                  | Ok values =>
                    default_bond_distortions
                      (default 0.1%float (arg_distortion_increment args))
                    = Ok (removelast (map (fun x => (x * -1)%float)
                                          (rev (map np_around3 values)))
                          ++ map np_around3 values)
                  end).
  { unfold default_bond_distortions. destruct (np_arange _ _ _); reflexivity. }
  destruct (arg_bond_distortions args) as [[|x l]|]; simpl.
  - destruct (np_arange _ _ _) as [values|e]; rewrite Hmesh; [|reflexivity].
    eexists. split; [reflexivity|]. simpl. split; [split; reflexivity|].
    split; [reflexivity|]. apply Hdefault.
  - eexists. split; [reflexivity|]. simpl. split; [split; reflexivity|].
    split; reflexivity.
  - destruct (np_arange _ _ _) as [values|e]; rewrite Hmesh; [|reflexivity].
    eexists. split; [reflexivity|]. simpl. split; [split; reflexivity|].
    split; [reflexivity|]. apply Hdefault.
Qed.

(** X16: when [distorted_elements] is a non-empty dictionary without
    the first defect, [apply_distortions] raises [TypeError] ([warnings.warn]
    is handed three strings) before anything is computed: only the opening
    line is printed, and neither the instance nor the dictionary of
    structures has changed. *)
Theorem apply_distortions_distorted_element_missing (this : Distortions)
    (verbose : bool) (first : Rattle.DefectDict) (rest : list Rattle.DefectDict)
    (elements : gmap string string) :
  comb_defs (defects_dict this) = Ok (first :: rest) ->
  distorted_elements this = Some elements ->
  elements <> ∅ ->
  elements !! Rattle.name first = None ->
  exists msg,
    apply_distortions this verbose
    = ({| self := this;
          distorted_defects_dict := ∅;
          printed := [Msg_distortion_info (bond_distortions this) (stdev this)] |},
       Raise (TypeError msg)).
Proof.
  intros Hcomb Hel Hne Hmiss. unfold apply_distortions. rewrite Hcomb. simpl.
  unfold defect_step, _parse_distorted_element, truthy_dict. simpl. rewrite Hel.
  destruct (Nat.eqb_spec (size elements) 0) as [Hsize|_].
  { apply map_size_empty_iff in Hsize. contradiction. }
  rewrite Hmiss. eexists. reflexivity.
Qed.

(** X17: with a non-empty user dictionary [_parse_number_electrons]
    takes the count from it, prints the defect and its missing or extra
    electrons, and leaves the oxidation states alone; a defect the
    dictionary lacks raises [KeyError] and prints nothing.  With no
    dictionary or an empty one it returns or raises what
    [calc_number_electrons] does, and the oxidation states gain
    ["Vac" = 0]. *)
Theorem parse_number_electrons_spec (defect_name : string) (ox : gmap string Z)
    (user : option (gmap string Z)) (defect : Rattle.DefectDict) :
  let out := _parse_number_electrons defect_name ox user defect in
  (forall u, user = Some u -> u <> ∅ ->
     out.1.1 = ox /\
     (forall n, u !! defect_name = Some n ->
        out = (ox,
               [Msg_defect defect_name;
                if n <? 0 then Msg_extra_electrons n else Msg_missing_electrons n],
               Ok n)) /\
     (u !! defect_name = None -> out = (ox, [], Raise (KeyError defect_name)))) /\
  (user = None \/ user = Some ∅ ->
   out.1.1 = <["Vac" := 0]> ox /\
   out.2 = returned (calc_number_electrons (Rattle.species_keys defect) ox false)).
Proof.
  intros out. subst out. unfold _parse_number_electrons. split.
  - intros u -> Hne. unfold truthy_dict.
    destruct (Nat.eqb_spec (size u) 0) as [Hsize|_].
    { apply map_size_empty_iff in Hsize. contradiction. }
    unfold getitem. destruct (u !! defect_name) as [n|]; simpl.
    + split; [reflexivity|]. split; [intros n' [= <-]; reflexivity | discriminate].
    + split; [reflexivity|]. split; [discriminate | reflexivity].
  - intros Hu.
    assert (Ht : truthy_dict user = None).
    { destruct Hu as [->| ->]; reflexivity. }
    rewrite Ht. rewrite calc_number_electrons_after.
    destruct (returned _); split; reflexivity.
Qed.

(** X18: the defects cannot be combined exactly when the defect
    dictionary has no key other than ["bulk"], an empty dictionary
    included; [apply_distortions] then raises the [TypeError] of
    [functools.reduce] after the opening line, and nothing else is done. *)
Theorem apply_distortions_only_bulk (this : Distortions) (verbose : bool) :
  (is_ok (comb_defs (defects_dict this)) = false <->
   forall kv, kv ∈ defects_dict this -> kv.1 = "bulk") /\
  (is_ok (comb_defs (defects_dict this)) = false ->
   apply_distortions this verbose
   = ({| self := this;
         distorted_defects_dict := ∅;
         printed := [Msg_distortion_info (bond_distortions this) (stdev this)] |},
      Raise (TypeError "reduce() of empty iterable with no initial value"))).
Proof.
  unfold apply_distortions, comb_defs.
  destruct (filter _ (defects_dict this)) as [|kv kept] eqn:Hf; simpl.
  - split; [|reflexivity]. split; [|reflexivity]. intros _ kv Hkv.
    destruct (String.eqb_spec kv.1 "bulk") as [Hb|Hb]; [exact Hb|].
    assert (Hin : kv ∈ filter (fun kv : string * list Rattle.DefectDict =>
                                 negb (kv.1 =? "bulk")%string = true) (defects_dict this)).
    { apply list_elem_of_filter. split; [|exact Hkv].
      apply negb_true_iff. apply String.eqb_neq. exact Hb. }
    rewrite Hf in Hin. inversion Hin.
  - split; [|discriminate]. split; [discriminate|]. intros Hall. exfalso.
    assert (Hin : kv ∈ filter (fun kv : string * list Rattle.DefectDict =>
                                 negb (kv.1 =? "bulk")%string = true) (defects_dict this)).
    { rewrite Hf. left. }
    apply list_elem_of_filter in Hin as [Hnb Hin]. apply Hall in Hin.
    rewrite Hin in Hnb. discriminate.
Qed.

(** X19: with an empty list of bond distortions, a first defect whose
    first charge state has a number of neighbours other than zero ends
    [apply_distortions] with [KeyError('distorted_atoms')]: the distortion
    parameters were never set.  The lines printed are the opening line,
    those of the electron count and the line of the charge state. *)
Theorem apply_distortions_no_bond_distortions (this : Distortions) (verbose : bool)
    (first : Rattle.DefectDict) (rest : list Rattle.DefectDict)
    (charge : Z) (charges : list Z) (distorted_element : option string)
    (number_electrons : Z) :
  bond_distortions this = [] ->
  comb_defs (defects_dict this) = Ok (first :: rest) ->
  Rattle.charges first = charge :: charges ->
  _parse_distorted_element (Rattle.name first) (distorted_elements this)
  = Ok distorted_element ->
  (_parse_number_electrons (Rattle.name first) (oxidation_states this)
     (dict_number_electrons_user this) first).2 = Ok number_electrons ->
  calc_number_neighbours (number_electrons + charge) <> 0 ->
  exists s,
    apply_distortions this verbose = (s, Raise (KeyError "distorted_atoms")) /\
    printed s
    = Msg_distortion_info [] (stdev this)
      :: (_parse_number_electrons (Rattle.name first) (oxidation_states this)
            (dict_number_electrons_user this) first).1.2
      ++ [Msg_charge_state (Rattle.name first) charge
            (calc_number_neighbours (number_electrons + charge))].
Proof.
  intros Hbds Hcomb Hcharges Hel Hn Hnn. unfold apply_distortions. rewrite Hcomb.
  rewrite for_each_cons. unfold defect_step at 1. cbn [self]. rewrite Hel.
  destruct (_parse_number_electrons _ _ _ _) as [[o parsed] r] eqn:Hparse.
  simpl in Hn. subst r. rewrite Hcharges. rewrite for_each_cons.
  unfold charge_step at 1. unfold _get_number_distorted_neighbours,
    num_electrons_charged_defect. simpl. rewrite Hbds.
  unfold Rattle.apply_snb_distortions.
  destruct (Z.eqb_spec (calc_number_neighbours (number_electrons + charge)) 0)
    as [Hz|_]; [contradiction|]. simpl.
  unfold set_structures, _setup_distorted_defect_dict. rewrite lookup_insert_eq. simpl.
  rewrite Hcharges. simpl. rewrite lookup_insert_eq. simpl.
  eexists. split; [reflexivity|]. simpl. rewrite app_nil_r. reflexivity.
Qed.

(** *** What a sweep leaves of the instance *)

Lemma update_distortion_metadata_spec (this : Distortions) (md m : Metadata.metadata)
    (name : string) (charge : Z) (index : option Z) (nn : Z)
    (atoms : option (list atom)) :
  _update_distortion_metadata this md name charge index nn atoms = Ok m ->
  exists me ce site_index,
    PyDict.get (Metadata.defects md) name = Some me /\
    Metadata.parameters m = Metadata.parameters md /\
    Metadata.defects m
    = PyDict.set (Metadata.defects md) name
        {| Metadata.unique_site := Metadata.unique_site me;
           Metadata.defect_site_index := site_index;
           Metadata.charges := PyDict.set (Metadata.charges me) (KInt charge) ce |} /\
    Metadata.num_nearest_neighbours ce = nn /\
    Metadata.distortion_parameters ce
    = {| Metadata.bond_distortions := bond_distortions this;
         Metadata.rattle_stdev := Some (stdev this) |}.
Proof.
  unfold _update_distortion_metadata.
  destruct (PyDict.get (Metadata.defects md) name) as [me|]; [|discriminate].
  intros [= <-]. eexists me, _, _. split; [reflexivity|]. split; [reflexivity|].
  split; [reflexivity|]. split; reflexivity.
Qed.

Lemma set_structures_spec (name : string) (charge : Z) (st : structures)
    (d d' : gmap string distorted_defect_entry) :
  set_structures name charge st d = Ok d' ->
  exists entry entry',
    d !! name = Some entry /\ is_Some (charges entry !! charge) /\
    d' = <[name := entry']> d /\
    charges entry' = <[charge := Some st]> (charges entry).
Proof.
  unfold set_structures. destruct (d !! name) as [entry|]; [|discriminate].
  destruct (charges entry !! charge) eqn:Hc; [|discriminate].
  intros [= <-]. eexists entry, _. split; [reflexivity|]. split; [eauto|].
  split; reflexivity.
Qed.

(** One charge state that went through: what it changes of the sweep. *)
Lemma charge_step_spec (verbose : bool) (defect : Rattle.DefectDict)
    (name : string) (el : option string) (n : Z) (s s' : sweep) (charge : Z) :
  charge_step verbose defect name el n s charge = (s', None) ->
  exists entry entry' st me me' ce m,
    distorted_defects_dict s !! name = Some entry /\
    is_Some (charges entry !! charge) /\
    distorted_defects_dict s' = <[name := entry']> (distorted_defects_dict s) /\
    charges entry' = <[charge := Some st]> (charges entry) /\
    PyDict.get (Metadata.defects (distortion_metadata (self s))) name = Some me /\
    self s' = with_metadata (self s) m /\
    Metadata.parameters m = Metadata.parameters (distortion_metadata (self s)) /\
    Metadata.defects m
    = PyDict.set (Metadata.defects (distortion_metadata (self s))) name me' /\
    Metadata.charges me' = PyDict.set (Metadata.charges me) (KInt charge) ce /\
    Metadata.distortion_parameters ce
    = {| Metadata.bond_distortions := bond_distortions (self s);
         Metadata.rattle_stdev := Some (stdev (self s)) |}.
Proof.
  unfold charge_step, _get_number_distorted_neighbours. simpl.
  destruct (Rattle.apply_snb_distortions _ _ _ _ _ _ _ _ _) as [log [dds|e]];
    [|discriminate].
  simpl.
  destruct (set_structures _ _ _ _) as [d'|e] eqn:Hset; [|discriminate].
  destruct (Rattle.parameters dds) as [p|]; [|discriminate].
  simpl.
  destruct (_update_distortion_metadata _ _ _ _ _ _ _) as [m|e] eqn:Hm; [|discriminate].
  intros [= <-]. simpl.
  destruct (set_structures_spec _ _ _ _ _ Hset) as (entry & entry' & He & Hc & Hd & Hc').
  destruct (update_distortion_metadata_spec _ _ _ _ _ _ _ _ Hm)
    as (me & ce & idx & Hme & Hp & Hdef & _ & Hdp).
  simpl in *.
  eexists entry, entry', _, me, _, ce, m.
  split; [exact He|]. split; [exact Hc|]. split; [exact Hd|]. split; [exact Hc'|].
  split; [exact Hme|]. split; [reflexivity|]. split; [exact Hp|].
  split; [exact Hdef|]. split; [reflexivity | exact Hdp].
Qed.

(** Whatever way it ends, a pass for a charge changes nothing of the
    instance but its metadata, and of the metadata only the defects. *)
Lemma charge_step_self (verbose : bool) (defect : Rattle.DefectDict)
    (name : string) (el : option string) (n : Z) (s : sweep) (charge : Z) :
  exists m,
    self (charge_step verbose defect name el n s charge).1 = with_metadata (self s) m /\
    Metadata.parameters m = Metadata.parameters (distortion_metadata (self s)).
Proof.
  assert (Hsame : self s = with_metadata (self s) (distortion_metadata (self s)))
    by (destruct (self s); reflexivity).
  unfold charge_step, _get_number_distorted_neighbours. simpl.
  destruct (Rattle.apply_snb_distortions _ _ _ _ _ _ _ _ _) as [log [dds|e]];
    simpl; [|eauto].
  destruct (set_structures _ _ _ _) as [d'|e]; simpl; [|eauto].
  destruct (Rattle.parameters dds) as [p|]; simpl; [|eauto].
  destruct (_update_distortion_metadata _ _ _ _ _ _ _) as [m|e] eqn:Hm; simpl; [|eauto].
  destruct (update_distortion_metadata_spec _ _ _ _ _ _ _ _ Hm)
    as (me & ce & idx & _ & Hp & _).
  exists m. split; [reflexivity | exact Hp].
Qed.

Lemma defect_step_self (verbose : bool) (s : sweep) (defect : Rattle.DefectDict) :
  exists o m,
    self (defect_step verbose s defect).1
    = with_metadata (with_oxidation_states (self s) o) m /\
    Metadata.parameters m = Metadata.parameters (distortion_metadata (self s)) /\
    (o = oxidation_states (self s) \/
     truthy_dict (dict_number_electrons_user (self s)) = None /\
     o = <["Vac" := 0]> (oxidation_states (self s))).
Proof.
  assert (Hsame : self s
                  = with_metadata (with_oxidation_states (self s) (oxidation_states (self s)))
                      (distortion_metadata (self s)))
    by (destruct (self s); reflexivity).
  unfold defect_step.
  destruct (_parse_distorted_element _ _) as [el|e]; simpl.
  2:{ exists (oxidation_states (self s)), (distortion_metadata (self s)). auto. }
  assert (Hparse : forall o log r,
            _parse_number_electrons (Rattle.name defect) (oxidation_states (self s))
              (dict_number_electrons_user (self s)) defect = (o, log, r) ->
            o = oxidation_states (self s) \/
            truthy_dict (dict_number_electrons_user (self s)) = None /\
            o = <["Vac" := 0]> (oxidation_states (self s))).
  { intros o log r. unfold _parse_number_electrons.
    destruct (truthy_dict _) as [u|].
    - destruct (getitem u _); intros [= <- _ _]; left; reflexivity.
    - rewrite calc_number_electrons_after.
      destruct (returned _); intros [= <- _ _]; right; split; reflexivity. }
  destruct (_parse_number_electrons _ _ _ _) as [[o log] [n|e]] eqn:Hp;
    specialize (Hparse _ _ _ eq_refl).
  2:{ simpl. exists o, (distortion_metadata (self s)).
      split; [reflexivity|]. split; [reflexivity | exact Hparse]. }
  match goal with
  | |- context [for_each ?body ?l ?s0] =>
    assert (Hloop : exists m,
              self (for_each body l s0).1
              = with_metadata (with_oxidation_states (self s) o) m /\
              Metadata.parameters m = Metadata.parameters (distortion_metadata (self s)))
  end.
  { apply (for_each_invariant
             (fun s1 => exists m,
                self s1 = with_metadata (with_oxidation_states (self s) o) m /\
                Metadata.parameters m
                = Metadata.parameters (distortion_metadata (self s)))).
    - intros s1 c (m & Hs1 & Hm).
      destruct (charge_step_self verbose defect (Rattle.name defect) el n s1 c)
        as (m' & Hs' & Hm').
      exists m'. rewrite Hs', Hs1. split; [reflexivity|].
      rewrite Hm', Hs1. exact Hm.
    - simpl. eexists. split; reflexivity. }
  destruct Hloop as (m & Hself & Hm). exists o, m. auto.
Qed.

Lemma sweep_self (this : Distortions) (verbose : bool)
    (defects : list Rattle.DefectDict) (s0 : sweep) :
  self s0 = this ->
  exists o m,
    self (for_each (defect_step verbose) defects s0).1
    = with_metadata (with_oxidation_states this o) m /\
    Metadata.parameters m = Metadata.parameters (distortion_metadata this) /\
    (o = oxidation_states this \/
     truthy_dict (dict_number_electrons_user this) = None /\
     o = <["Vac" := 0]> (oxidation_states this)).
Proof.
  intros Hthis.
  apply (for_each_invariant
           (fun s1 => exists o m,
              self s1 = with_metadata (with_oxidation_states this o) m /\
              Metadata.parameters m = Metadata.parameters (distortion_metadata this) /\
              (o = oxidation_states this \/
               truthy_dict (dict_number_electrons_user this) = None /\
               o = <["Vac" := 0]> (oxidation_states this)))).
  - intros s1 d (o & m & Hs1 & Hm & Ho).
    destruct (defect_step_self verbose s1 d) as (o' & m' & Hself & Hm' & Ho').
    exists o', m'. rewrite Hself, Hs1. split; [reflexivity|].
    split; [rewrite Hm', Hs1; exact Hm|].
    rewrite Hs1 in Ho'. simpl in Ho'.
    destruct Ho' as [->|[Hu ->]]; [exact Ho|].
    right. split; [exact Hu|].
    destruct Ho as [->|[_ ->]]; [reflexivity | apply insert_insert_eq].
  - exists (oxidation_states this), (distortion_metadata this).
    rewrite Hthis. split; [destruct this; reflexivity | auto].
Qed.

(** X20: whatever way it ends, [apply_distortions] leaves the
    attributes of the instance as they were, but for the metadata, whose
    parameters it keeps, and the oxidation states, which can only gain
    ["Vac" = 0], and only when no user dictionary of electron counts (or an
    empty one) is set. *)
Theorem apply_distortions_frame (this : Distortions) (verbose : bool) :
  let after := self (apply_distortions this verbose).1 in
  defects_dict after = defects_dict this /\
  distorted_elements after = distorted_elements this /\
  dict_number_electrons_user after = dict_number_electrons_user this /\
  stdev after = stdev this /\
  distortion_increment after = distortion_increment this /\
  bond_distortions after = bond_distortions this /\
  _mc_rattle_kwargs after = _mc_rattle_kwargs this /\
  Metadata.parameters (distortion_metadata after)
  = Metadata.parameters (distortion_metadata this) /\
  (oxidation_states after = oxidation_states this \/
   truthy_dict (dict_number_electrons_user this) = None /\
   oxidation_states after = <["Vac" := 0]> (oxidation_states this)).
Proof.
  intros after.
  assert (Hinv : exists o m,
            after = with_metadata (with_oxidation_states this o) m /\
            Metadata.parameters m = Metadata.parameters (distortion_metadata this) /\
            (o = oxidation_states this \/
             truthy_dict (dict_number_electrons_user this) = None /\
             o = <["Vac" := 0]> (oxidation_states this))).
  { subst after. unfold apply_distortions.
    destruct (comb_defs (defects_dict this)) as [defects|e]; simpl.
    2:{ exists (oxidation_states this), (distortion_metadata this).
        split; [destruct this; reflexivity | auto]. }
    match goal with
    | |- context [for_each ?body ?l ?s0] =>
      pose proof (sweep_self this verbose l s0 eq_refl) as Hloop;
      destruct (for_each body l s0) as [s' [e|]]
    end; exact Hloop. }
  destruct Hinv as (o & m & -> & Hm & Ho). simpl.
  repeat (split; [reflexivity|]). split; [exact Hm | exact Ho].
Qed.

(** *** What a sweep that went through leaves *)

Lemma for_each_ok_invariant {A S : Type} (P : S -> Prop)
    (body : S -> A -> S * option exn) (l : list A) :
  (forall s x s', x ∈ l -> body s x = (s', None) -> P s -> P s') ->
  forall s s', for_each body l s = (s', None) -> P s -> P s'.
Proof.
  induction l as [|x l IH]; intros Hbody s s'; simpl.
  - intros [= <-] Hs. exact Hs.
  - destruct (body s x) as [s1 [e|]] eqn:Hstep; [discriminate|].
    intros Hloop Hs. apply (IH (fun s0 y s1' Hy => Hbody s0 y s1' (list_elem_of_further _ _ _ Hy))
                               s1 s' Hloop).
    apply (Hbody s x s1); [left | exact Hstep | exact Hs].
Qed.

Lemma charges_loop (verbose : bool) (defect : Rattle.DefectDict) (name : string)
    (el : option string) (n : Z) (cs : list Z) :
  forall s s',
    for_each (charge_step verbose defect name el n) cs s = (s', None) ->
    (forall n', n' <> name ->
       distorted_defects_dict s' !! n' = distorted_defects_dict s !! n' /\
       PyDict.get (Metadata.defects (distortion_metadata (self s'))) n'
       = PyDict.get (Metadata.defects (distortion_metadata (self s))) n') /\
    bond_distortions (self s') = bond_distortions (self s) /\
    stdev (self s') = stdev (self s) /\
    (forall entry me,
       distorted_defects_dict s !! name = Some entry ->
       PyDict.get (Metadata.defects (distortion_metadata (self s))) name = Some me ->
       exists entry' me',
         distorted_defects_dict s' !! name = Some entry' /\
         PyDict.get (Metadata.defects (distortion_metadata (self s'))) name = Some me' /\
         dom (charges entry') = dom (charges entry) /\
         (forall c, c ∉ cs ->
            charges entry' !! c = charges entry !! c /\
            PyDict.get (Metadata.charges me') (KInt c)
            = PyDict.get (Metadata.charges me) (KInt c)) /\
         ((forall k, k ∈ PyDict.keys (Metadata.charges me) -> exists z, k = KInt z) ->
          forall k, k ∈ PyDict.keys (Metadata.charges me') -> exists z, k = KInt z)) /\
    (forall c, c ∈ cs ->
       exists entry' st me' ce,
         distorted_defects_dict s' !! name = Some entry' /\
         charges entry' !! c = Some (Some st) /\
         PyDict.get (Metadata.defects (distortion_metadata (self s'))) name = Some me' /\
         PyDict.get (Metadata.charges me') (KInt c) = Some ce /\
         Metadata.distortion_parameters ce
         = {| Metadata.bond_distortions := bond_distortions (self s);
              Metadata.rattle_stdev := Some (stdev (self s)) |}).
Proof.
  induction cs as [|c0 cs IH]; intros s s'.
  - simpl. intros [= <-]. split; [auto|]. split; [reflexivity|]. split; [reflexivity|].
    split.
    + intros entry me He Hme. exists entry, me. repeat split; auto.
    + intros c Hc. inversion Hc.
  - rewrite for_each_cons.
    destruct (charge_step verbose defect name el n s c0) as [s1 [e|]] eqn:Hstep;
      [discriminate|].
    intros Hloop. destruct (IH s1 s' Hloop) as (HA & HB1 & HB2 & HC & HD).
    destruct (charge_step_spec _ _ _ _ _ _ _ _ Hstep)
      as (entry0 & entry1 & st & me0 & me1 & ce & m & He0 & Hc0 & Hddd & Hce1 & Hme0
          & Hself & Hpar & Hdef & Hcme1 & Hdp).
    assert (Hmd1 : distortion_metadata (self s1) = m) by (rewrite Hself; reflexivity).
    assert (Hbd1 : bond_distortions (self s1) = bond_distortions (self s))
      by (rewrite Hself; reflexivity).
    assert (Hsd1 : stdev (self s1) = stdev (self s)) by (rewrite Hself; reflexivity).
    assert (He1 : distorted_defects_dict s1 !! name = Some entry1)
      by (rewrite Hddd; apply lookup_insert_eq).
    assert (Hme1 : PyDict.get (Metadata.defects (distortion_metadata (self s1))) name
                   = Some me1).
    { rewrite Hmd1, Hdef, get_set. rewrite decide_True by reflexivity. reflexivity. }
    destruct (HC entry1 me1 He1 Hme1) as (entry' & me' & He' & Hme' & Hdom & Hkeep & Hint).
    split; [|split; [|split; [|split]]].
    + intros n' Hn'. destruct (HA n' Hn') as [H1 H2]. split.
      * rewrite H1, Hddd. apply lookup_insert_ne. congruence.
      * rewrite H2, Hmd1, Hdef, get_set. rewrite decide_False by exact Hn'. reflexivity.
    + congruence.
    + congruence.
    + intros entry me He Hme. rewrite He0 in He. injection He as <-.
      rewrite Hme0 in Hme. injection Hme as <-.
      exists entry', me'. split; [exact He'|]. split; [exact Hme'|]. split.
      { rewrite Hdom, Hce1, dom_insert_L.
        apply elem_of_dom in Hc0. set_solver. }
      split.
      * intros c Hc. apply not_elem_of_cons in Hc as [Hne Hc].
        destruct (Hkeep c Hc) as [H1 H2]. split.
        -- rewrite H1, Hce1. apply lookup_insert_ne. congruence.
        -- rewrite H2, Hcme1, get_set. rewrite decide_False by congruence. reflexivity.
      * intros Hall. apply Hint. intros k Hk. rewrite Hcme1 in Hk.
        apply keys_set_incl in Hk as [->|Hk]; [eauto | apply Hall, Hk].
    + intros c Hc. destruct (decide (c ∈ cs)) as [Hin|Hnin].
      * destruct (HD c Hin) as (e2 & st2 & m2 & ce2 & H1 & H2 & H3 & H4 & H5).
        exists e2, st2, m2, ce2. rewrite <- Hbd1, <- Hsd1. auto.
      * apply elem_of_cons in Hc as [->|Hc]; [|contradiction].
        destruct (Hkeep c0 Hnin) as [H1 H2].
        exists entry', st, me', ce. split; [exact He'|]. split.
        { rewrite H1, Hce1. apply lookup_insert_eq. }
        split; [exact Hme'|]. split; [|exact Hdp].
        rewrite H2, Hcme1, get_set. rewrite decide_True by reflexivity. reflexivity.
Qed.

Lemma defect_step_complete (this : Distortions) (verbose : bool) (s s' : sweep)
    (defect : Rattle.DefectDict) :
  defect_step verbose s defect = (s', None) ->
  complete this s ->
  complete this s' /\
  is_Some (distorted_defects_dict s' !! Rattle.name defect) /\
  (forall n, is_Some (distorted_defects_dict s !! n) ->
             is_Some (distorted_defects_dict s' !! n)).
Proof.
  unfold defect_step.
  destruct (_parse_distorted_element _ _) as [el|e]; [|discriminate].
  destruct (_parse_number_electrons _ _ _ _) as [[o log] [n|e]]; [|discriminate].
  intros Hloop (Hbd & Hsd & Hall).
  match type of Hloop with
  | for_each _ _ ?s0 = _ => set (start := s0) in Hloop
  end.
  destruct (charges_loop _ _ _ _ _ _ _ _ Hloop) as (HA & HB1 & HB2 & HC & HD).
  set (name := Rattle.name defect) in *.
  assert (Hstart_e : exists entry,
            distorted_defects_dict start !! name = Some entry /\
            dom (charges entry) = list_to_set (Rattle.charges defect)).
  { subst start. simpl. unfold _setup_distorted_defect_dict.
    rewrite lookup_insert_eq. eexists. split; [reflexivity|]. simpl.
    rewrite dom_list_to_map_L. rewrite <- list_fmap_compose.
    f_equal. rewrite <- (list_fmap_id (Rattle.charges defect)) at 2.
    apply list_fmap_ext. reflexivity. }
  destruct Hstart_e as (entry0 & He0 & Hdom0).
  assert (Hstart_m : exists me,
            PyDict.get (Metadata.defects (distortion_metadata (self start))) name = Some me /\
            Metadata.charges me = []).
  { subst start. simpl. rewrite get_set. rewrite decide_True by reflexivity.
    eexists. split; reflexivity. }
  destruct Hstart_m as (me0 & Hme0 & Hcharges0).
  assert (Hother_e : forall n', n' <> name ->
            distorted_defects_dict start !! n' = distorted_defects_dict s !! n').
  { intros n' Hn'. subst start. simpl. unfold _setup_distorted_defect_dict.
    apply lookup_insert_ne. congruence. }
  assert (Hother_m : forall n', n' <> name ->
            PyDict.get (Metadata.defects (distortion_metadata (self start))) n'
            = PyDict.get (Metadata.defects (distortion_metadata (self s))) n').
  { intros n' Hn'. subst start. simpl. rewrite get_set.
    rewrite decide_False by exact Hn'. reflexivity. }
  assert (Hbd0 : bond_distortions (self start) = bond_distortions (self s))
    by reflexivity.
  assert (Hsd0 : stdev (self start) = stdev (self s)) by reflexivity.
  destruct (HC entry0 me0 He0 Hme0) as (entry' & me' & He' & Hme' & Hdom & Hkeep & Hint).
  split; [|split].
  - split; [congruence|]. split; [congruence|].
    intros n' entry Hentry. destruct (decide (n' = name)) as [->|Hn'].
    + rewrite He' in Hentry. injection Hentry as <-.
      exists me'. split; [exact Hme'|]. split.
      { apply Hint. rewrite Hcharges0. intros k Hk. inversion Hk. }
      intros c Hc. apply elem_of_dom in Hc. rewrite Hdom, Hdom0 in Hc.
      apply elem_of_list_to_set in Hc.
      destruct (HD c Hc) as (e2 & st2 & m2 & ce2 & H1 & H2 & H3 & H4 & H5).
      rewrite He' in H1. injection H1 as <-. rewrite Hme' in H3. injection H3 as <-.
      exists st2, ce2. split; [exact H2|]. split; [exact H4|].
      rewrite H5. congruence.
    + destruct (HA n' Hn') as [H1 H2]. rewrite H1, (Hother_e n' Hn') in Hentry.
      destruct (Hall n' entry Hentry) as (me & Hme & Hk & Hc).
      exists me. split; [|split; [exact Hk | exact Hc]].
      rewrite H2, (Hother_m n' Hn'). exact Hme.
  - rewrite He'. eauto.
  - intros n' Hn'. destruct (decide (n' = name)) as [->|Hne]; [rewrite He'; eauto|].
    destruct (HA n' Hne) as [H1 _]. rewrite H1, (Hother_e n' Hne). exact Hn'.
Qed.

Lemma sweep_complete (this : Distortions) (verbose : bool)
    (defects : list Rattle.DefectDict) :
  forall s s',
    for_each (defect_step verbose) defects s = (s', None) ->
    complete this s ->
    complete this s' /\
    (forall d, d ∈ defects -> is_Some (distorted_defects_dict s' !! Rattle.name d)) /\
    (forall n, is_Some (distorted_defects_dict s !! n) ->
               is_Some (distorted_defects_dict s' !! n)).
Proof.
  induction defects as [|d defects IH]; intros s s'.
  - simpl. intros [= <-] Hs. split; [exact Hs|]. split; [|auto].
    intros d Hd. inversion Hd.
  - rewrite for_each_cons.
    destruct (defect_step verbose s d) as [s1 [e|]] eqn:Hstep; [discriminate|].
    intros Hloop Hs.
    destruct (defect_step_complete this verbose s s1 d Hstep Hs) as (Hs1 & Hd1 & Hmono1).
    destruct (IH s1 s' Hloop Hs1) as (Hs' & Hall & Hmono).
    split; [exact Hs'|]. split.
    + intros d' Hd'. apply elem_of_cons in Hd' as [->|Hd'];
        [apply Hmono, Hd1 | apply Hall, Hd'].
    + intros n Hn. apply Hmono, Hmono1, Hn.
Qed.


End DistortionsMore.

Section SweepsMore.
Import Numpy Distortions Chain Sweeps.

Lemma init_bond_distortions_witness :
  (exists this,
     __init__ default_mesh = ([], Ok this) /\
     distortion_increment this = Some 0.1%float /\
     length (bond_distortions this) = 13%nat) /\
  __init__ zero_increment
  = ([], Raise (ZeroDivisionError "float division by zero")).
Proof.
  split.
  - pose proof (@init_bond_distortions chain_geometry chain_collaborators
                  default_mesh _ _ eq_refl eq_refl) as Hinit.
    cbv zeta in Hinit. simpl arg_bond_distortions in Hinit.
    simpl arg_distortion_increment in Hinit. cbv iota in Hinit.
    destruct (np_arange 0 0.601 (default 0.1%float None)) as [values|e] eqn:Hvalues;
      [|vm_compute in Hvalues; discriminate].
    destruct Hinit as (this & Hthis & _ & Hinc & _ & _ & Hlen).
    exists this. split; [exact Hthis|]. split; [exact Hinc|].
    assert (Hseven : length (map np_around3 values) = 7%nat).
    { rewrite length_map. apply (f_equal (fun r => length (value r []))) in Hvalues.
      simpl in Hvalues. rewrite <- Hvalues. vm_compute. reflexivity. }
    specialize (Hlen ltac:(intros Hnil; rewrite Hnil in Hseven; discriminate)).
    rewrite Hseven in Hlen. lia.
  - pose proof (@init_bond_distortions chain_geometry chain_collaborators
                  zero_increment _ _ eq_refl eq_refl) as Hinit.
    cbv zeta in Hinit. simpl arg_bond_distortions in Hinit.
    simpl arg_distortion_increment in Hinit. cbv iota in Hinit.
    destruct (np_arange 0 0.601 (default 0.1%float (Some 0%float)))
      as [values|e] eqn:Hvalues; [vm_compute in Hvalues; discriminate|].
    rewrite Hinit. vm_compute in Hvalues. injection Hvalues as <-. reflexivity.
Defined.

Lemma apply_distortions_distorted_element_missing_witness :
  exists msg, (apply_distortions wrong_name false).2 = Raise (TypeError msg).
Proof.
  destruct (@apply_distortions_distorted_element_missing chain_geometry
              chain_collaborators wrong_name false vac_1_Cd [] {["vac_2_Cd" := "Te"]}
              eq_refl eq_refl) as [msg Hrun].
  - intros Heq. apply (f_equal (fun m : gmap string string => m !! "vac_2_Cd")) in Heq.
    vm_compute in Heq. discriminate.
  - vm_compute. reflexivity.
  - exists msg. rewrite Hrun. reflexivity.
Defined.

Lemma parse_number_electrons_spec_witness :
  _parse_number_electrons "vac_1_Cd" CdTe_oxidation_states (Some {["vac_1_Cd" := -3]})
    vac_1_Cd
  = (CdTe_oxidation_states,
     [Msg_defect "vac_1_Cd"; Msg_extra_electrons (-3)], Ok (-3)) /\
  _parse_number_electrons "vac_1_Cd" CdTe_oxidation_states (Some {["Int_Cd_1" := 2]})
    vac_1_Cd
  = (CdTe_oxidation_states, [], Raise (KeyError "vac_1_Cd")).
Proof.
  assert (Hne : forall (k : string) (z : Z), ({[k := z]} : gmap string Z) <> ∅).
  { intros k z Heq. apply (f_equal (fun m : gmap string Z => m !! k)) in Heq.
    rewrite lookup_singleton_eq, lookup_empty in Heq. discriminate. }
  split.
  - destruct (proj1 (@parse_number_electrons_spec chain_geometry
                       "vac_1_Cd" CdTe_oxidation_states (Some {["vac_1_Cd" := -3]})
                       vac_1_Cd) {["vac_1_Cd" := -3]} eq_refl (Hne _ _))
      as (_ & Hfound & _).
    apply (Hfound (-3)). vm_compute. reflexivity.
  - destruct (proj1 (@parse_number_electrons_spec chain_geometry
                       "vac_1_Cd" CdTe_oxidation_states (Some {["Int_Cd_1" := 2]})
                       vac_1_Cd) {["Int_Cd_1" := 2]} eq_refl (Hne _ _))
      as (_ & _ & Hmissing).
    apply Hmissing. vm_compute. reflexivity.
Defined.

Lemma apply_distortions_only_bulk_witness :
  (apply_distortions only_bulk false).2
  = Raise (TypeError "reduce() of empty iterable with no initial value").
Proof.
  rewrite (proj2 (@apply_distortions_only_bulk chain_geometry chain_collaborators
                    only_bulk false) eq_refl).
  reflexivity.
Defined.

Lemma apply_distortions_no_bond_distortions_witness :
  (apply_distortions no_mesh false).2 = Raise (KeyError "distorted_atoms").
Proof.
  destruct (@apply_distortions_no_bond_distortions chain_geometry chain_collaborators
              no_mesh false vac_1_Cd [] 0 [-1; -2] None 2 eq_refl eq_refl eq_refl
              eq_refl eq_refl) as (s & Hrun & _).
  - discriminate.
  - rewrite Hrun. reflexivity.
Defined.


End SweepsMore.

(** ** The input files *)

Section SplitFacts.

Lemma append_cons (x : ascii) (a b : string) :
  String x a +:+ b = String x (a +:+ b).
Proof. reflexivity. Qed.

Lemma append_assoc' (a b c : string) : (a +:+ b) +:+ c = a +:+ (b +:+ c).
Proof.
  induction a as [|x a IH]; [reflexivity|]. rewrite !append_cons, IH. reflexivity.
Qed.

Lemma append_empty_r (a : string) : a +:+ "" = a.
Proof.
  induction a as [|x a IH]; [reflexivity|]. rewrite append_cons, IH. reflexivity.
Qed.

Lemma split_spec (sep : ascii) (s : string) :
  split sep s <> [] /\
  Forall (fun w => forall n, String.get n w <> Some sep) (split sep s) /\
  String.concat (String sep "") (split sep s) = s.
Proof.
  induction s as [|c s (Hne & Hall & Hjoin)]; simpl.
  - split; [discriminate|]. split; [|reflexivity].
    constructor; [|constructor]. intros n. destruct n; discriminate.
  - destruct (Ascii.eqb_spec c sep) as [->|Hc].
    + split; [discriminate|]. split.
      * constructor; [|exact Hall]. intros n. destruct n; discriminate.
      * destruct (split sep s) as [|w ws]; [contradiction|].
        simpl in *. rewrite Hjoin. reflexivity.
    + destruct (split sep s) as [|w ws]; [contradiction|].
      split; [discriminate|]. split.
      * inversion Hall as [|? ? Hw Hws]; subst. constructor; [|exact Hws].
        intros [|n]; simpl; [congruence | apply Hw].
      * destruct ws as [|x ws]; simpl in *; rewrite <- Hjoin; reflexivity.
Qed.

Lemma concat_last (sep : string) (l : list string) :
  l <> [] ->
  exists head,
    String.concat sep l = head +:+ List.last l "" /\
    (head = "" \/ exists h, head = h +:+ sep).
Proof.
  induction l as [|w l IH]; [contradiction|]. intros _.
  destruct l as [|x l].
  - exists "". split; [reflexivity | left; reflexivity].
  - destruct IH as (head & Hjoin & Hhead); [discriminate|].
    change (String.concat sep (w :: x :: l))
      with (w +:+ sep +:+ String.concat sep (x :: l)).
    change (List.last (w :: x :: l) "") with (List.last (x :: l) "").
    rewrite Hjoin. exists (w +:+ sep +:+ head). split.
    + rewrite !append_assoc'. reflexivity.
    + right. destruct Hhead as [->|[h ->]].
      * exists w. rewrite append_empty_r. reflexivity.
      * exists (w +:+ sep +:+ h). rewrite !append_assoc'. reflexivity.
Qed.

End SplitFacts.

Section VaspFilesFacts.
Import Distortions VaspFiles.
Context `{Collaborators} `{!Writer}.

(** X22: the comment of a structure is the part of the distortion key
    after its last underscore (the whole key when it has none), then
    ["____num_neighbours="] and the number of neighbours the metadata holds
    for the charge, then ["_"] and the name of the defect.  A defect, or a
    charge, that the metadata lacks raises [KeyError]. *)
Theorem generate_structure_comment_spec (self : Distortions)
    (key_distortion : string) (charge : Z) (defect_name : string) :
  let out := _generate_structure_comment self key_distortion charge defect_name in
  let defects := Metadata.defects (distortion_metadata self) in
  (forall entry charge_entry,
     PyDict.get defects defect_name = Some entry ->
     PyDict.get (Metadata.charges entry) (KInt charge) = Some charge_entry ->
     exists head tail,
       key_distortion = head +:+ tail /\
       (head = "" \/ exists h, head = h +:+ "_") /\
       (forall n, String.get n tail <> Some "_"%char) /\
       out = Ok (tail +:+ "____num_neighbours="
                 +:+ pretty (Metadata.num_nearest_neighbours charge_entry)
                 +:+ "_" +:+ defect_name)) /\
  (PyDict.get defects defect_name = None -> out = Raise (KeyError defect_name)) /\
  (forall entry,
     PyDict.get defects defect_name = Some entry ->
     PyDict.get (Metadata.charges entry) (KInt charge) = None ->
     out = Raise (KeyError (pretty charge))).
Proof.
  intros out defects. subst out defects. unfold _generate_structure_comment.
  split; [|split].
  - intros entry charge_entry -> ->.
    destruct (split_spec "_" key_distortion) as (Hne & Hall & Hjoin).
    destruct (concat_last "_" _ Hne) as (head & Hlast & Hhead).
    exists head, (List.last (split "_" key_distortion) "").
    split; [rewrite <- Hlast; symmetry; exact Hjoin|]. split; [exact Hhead|].
    split; [|reflexivity].
    rewrite Forall_forall in Hall. apply Hall.
    pose proof (app_removelast_last "" Hne) as Heq.
    set (tail := List.last (split "_" key_distortion) "") in *.
    rewrite Heq. apply elem_of_app. right. left.
  - intros ->. reflexivity.
  - intros entry -> ->. reflexivity.
Qed.

(** *** The calls of one defect *)

Lemma create_vasp_input_calls (defect_name : string)
    (distorted_defect_dict : list (string * single_defect_dict))
    (incar_settings : option IncarSettings)
    (potcar_settings : option PotcarSettings) (output_path : string)
    (log : list call) :
  _create_vasp_input defect_name distorted_defect_dict incar_settings
    potcar_settings output_path = (log, None) ->
  forall k single,
    (k, single) ∈ distorted_defect_dict ->
    Call_vasp_gam_files single (input_dir output_path defect_name k) incar_settings
      potcar_settings ∈ log.
Proof.
  unfold _create_vasp_input.
  match goal with
  | |- context [for_each ?b _ _] => set (body := b)
  end.
  assert (Hloop : forall l acc acc',
            for_each body l acc = (acc', None) ->
            (forall x, x ∈ acc -> x ∈ acc') /\
            forall k single, (k, single) ∈ l ->
              Call_vasp_gam_files single (input_dir output_path defect_name k)
                incar_settings potcar_settings ∈ acc').
  { induction l as [|[k0 s0] l IH]; intros acc acc'.
    - simpl. intros [= <-]. split; [auto|]. intros k single Hin. inversion Hin.
    - rewrite for_each_cons. subst body. cbn beta.
      destruct (vasp_gam_files _ _ _ _); [discriminate|].
      intros Hrest. destruct (IH _ _ Hrest) as [Hmono Hcalls]. split.
      + intros x Hx. apply Hmono, elem_of_app. left. exact Hx.
      + intros k single Hin. apply elem_of_cons in Hin as [[= -> ->]|Hin].
        * apply Hmono, elem_of_app. right. left.
        * apply Hcalls, Hin. }
  destruct (for_each body distorted_defect_dict []) as [acc [e|]] eqn:Hrun;
    intros [= <-]. intros k single Hin. right.
  exact (proj2 (Hloop _ _ _ Hrun) k single Hin).
Qed.

Lemma elem_of_first_occurrences {A : Type} `{EqDecision A} (l : list A) (x : A) :
  x ∈ first_occurrences l <-> x ∈ l.
Proof.
  induction l as [|a l IH]; simpl; [reflexivity|].
  rewrite !elem_of_cons, list_elem_of_filter, IH.
  destruct (decide (x = a)); tauto.
Qed.

Lemma NoDup_first_occurrences {A : Type} `{EqDecision A} (l : list A) :
  NoDup (first_occurrences l).
Proof.
  induction l as [|a l IH]; simpl; [constructor|].
  apply NoDup_cons. split; [|apply NoDup_filter, IH].
  rewrite list_elem_of_filter. tauto.
Qed.

(** The order of the distortions loses no entry and repeats no key. *)
Lemma distortions_in_order_spec (self : Distortions)
    (distortions : gmap string Structure) :
  NoDup (distortions_in_order self distortions).*1 /\
  forall k v,
    (k, v) ∈ distortions_in_order self distortions <-> distortions !! k = Some v.
Proof.
  unfold distortions_in_order.
  set (labels := first_occurrences (map Rattle.label (bond_distortions self))).
  set (known := omap (fun k => (fun v => (k, v)) <$> distortions !! k) labels).
  set (others := List.filter (fun kv => negb (existsb (String.eqb kv.1) labels))
                             (map_to_list distortions)).
  assert (Hlabel : forall k, existsb (String.eqb k) labels = true <-> k ∈ labels).
  { intros k. rewrite existsb_exists. split.
    - intros (x & Hx & Heq). apply String.eqb_eq in Heq. subst x.
      apply list_elem_of_In, Hx.
    - intros Hk. exists k. split; [apply list_elem_of_In, Hk | apply String.eqb_refl]. }
  assert (Hknown : forall k v,
            (k, v) ∈ known <-> k ∈ labels /\ distortions !! k = Some v).
  { intros k v. subst known. rewrite list_elem_of_omap. split.
    - intros (k' & Hk' & Hkv). destruct (distortions !! k') as [v'|] eqn:Hv';
        [|discriminate]. simpl in Hkv. injection Hkv as <- <-. auto.
    - intros [Hk Hv]. exists k. split; [exact Hk|]. rewrite Hv. reflexivity. }
  assert (Hothers : forall k v,
            (k, v) ∈ others <-> (k ∉ labels) /\ distortions !! k = Some v).
  { intros k v. subst others. rewrite list_elem_of_In, List.filter_In,
      <- list_elem_of_In, elem_of_map_to_list, negb_true_iff,
      <- not_true_iff_false, Hlabel. simpl. tauto. }
  split.
  - rewrite fmap_app. apply NoDup_app. split; [|split].
    + subst known. generalize (NoDup_first_occurrences
                                 (map Rattle.label (bond_distortions self))).
      fold labels.
      assert (Hsub : forall k, k ∈ (omap (fun k => (fun v => (k, v)) <$> distortions !! k)
                                         labels).*1 -> k ∈ labels).
      { intros k Hk. apply list_elem_of_fmap in Hk as ([k' v] & -> & Hkv).
        apply Hknown in Hkv. tauto. }
      clear Hknown Hlabel Hothers others. revert Hsub.
      induction labels as [|x labels IH]; intros Hsub Hnd; [constructor|].
      apply NoDup_cons in Hnd as [Hx Hnd]. simpl.
      assert (Hrest : NoDup (omap (fun k => (fun v => (k, v)) <$> distortions !! k)
                                  labels).*1).
      { apply IH; [|exact Hnd]. intros k Hk.
        apply list_elem_of_fmap in Hk as ([k' v] & -> & Hkv).
        apply list_elem_of_omap in Hkv as (k'' & Hk'' & Hkv).
        destruct (distortions !! k''); [|discriminate]. simpl in Hkv.
        injection Hkv as <- <-. exact Hk''. }
      destruct (distortions !! x) as [v|]; simpl; [|exact Hrest].
      apply NoDup_cons. split; [|exact Hrest]. intros Hin. apply Hx.
      apply list_elem_of_fmap in Hin as ([k' v'] & -> & Hkv).
      apply list_elem_of_omap in Hkv as (k'' & Hk'' & Hkv).
      destruct (distortions !! k''); [|discriminate]. simpl in Hkv.
      injection Hkv as <- <-. exact Hk''.
    + intros k Hk Hk'. apply list_elem_of_fmap in Hk as ([k1 v1] & -> & Hin1).
      apply list_elem_of_fmap in Hk' as ([k2 v2] & Heq & Hin2).
      simpl in Heq. subst k2.
      apply Hknown in Hin1. apply Hothers in Hin2. tauto.
    + subst others. clear Hothers.
      pose proof (NoDup_fst_map_to_list distortions) as Hnd.
      induction (map_to_list distortions) as [|[k v] l IH]; [constructor|].
      simpl in Hnd. apply NoDup_cons in Hnd as [Hk Hnd]. simpl.
      destruct (negb _); [|exact (IH Hnd)]. simpl.
      apply NoDup_cons. split; [|exact (IH Hnd)]. intros Hin. apply Hk.
      apply list_elem_of_fmap in Hin as ([k' v'] & -> & Hin).
      apply list_elem_of_In, List.filter_In in Hin as [Hin _].
      apply list_elem_of_fmap. exists (k', v'). split; [reflexivity|].
      apply list_elem_of_In, Hin.
  - intros k v. rewrite elem_of_app, Hknown, Hothers.
    destruct (decide (k ∈ labels)); tauto.
Qed.

Lemma add_structures (self : Distortions) (defect_name : string)
    (defect_dict : distorted_defect_entry) (charge : Z)
    (l : list (string * Structure)) :
  NoDup l.*1 ->
  forall cd cd',
    for_each (add_structure self defect_name defect_dict charge) l cd = (cd', None) ->
    forall k v, (k, v) ∈ l ->
      exists single,
        PyDict.get cd' k = Some single /\
        Defect_Structure single = v /\
        td_charge (Transformation_Dict single) = charge /\
        _generate_structure_comment self k charge defect_name
        = Ok (POSCAR_Comment single).
Proof.
  induction l as [|[k0 v0] l IH]; intros Hnd cd cd'.
  - simpl. intros _ k v Hin. inversion Hin.
  - rewrite for_each_cons. unfold add_structure at 1. simpl.
    destruct (_generate_structure_comment self k0 charge defect_name) as [c|e] eqn:Hc;
      [|discriminate].
    simpl in Hnd. apply NoDup_cons in Hnd as [Hk0 Hnd].
    intros Hrest k v Hin. apply elem_of_cons in Hin as [[= -> ->]|Hin].
    + assert (Hkeep : forall l' cd1 cd2,
                k0 ∉ l'.*1 ->
                for_each (add_structure self defect_name defect_dict charge) l' cd1
                = (cd2, None) ->
                PyDict.get cd2 k0 = PyDict.get cd1 k0).
      { clear. induction l' as [|[k1 v1] l' IH']; intros cd1 cd2 Hk.
        - simpl. intros [= <-]. reflexivity.
        - rewrite for_each_cons. unfold add_structure at 1. simpl.
          destruct (_generate_structure_comment self k1 charge defect_name);
            [|discriminate].
          simpl in Hk. apply not_elem_of_cons in Hk as [Hne Hk].
          intros Hrest. rewrite (IH' _ _ Hk Hrest), get_set.
          rewrite decide_False by exact Hne. reflexivity. }
      rewrite (Hkeep _ _ _ Hk0 Hrest), get_set. rewrite decide_True by reflexivity.
      eexists. split; [reflexivity|]. split; [reflexivity|]. split; [reflexivity|].
      exact Hc.
    + exact (IH Hnd _ _ Hrest k v Hin).
Qed.

Lemma charge_files_spec (self : Distortions)
    (incar_settings : option IncarSettings)
    (potcar_settings : option PotcarSettings) (output_path defect_name : string)
    (defect_dict : distorted_defect_entry) (p p' : progress) (charge : Z) :
  charge_files self incar_settings potcar_settings output_path defect_name
    defect_dict p charge = (p', None) ->
  (forall x, x ∈ calls p -> x ∈ calls p') /\
  (forall k single,
     k <> "Unperturbed" -> PyDict.get (charged_defect p) k = Some single ->
     Call_vasp_gam_files single
       (input_dir output_path (folder defect_name charge) k) incar_settings
       potcar_settings ∈ calls p') /\
  (forall st k v,
     charges defect_dict !! charge = Some (Some st) ->
     distortions st !! k = Some v ->
     exists single,
       PyDict.get (charged_defect p') k = Some single /\
       Defect_Structure single = v /\
       td_charge (Transformation_Dict single) = charge /\
       _generate_structure_comment self k charge defect_name
       = Ok (POSCAR_Comment single)).
Proof.
  unfold charge_files.
  destruct (_generate_structure_comment self "Unperturbed" charge defect_name)
    as [comment|e]; [|discriminate].
  destruct (charges defect_dict !! charge) as [[st|]|]; [|discriminate|discriminate].
  destruct (_create_vasp_input _ _ _ _ _) as [log [e|]] eqn:Hfirst; [discriminate|].
  destruct (for_each _ (distortions_in_order self (distortions st)) _)
    as [cd [e|]] eqn:Hadd; [discriminate|].
  destruct (_create_vasp_input _ cd _ _ _) as [log' e] eqn:Hsecond.
  intros [= <- ->]. simpl. split; [|split].
  - intros x Hx. apply elem_of_app. left. exact Hx.
  - intros k single Hk Hget. apply elem_of_app. right. apply elem_of_app. left.
    apply (create_vasp_input_calls _ _ _ _ _ _ Hfirst).
    apply get_elem_of. rewrite get_set. rewrite decide_False by exact Hk. exact Hget.
  - intros st' k v [= <-] Hv.
    destruct (distortions_in_order_spec self (distortions st)) as [Hnd Hin].
    apply (add_structures self defect_name defect_dict charge
             (distortions_in_order self (distortions st)) Hnd _ _ Hadd).
    apply Hin. exact Hv.
Qed.

(** X23: [write_vasp_files] creates the dictionary [charged_defect]
    once for a defect and not once for a charge state.  So when the files of
    a defect are written without an exception, every distortion of a charge
    state is written again in the folder of the charge state that follows
    it, with the structure, the charge and the comment of the earlier charge
    state, whether or not the later charge state has that distortion. *)
Theorem defect_files_previous_charge (self : Distortions)
    (incar_settings : option IncarSettings)
    (potcar_settings : option PotcarSettings) (output_path : string)
    (log log' : list call) (defect_name : string)
    (defect_dict : distorted_defect_entry) (before : list Z) (c1 c2 : Z)
    (after : list Z) (st : structures) (label : string) (structure : Structure) :
  defect_files self incar_settings potcar_settings output_path log
    (defect_name, defect_dict, before ++ c1 :: c2 :: after) = (log', None) ->
  charges defect_dict !! c1 = Some (Some st) ->
  distortions st !! label = Some structure ->
  label <> "Unperturbed" ->
  exists single,
    Call_vasp_gam_files single
      (input_dir output_path (folder defect_name c2) label) incar_settings
      potcar_settings ∈ log' /\
    Defect_Structure single = structure /\
    td_charge (Transformation_Dict single) = c1 /\
    _generate_structure_comment self label c1 defect_name
    = Ok (POSCAR_Comment single).
Proof.
  unfold defect_files. simpl.
  match goal with
  | |- context [for_each ?b _ ?p0] => set (body := b); set (start := p0)
  end.
  rewrite for_each_app.
  destruct (for_each body before start) as [pa [e|]]; [discriminate|].
  rewrite for_each_cons.
  destruct (body pa c1) as [pb [e|]] eqn:Hc1; [discriminate|].
  rewrite for_each_cons.
  destruct (body pb c2) as [pc [e|]] eqn:Hc2; [discriminate|].
  destruct (for_each body after pc) as [pd [e|]] eqn:Hrest; intros [= <-].
  intros Hst Hlabel Hne.
  destruct (charge_files_spec _ _ _ _ _ _ _ _ _ Hc1) as (_ & _ & Hfiled).
  destruct (Hfiled st label structure Hst Hlabel) as (single & Hget & Hs & Hc & Hcomment).
  destruct (charge_files_spec _ _ _ _ _ _ _ _ _ Hc2) as (_ & Hcalls & _).
  exists single. split; [|split; [exact Hs | split; [exact Hc | exact Hcomment]]].
  assert (Hmono : forall x, x ∈ calls pc -> x ∈ calls pd).
  { intros x. apply (for_each_ok_invariant (fun p => x ∈ calls p) body after);
      [|exact Hrest].
    intros p c p'' _ Hstep Hx.
    exact (proj1 (charge_files_spec _ _ _ _ _ _ _ _ _ Hstep) x Hx). }
  apply Hmono, (Hcalls label single Hne Hget).
Qed.

(** *** All the files of a sweep *)

Lemma for_each_all_ok {A S : Type} (body : S -> A -> S * option exn) (l : list A) :
  (forall s x, x ∈ l -> exists s', body s x = (s', None)) ->
  forall s, exists s', for_each body l s = (s', None).
Proof.
  induction l as [|x l IH]; intros Hbody s.
  - exists s. reflexivity.
  - rewrite for_each_cons. destruct (Hbody s x) as [s1 ->]; [left|].
    apply IH. intros s0 y Hy. apply Hbody. right. exact Hy.
Qed.

Lemma for_each_ok_established {A S : Type} (P : S -> Prop)
    (body : S -> A -> S * option exn) (l : list A) (x : A) :
  x ∈ l ->
  (forall s y s', body s y = (s', None) -> P s -> P s') ->
  (forall s s', body s x = (s', None) -> P s') ->
  forall s s', for_each body l s = (s', None) -> P s'.
Proof.
  intros Hx Hkeep Hset. induction l as [|y l IH]; [inversion Hx|].
  intros s s'. rewrite for_each_cons.
  destruct (body s y) as [s1 [e|]] eqn:Hstep; [discriminate|]. intros Hloop.
  apply elem_of_cons in Hx as [->|Hx].
  - apply (for_each_ok_invariant P body l (fun s0 z s2 _ => Hkeep s0 z s2) s1 s' Hloop).
    exact (Hset _ _ Hstep).
  - exact (IH Hx s1 s' Hloop).
Qed.

Lemma defect_step_charges_of_last (verbose : bool) (s s' : sweep)
    (defect : Rattle.DefectDict) (done : list Rattle.DefectDict) :
  defect_step verbose s defect = (s', None) ->
  charges_of_last done (distorted_defects_dict s) ->
  charges_of_last (done ++ [defect]) (distorted_defects_dict s').
Proof.
  unfold defect_step.
  destruct (_parse_distorted_element _ _) as [el|e]; [|discriminate].
  destruct (_parse_number_electrons _ _ _ _) as [[o log] [n|e]]; [|discriminate].
  intros Hloop Hdone.
  match type of Hloop with
  | for_each _ _ ?s0 = _ => set (start := s0) in Hloop
  end.
  destruct (charges_loop _ _ _ _ _ _ _ _ Hloop) as (HA & _ & _ & HC & _).
  set (name := Rattle.name defect) in *.
  intros n' entry Hentry. rewrite List.filter_app. simpl.
  destruct (decide (n' = name)) as [->|Hn'].
  - fold name. rewrite String.eqb_refl. rewrite last_snoc. exists defect.
    split; [reflexivity|].
    destruct (HC _ _ ltac:(subst start; simpl; unfold _setup_distorted_defect_dict;
                           apply lookup_insert_eq)
                     ltac:(subst start; simpl; rewrite get_set;
                           rewrite decide_True by reflexivity; reflexivity))
      as (entry' & me' & He' & _ & Hdom & _).
    rewrite He' in Hentry. injection Hentry as <-. rewrite Hdom. simpl.
    rewrite dom_list_to_map_L, <- list_fmap_compose. f_equal.
    rewrite <- (list_fmap_id (Rattle.charges defect)) at 2.
    apply list_fmap_ext. reflexivity.
  - fold name. destruct (String.eqb_spec name n') as [Heq|_]; [congruence|].
    rewrite app_nil_r. apply Hdone.
    destruct (HA n' Hn') as [Hsame _]. rewrite Hsame in Hentry.
    subst start. simpl in Hentry.
    unfold _setup_distorted_defect_dict in Hentry.
    rewrite lookup_insert_ne in Hentry by congruence. exact Hentry.
Qed.

Lemma sweep_charges_of_last (verbose : bool) (defects : list Rattle.DefectDict) :
  forall (done : list Rattle.DefectDict) (s s' : sweep),
    for_each (defect_step verbose) defects s = (s', None) ->
    charges_of_last done (distorted_defects_dict s) ->
    charges_of_last (done ++ defects) (distorted_defects_dict s').
Proof.
  induction defects as [|d defects IH]; intros done s s'.
  - simpl. intros [= <-]. rewrite app_nil_r. auto.
  - rewrite for_each_cons.
    destruct (defect_step verbose s d) as [s1 [e|]] eqn:Hstep; [discriminate|].
    intros Hloop Hdone.
    change (d :: defects) with ([d] ++ defects). rewrite app_assoc.
    apply (IH _ s1 s' Hloop).
    exact (defect_step_charges_of_last verbose s s1 d done Hstep Hdone).
Qed.

Lemma generate_structure_comment_ok (self : Distortions) (label : string)
    (charge : Z) (defect_name : string) (me : Metadata.defect_entry)
    (ce : Metadata.charge_entry) :
  PyDict.get (Metadata.defects (distortion_metadata self)) defect_name = Some me ->
  PyDict.get (Metadata.charges me) (KInt charge) = Some ce ->
  exists comment,
    _generate_structure_comment self label charge defect_name = Ok comment.
Proof.
  intros Hme Hce. unfold _generate_structure_comment. rewrite Hme, Hce. eauto.
Qed.

Section QuietWriter.
Variable incar_settings : option IncarSettings.
Variable potcar_settings : option PotcarSettings.
Variable output_path : string.
Hypothesis never_raises :
  forall single dir, vasp_gam_files single dir incar_settings potcar_settings = None.

Lemma create_vasp_input_ok (defect_name : string)
    (distorted_defect_dict : list (string * single_defect_dict)) :
  exists log,
    _create_vasp_input defect_name distorted_defect_dict incar_settings
      potcar_settings output_path = (log, None).
Proof.
  unfold _create_vasp_input.
  match goal with
  | |- context [for_each ?b _ _] =>
    destruct (for_each_all_ok b distorted_defect_dict) with (s := @nil call)
      as [calls ->]
  end.
  - intros calls kv _. cbn beta. rewrite never_raises. eauto.
  - eauto.
Qed.

Lemma charge_files_ok (self : Distortions) (defect_name : string)
    (defect_dict : distorted_defect_entry) (p : progress) (charge : Z)
    (me : Metadata.defect_entry) (ce : Metadata.charge_entry) (st : structures) :
  PyDict.get (Metadata.defects (distortion_metadata self)) defect_name = Some me ->
  PyDict.get (Metadata.charges me) (KInt charge) = Some ce ->
  charges defect_dict !! charge = Some (Some st) ->
  exists p',
    charge_files self incar_settings potcar_settings output_path defect_name
      defect_dict p charge = (p', None).
Proof.
  intros Hme Hce Hst. unfold charge_files.
  destruct (generate_structure_comment_ok self "Unperturbed" _ _ _ _ Hme Hce)
    as [comment ->].
  rewrite Hst.
  match goal with
  | |- context [_create_vasp_input ?n ?d _ _ _] =>
    destruct (create_vasp_input_ok n d) as [log ->]
  end.
  match goal with
  | |- context [for_each ?b ?l ?s0] =>
    destruct (for_each_all_ok b l) with (s := s0) as [cd ->]
  end.
  - intros cd kv _. unfold add_structure.
    destruct (generate_structure_comment_ok self kv.1 _ _ _ _ Hme Hce) as [c ->].
    eauto.
  - match goal with
    | |- context [_create_vasp_input ?n ?d _ _ _] =>
      destruct (create_vasp_input_ok n d) as [log' ->]
    end.
    eauto.
Qed.

End QuietWriter.

Lemma charge_files_calls (self : Distortions)
    (incar_settings : option IncarSettings)
    (potcar_settings : option PotcarSettings) (output_path defect_name : string)
    (defect_dict : distorted_defect_entry) (p p' : progress) (charge : Z)
    (st : structures) :
  charge_files self incar_settings potcar_settings output_path defect_name
    defect_dict p charge = (p', None) ->
  charges defect_dict !! charge = Some (Some st) ->
  (exists single,
     Call_vasp_gam_files single
       (input_dir output_path (folder defect_name charge) "Unperturbed")
       incar_settings potcar_settings ∈ calls p' /\
     Defect_Structure single = Unperturbed st /\
     td_charge (Transformation_Dict single) = charge) /\
  (forall label structure,
     distortions st !! label = Some structure ->
     exists single,
       Call_vasp_gam_files single
         (input_dir output_path (folder defect_name charge) label)
         incar_settings potcar_settings ∈ calls p' /\
       Defect_Structure single = structure /\
       td_charge (Transformation_Dict single) = charge).
Proof.
  intros Hrun Hst.
  pose proof (charge_files_spec _ _ _ _ _ _ _ _ _ Hrun) as (_ & _ & Hfiled).
  revert Hrun. unfold charge_files.
  destruct (_generate_structure_comment self "Unperturbed" charge defect_name)
    as [comment|e]; [|discriminate].
  rewrite Hst.
  destruct (_create_vasp_input _ _ _ _ _) as [log [e|]] eqn:Hfirst; [discriminate|].
  destruct (for_each _ (distortions_in_order self (distortions st)) _)
    as [cd [e|]] eqn:Hadd; [discriminate|].
  destruct (_create_vasp_input _ cd _ _ _) as [log' [e|]] eqn:Hsecond;
    intros [= <-]; simpl in *. split.
  - exists {| Defect_Structure := Unperturbed st;
              POSCAR_Comment := comment;
              Transformation_Dict := dict_transf defect_dict charge |}.
    split; [|split; reflexivity].
    apply elem_of_app. right. apply elem_of_app. left.
    apply (create_vasp_input_calls _ _ _ _ _ _ Hfirst).
    apply get_elem_of. rewrite get_set. rewrite decide_True by reflexivity.
    reflexivity.
  - intros label structure Hlabel.
    destruct (Hfiled st label structure Hst Hlabel) as (single & Hget & Hs & Hc & _).
    exists single. split; [|split; assumption].
    apply elem_of_app. right. apply elem_of_app. right.
    apply (create_vasp_input_calls _ _ _ _ _ _ Hsecond).
    apply get_elem_of. exact Hget.
Qed.

Lemma defect_files_reach (self : Distortions)
    (incar_settings : option IncarSettings)
    (potcar_settings : option PotcarSettings) (output_path : string)
    (P : list call -> Prop) (name : string) (entry : distorted_defect_entry)
    (cs : list Z) (c : Z) (log log' : list call) :
  (forall l l', (forall x, x ∈ l -> x ∈ l') -> P l -> P l') ->
  defect_files self incar_settings potcar_settings output_path log
    (name, entry, cs) = (log', None) ->
  (P log -> P log') /\
  (c ∈ cs ->
   (forall p p',
      charge_files self incar_settings potcar_settings output_path name entry p c
      = (p', None) -> P (calls p')) ->
   P log').
Proof.
  intros Hmono. unfold defect_files. simpl.
  match goal with
  | |- context [for_each ?b _ ?p0] => set (body := b); set (start := p0)
  end.
  destruct (for_each body cs start) as [p [e|]] eqn:Hrun; intros [= <-].
  assert (Hstep : forall p1 y p2, body p1 y = (p2, None) ->
                    P (calls p1) -> P (calls p2)).
  { intros p1 y p2 Hy. apply Hmono.
    exact (proj1 (charge_files_spec _ _ _ _ _ _ _ _ _ Hy)). }
  split.
  - intros Hlog.
    apply (for_each_ok_invariant (fun p => P (calls p)) body cs
             (fun p1 y p2 _ => Hstep p1 y p2) start p Hrun).
    exact Hlog.
  - intros Hc Hset.
    exact (for_each_ok_established (fun p => P (calls p)) body cs c Hc Hstep Hset
             start p Hrun).
Qed.

Lemma apply_distortions_sweep (this : Distortions) (verbose : bool) (s : sweep)
    (distorted_defects_dict : gmap string distorted_defect_entry)
    (distortion_metadata : Metadata.metadata) :
  apply_distortions this verbose
  = (s, Ok (distorted_defects_dict, distortion_metadata)) ->
  exists defects,
    comb_defs (defects_dict this) = Ok defects /\
    defects_dict (self s) = defects_dict this /\
    distorted_defects_dict = Distortions.distorted_defects_dict s /\
    distortion_metadata = Distortions.distortion_metadata (self s) /\
    complete this s /\
    charges_of_last defects distorted_defects_dict.
Proof.
  unfold apply_distortions.
  destruct (comb_defs (defects_dict this)) as [defects|e]; [|discriminate].
  match goal with
  | |- context [for_each ?body ?l ?s0] =>
    destruct (for_each body l s0) as [s' [e|]] eqn:Hrun; [discriminate|];
    destruct (sweep_complete this verbose l s0 s' Hrun) as (Hs' & _ & _);
    [|pose proof (sweep_charges_of_last verbose l [] s0 s' Hrun) as Hlast;
      destruct (sweep_self this verbose l s0 eq_refl) as (o & m & Hself & _);
      rewrite Hrun in Hself; simpl in Hself]
  end.
  { split; [reflexivity|]. split; [reflexivity|]. intros name entry Hentry.
    simpl in Hentry. rewrite lookup_empty in Hentry. discriminate. }
  intros [= <- <- <-]. exists defects. split; [reflexivity|].
  split; [rewrite Hself; reflexivity|].
  split; [reflexivity|]. split; [reflexivity|]. split; [exact Hs'|].
  apply Hlast. intros name entry Hentry. simpl in Hentry.
  rewrite lookup_empty in Hentry. discriminate.
Qed.

Lemma items_in_order_spec (defects : list Rattle.DefectDict)
    (distorted_defects_dict : gmap string distorted_defect_entry) :
  charges_of_last defects distorted_defects_dict ->
  (forall item,
     item ∈ items_in_order defects distorted_defects_dict ->
     distorted_defects_dict !! item.1.1 = Some item.1.2 /\
     forall c, c ∈ item.2 <-> is_Some (charges item.1.2 !! c)) /\
  (forall name entry,
     distorted_defects_dict !! name = Some entry ->
     exists cs,
       (name, entry, cs) ∈ items_in_order defects distorted_defects_dict /\
       forall c, c ∈ cs <-> is_Some (charges entry !! c)).
Proof.
  intros Hlast.
  assert (Hcs : forall name entry defect,
            distorted_defects_dict !! name = Some entry ->
            last (List.filter (fun d => (Rattle.name d =? name)%string) defects)
            = Some defect ->
            forall c, c ∈ first_occurrences (Rattle.charges defect)
                      <-> is_Some (charges entry !! c)).
  { intros name entry defect Hentry Hdefect c.
    destruct (Hlast name entry Hentry) as (defect' & Hdefect' & Hdom).
    rewrite Hdefect in Hdefect'. injection Hdefect' as <-.
    rewrite elem_of_first_occurrences, <- elem_of_dom, Hdom, elem_of_list_to_set.
    reflexivity. }
  unfold items_in_order. split.
  - intros item Hitem. apply list_elem_of_omap in Hitem as (name & _ & Hitem).
    destruct (distorted_defects_dict !! name) as [entry|] eqn:Hentry; [|discriminate].
    destruct (last _) as [defect|] eqn:Hdefect; [|discriminate].
    injection Hitem as <-. simpl. split; [exact Hentry|].
    exact (Hcs name entry defect Hentry Hdefect).
  - intros name entry Hentry.
    destruct (Hlast name entry Hentry) as (defect & Hdefect & _).
    exists (first_occurrences (Rattle.charges defect)). split.
    + apply list_elem_of_omap. exists name. split.
      * apply elem_of_first_occurrences.
        apply last_Some_elem_of, list_elem_of_In, List.filter_In in Hdefect
          as [Hin Hname].
        apply String.eqb_eq in Hname. subst name.
        apply list_elem_of_In, in_map, Hin.
      * rewrite Hentry, Hdefect. reflexivity.
    + exact (Hcs name entry defect Hentry Hdefect).
Qed.

(** X24: when [apply_distortions] returns and [vasp_gam_files] raises
    nothing, [write_vasp_files] raises nothing, writes the metadata of the
    sweep, and has called [vasp_gam_files] for the unperturbed structure and
    for every distortion of every charge state of every defect returned, in
    the folder [output_path/name_charge/label], with that structure and that
    charge. *)
Theorem write_vasp_files_every_structure (this : Distortions)
    (incar_settings : option IncarSettings)
    (potcar_settings : option PotcarSettings) (output_path : string)
    (verbose : bool) (files : gmap string Metadata.metadata)
    (current_datetime : string) (s : sweep)
    (distorted_defects_dict : gmap string distorted_defect_entry)
    (distortion_metadata : Metadata.metadata) :
  apply_distortions this verbose
  = (s, Ok (distorted_defects_dict, distortion_metadata)) ->
  (forall single dir,
     vasp_gam_files single dir incar_settings potcar_settings = None) ->
  let w := write_vasp_files this incar_settings potcar_settings output_path
             verbose files current_datetime in
  raised w = None /\
  metadata_file w
  = Some (write_distortion_metadata (with_metadata (self s) distortion_metadata)
            files current_datetime output_path) /\
  forall name entry charge st,
    distorted_defects_dict !! name = Some entry ->
    charges entry !! charge = Some (Some st) ->
    (exists single,
       Call_vasp_gam_files single
         (input_dir output_path (folder name charge) "Unperturbed")
         incar_settings potcar_settings ∈ vasp_calls w /\
       Defect_Structure single = Unperturbed st /\
       td_charge (Transformation_Dict single) = charge) /\
    (forall label structure,
       distortions st !! label = Some structure ->
       exists single,
         Call_vasp_gam_files single
           (input_dir output_path (folder name charge) label)
           incar_settings potcar_settings ∈ vasp_calls w /\
         Defect_Structure single = structure /\
         td_charge (Transformation_Dict single) = charge).
Proof.
  intros Hrun Hquiet w. subst w. unfold write_vasp_files. rewrite Hrun.
  destruct (apply_distortions_sweep _ _ _ _ _ Hrun)
    as (defects & Hcomb & Hsame & Hddd & Hmd & (_ & _ & Hcomplete) & Hlast).
  simpl defects_dict. rewrite Hsame, Hcomb. simpl value.
  destruct (items_in_order_spec defects distorted_defects_dict Hlast)
    as [Hitems Hfound].
  set (this' := with_metadata (self s) distortion_metadata).
  set (body := defect_files this' incar_settings potcar_settings output_path).
  assert (Hok : exists log,
            for_each body (items_in_order defects distorted_defects_dict) []
            = (log, None)).
  { apply for_each_all_ok. intros log [[name entry] cs] Hitem.
    destruct (Hitems _ Hitem) as [Hentry Hcs]. simpl in Hentry, Hcs.
    subst body. unfold defect_files. simpl.
    rewrite Hddd in Hentry.
    destruct (Hcomplete name entry Hentry) as (me & Hme & _ & Hcharges).
    match goal with
    | |- context [for_each ?b ?l ?p0] =>
      destruct (for_each_all_ok b l) with (s := p0) as [p ->]; [|eauto]
    end.
    intros p c Hc. apply Hcs in Hc.
    destruct (Hcharges c Hc) as (st & ce & Hst & Hce & _).
    apply (charge_files_ok incar_settings potcar_settings output_path Hquiet
             this' name entry p c me ce st); [|exact Hce | exact Hst].
    subst this'. simpl. rewrite Hmd. exact Hme. }
  destruct Hok as [log Hlog]. rewrite Hlog. simpl.
  split; [reflexivity|]. split; [reflexivity|].
  intros name entry charge st Hentry Hst.
  destruct (Hfound name entry Hentry) as (cs & Hitem & Hcs).
  assert (Hcharge : charge ∈ cs) by (apply Hcs; rewrite Hst; eauto).
  assert (Hreach : forall P : list call -> Prop,
            (forall l l', (forall x, x ∈ l -> x ∈ l') -> P l -> P l') ->
            (forall p p',
               charge_files this' incar_settings potcar_settings output_path name
                 entry p charge = (p', None) -> P (calls p')) ->
            P log).
  { intros P Hmono Hset.
    apply (for_each_ok_established P body _ (name, entry, cs) Hitem) with (s := []);
      [| |exact Hlog].
    - intros l [[n e] c] l' Hstep.
      exact (proj1 (defect_files_reach this' incar_settings potcar_settings
                      output_path P n e c charge l l' Hmono Hstep)).
    - intros l l' Hstep.
      exact (proj2 (defect_files_reach this' incar_settings potcar_settings
                      output_path P name entry cs charge l l' Hmono Hstep)
                   Hcharge Hset). }
  split.
  - apply (Hreach (fun l => exists single, Call_vasp_gam_files single _ _ _ ∈ l /\ _)).
    + intros l l' Hll' (single & Hin & Hrest). exists single.
      split; [apply Hll', Hin | exact Hrest].
    + intros p p' Hstep.
      exact (proj1 (charge_files_calls _ _ _ _ _ _ _ _ _ _ Hstep Hst)).
  - intros label structure Hlabel.
    apply (Hreach (fun l => exists single, Call_vasp_gam_files single _ _ _ ∈ l /\ _)).
    + intros l l' Hll' (single & Hin & Hrest). exists single.
      split; [apply Hll', Hin | exact Hrest].
    + intros p p' Hstep.
      exact (proj2 (charge_files_calls _ _ _ _ _ _ _ _ _ _ Hstep Hst)
                   label structure Hlabel).
Qed.

End VaspFilesFacts.

Section QuietFacts.
Import Distortions VaspFiles Chain Quiet.

Lemma generate_structure_comment_spec_witness :
  _generate_structure_comment (self swept) "Unperturbed" 1 "vac_1_Cd"
  = Raise (KeyError "1") /\
  exists head,
    "Bond_Distortion_-50.0%" = head +:+ "-50.0%" /\
    _generate_structure_comment (self swept) "Bond_Distortion_-50.0%" (-1) "vac_1_Cd"
    = Ok "-50.0%____num_neighbours=1_vac_1_Cd".
Proof.
  destruct (generate_structure_comment_spec (self swept) "Unperturbed" 1 "vac_1_Cd")
    as (_ & _ & Hmissing).
  split; [eapply Hmissing; vm_compute; reflexivity|].
  exists "Bond_Distortion_". split; vm_compute; reflexivity.
Defined.

Lemma defect_files_previous_charge_witness :
  let out := defect_files (self swept) None None "." []
               ("vac_1_Cd", vacancy_entry, [0; -1; -2]) in
  exists single,
    Call_vasp_gam_files single "./vac_1_Cd_-2/Bond_Distortion_-50.0%" None None
    ∈ out.1 /\
    td_charge (Transformation_Dict single) = -1 /\
    POSCAR_Comment single = "-50.0%____num_neighbours=1_vac_1_Cd".
Proof.
  intros out.
  assert (Hout : defect_files (self swept) None None "." []
                   ("vac_1_Cd", vacancy_entry, [0] ++ -1 :: -2 :: [])
                 = (out.1, None)) by (vm_compute; reflexivity).
  destruct (charges vacancy_entry !! (-1)) as [[st|]|] eqn:Hst;
    [|vm_compute in Hst; discriminate|vm_compute in Hst; discriminate].
  assert (Hlook : forall o : option (option structures),
            o = Some (Some st) ->
            match o with
            | Some (Some st') => is_Some (distortions st' !! "Bond_Distortion_-50.0%")
            | _ => False
            end -> is_Some (distortions st !! "Bond_Distortion_-50.0%"))
    by (intros ? -> ?; assumption).
  destruct (Hlook _ Hst) as [structure Hlabel]; [vm_compute; eauto|].
  destruct (defect_files_previous_charge (self swept) None None "." [] out.1
              "vac_1_Cd" vacancy_entry [0] (-1) (-2) [] st "Bond_Distortion_-50.0%"
              structure Hout Hst Hlabel ltac:(discriminate))
    as (single & Hcall & _ & Hcharge & Hcomment).
  exists single. split; [exact Hcall|]. split; [exact Hcharge|].
  assert (Hc : _generate_structure_comment (self swept) "Bond_Distortion_-50.0%" (-1)
                 "vac_1_Cd" = Ok "-50.0%____num_neighbours=1_vac_1_Cd")
    by (vm_compute; reflexivity).
  rewrite Hc in Hcomment. injection Hcomment as <-. reflexivity.
Defined.

Lemma write_vasp_files_every_structure_witness :
  let w := write_vasp_files three_charges None None "." false ∅ "2022-08-01-12-00" in
  raised w = None /\
  exists single,
    Call_vasp_gam_files single "./vac_1_Cd_-1/Bond_Distortion_-50.0%" None None
    ∈ vasp_calls w /\
    td_charge (Transformation_Dict single) = -1.
Proof.
  intros w.
  set (run := apply_distortions three_charges false).
  set (returned := value run.2 (∅, distortion_metadata three_charges)).
  assert (Hrun : run = (run.1, Ok (returned.1, returned.2)))
    by (vm_compute; reflexivity).
  destruct (@write_vasp_files_every_structure _ _ quiet_writer three_charges None
              None "." false ∅ "2022-08-01-12-00" run.1 returned.1 returned.2 Hrun
              (fun _ _ => eq_refl)) as (Hraised & _ & Hcalls).
  split; [exact Hraised|].
  assert (Hentry : returned.1 !! "vac_1_Cd" = Some vacancy_entry)
    by (vm_compute; reflexivity).
  destruct (charges vacancy_entry !! (-1)) as [[st|]|] eqn:Hst;
    [|vm_compute in Hst; discriminate|vm_compute in Hst; discriminate].
  assert (Hlook : forall o : option (option structures),
            o = Some (Some st) ->
            match o with
            | Some (Some st') => is_Some (distortions st' !! "Bond_Distortion_-50.0%")
            | _ => False
            end -> is_Some (distortions st !! "Bond_Distortion_-50.0%"))
    by (intros ? -> ?; assumption).
  destruct (Hlook _ Hst) as [structure Hlabel]; [vm_compute; eauto|].
  destruct (Hcalls "vac_1_Cd" vacancy_entry (-1) st Hentry Hst) as [_ Hlabels].
  destruct (Hlabels _ _ Hlabel) as (single & Hin & _ & Hcharge).
  exists single. split; [exact Hin | exact Hcharge].
Defined.

(** The files of the sweep over the three charge states: the folder of
    charge [-2], whose only distortion is the rattle, is given the two bond
    distortions of charge [-1], once by each of the two calls of
    [_create_vasp_input]. *)
Example write_vasp_files_three_charges :
  let w := write_vasp_files three_charges None None "." false ∅ "2022-08-01-12-00" in
  raised w = None /\
  omap (fun c => match c with
                 | Call_vasp_gam_files single dir _ _ =>
                   if String.prefix "./vac_1_Cd_-2/" dir
                   then Some (dir, td_charge (Transformation_Dict single))
                   else None
                 | Call__create_folder _ => None
                 end)
       (vasp_calls w)
  = [("./vac_1_Cd_-2/Unperturbed", -2);
     ("./vac_1_Cd_-2/Bond_Distortion_-50.0%", -1);
     ("./vac_1_Cd_-2/Bond_Distortion_-30.0%", -1);
     ("./vac_1_Cd_-2/Unperturbed", -2);
     ("./vac_1_Cd_-2/Bond_Distortion_-50.0%", -1);
     ("./vac_1_Cd_-2/Bond_Distortion_-30.0%", -1);
     ("./vac_1_Cd_-2/Rattled", -2)] /\
  (Metadata.emitted <$> metadata_file w) = Some [].
Proof. vm_compute. repeat split. Qed.

End QuietFacts.
